(** * The quality-refinement engine of astro-rabbit-live

    A shallow embedding of [src/validation_agent]: the critic-response parser
    ([json_parser.py]), the patch engine, similarity measure, mode selector
    and requirements check ([patch_applier.py]) and the two refinement loops
    with the agents around them ([claude_validator.py], [rlhf_system.py]).

    Conventions of the embedding.
    - A Python [str] is a list of Unicode code points.
    - A Python [float] is an extended rational: [Fin q] is the binary64
      number of value [q], kept as a reduced fraction; infinities and NaN are
      separate values, and the sign of a zero is not kept.  Reading a float
      from a text or from an [int] and subtracting round to the nearest
      binary64 number, ties to even ([float_of_Q]); comparisons compare the
      values.  A decimal literal of the source that is no binary64 number
      (0.95, 0.7, 0.9) is kept as the decimal fraction and stands for the
      float nearest to it, and the quotient of two [int]s and the product of
      a length and 0.7 are kept exact: they are only compared, with the
      outcome that the comparison of the floats has (see [int_truediv] and
      [int_mul_float]).
    - An exception is a value of [exn]; a function that may raise returns
      [res].
    - The interpreter's Unicode tables (case mapping, decimal digits,
      identifier characters) depend on its version, and the room that its
      recursion limit leaves the JSON decoder depends on the call; they are
      a class [UnicodeDB] that the definitions take as a parameter. *)

From Stdlib Require Import ZArith NArith QArith Qreduction Ascii String List Bool Lia.
From stdpp Require Import base decidable list gmap.

Set Default Proof Using "Type".
Local Open Scope Z_scope.

(** ** Strings *)

Abbreviation char := N (only parsing).
Abbreviation str := (list N) (only parsing).

Module Utf8.
(** String literals of this file are UTF-8; [decode] reads the code points. *)
Fixpoint decode (bs : list N) : str :=
  match bs with
  | [] => []
  | b :: r =>
    if (b <? 128)%N then b :: decode r
    else if (b <? 224)%N then
      match r with
      | b1 :: r1 => ((b - 192) * 64 + (b1 - 128))%N :: decode r1
      | _ => []
      end
    else if (b <? 240)%N then
      match r with
      | b1 :: b2 :: r2 =>
        ((b - 224) * 4096 + (b1 - 128) * 64 + (b2 - 128))%N :: decode r2
      | _ => []
      end
    else
      match r with
      | b1 :: b2 :: b3 :: r3 =>
        ((b - 240) * 262144 + (b1 - 128) * 4096 + (b2 - 128) * 64 + (b3 - 128))%N
          :: decode r3
      | _ => []
      end
  end.
End Utf8.

Definition lit (s : string) : str :=
  Utf8.decode (List.map N_of_ascii (list_ascii_of_string s)).

Definition ch (a : ascii) : char := N_of_ascii a.

Definition quote : char := 34%N.
Definition apostrophe : char := 39%N.
Definition backslash : char := 92%N.
Definition newline : char := 10%N.

Definition str_eqb (a b : str) : bool := bool_decide (a = b).

(** [str.isspace] for one character, which is also [\s] of [re] on [str]
    patterns and what [strip], [rstrip] and [split] without argument remove. *)
Definition is_space (c : char) : bool :=
  ((9 <=? c) && (c <=? 13) || (28 <=? c) && (c <=? 32)
   || (c =? 133) || (c =? 160) || (c =? 5760)
   || (8192 <=? c) && (c <=? 8202)
   || (c =? 8232) || (c =? 8233) || (c =? 8239) || (c =? 8287) || (c =? 12288))%N.

Fixpoint lstrip_by (p : char -> bool) (s : str) : str :=
  match s with
  | c :: s' => if p c then lstrip_by p s' else s
  | [] => []
  end.

Fixpoint take_while (p : char -> bool) (s : str) : str :=
  match s with
  | c :: s' => if p c then c :: take_while p s' else []
  | [] => []
  end.

Definition rstrip_by (p : char -> bool) (s : str) : str :=
  rev (lstrip_by p (rev s)).

Definition strip_by (p : char -> bool) (s : str) : str :=
  rstrip_by p (lstrip_by p s).

(** [s.strip()], [s.rstrip()] and [s.strip(chars)]. *)
Definition str_strip : str -> str := strip_by is_space.
Definition str_rstrip : str -> str := rstrip_by is_space.
Definition str_strip_chars (chars : str) : str -> str :=
  strip_by (fun c => bool_decide (c ∈ chars)).

(** [s.split()]: the maximal runs of non-whitespace characters. *)
Fixpoint split_from (word : str) (s : str) : list str :=
  match s with
  | [] => match word with [] => [] | _ => [rev word] end
  | c :: s' =>
    if is_space c
    then match word with [] => split_from [] s' | _ => rev word :: split_from [] s' end
    else split_from (c :: word) s'
  end.

Definition str_split (s : str) : list str := split_from [] s.

Fixpoint starts_with (p s : str) : bool :=
  match p, s with
  | [], _ => true
  | a :: p', b :: s' => (a =? b)%N && starts_with p' s'
  | _ :: _, [] => false
  end.

(** [needle in s]. *)
Fixpoint str_contains (needle s : str) : bool :=
  starts_with needle s ||
  match s with
  | [] => false
  | _ :: s' => str_contains needle s'
  end.

(** [s.replace(old, new)]: every occurrence of [old], leftmost first and
    without overlap.  [skip] counts the characters of an occurrence still to
    be dropped. *)
Fixpoint replace_from (old new : str) (skip : nat) (s : str) : str :=
  match s with
  | [] => []
  | c :: s' =>
    match skip with
    | S k => replace_from old new k s'
    | O =>
      if starts_with old s
      then new ++ replace_from old new (Nat.pred (length old)) s'
      else c :: replace_from old new O s'
    end
  end.

Definition str_replace (old new s : str) : str :=
  match old with
  | [] => new ++ flat_map (fun c => c :: new) s
  | _ => replace_from old new O s
  end.

Definition ascii_lower (c : char) : char :=
  if ((65 <=? c) && (c <=? 90))%N then (c + 32)%N else c.

(** The tables of the interpreter's Unicode database, and what is left of
    its recursion limit where the program calls the JSON decoder. *)
Class UnicodeDB := {
  (** [str.lower] *)
  str_lower : str -> str;
  (** the digit value of a character of category Nd, which is what [\d]
      matches and what [float] reads as a digit *)
  decimal_value : char -> option Z;
  (** [str.isidentifier] *)
  is_identifier : str -> bool;
  (** how many objects and lists within one another [json.loads] can
      enter before it raises [RecursionError]: [sys.getrecursionlimit()],
      1000 unless it is set, less the frames already on the stack *)
  json_nesting : nat
}.

(** The same tables cut down to ASCII, for evaluating the definitions on
    ASCII inputs, where every version of the interpreter's tables agrees with
    them; the decoder is given the room for 900 levels of nesting. *)
Definition ascii_db : UnicodeDB := {|
  json_nesting := 900;
  str_lower := List.map ascii_lower;
  decimal_value c :=
    if ((48 <=? c) && (c <=? 57))%N then Some (Z.of_N c - 48) else None;
  is_identifier s :=
    match s with
    | [] => false
    | c :: _ =>
      negb ((48 <=? c) && (c <=? 57))%N &&
      forallb (fun c => ((48 <=? c) && (c <=? 57) || (65 <=? c) && (c <=? 90)
                         || (97 <=? c) && (c <=? 122) || (c =? 95))%N) s
    end
|}.

Definition is_decimal `{UnicodeDB} (c : char) : bool :=
  match decimal_value c with Some _ => true | None => false end.

(** ** Exceptions *)

Inductive exn :=
| TypeError
| AttributeError
| IndexError
| ReError.

Inductive res (A : Type) :=
| Ok (a : A)
| Raise (e : exn).
Arguments Ok {A} a.
Arguments Raise {A} e.

#[global] Instance res_bind : MBind res := fun A B f r =>
  match r with
  | Ok a => f a
  | Raise e => Raise e
  end.

Definition returns {A} (r : res A) : Prop :=
  match r with Ok _ => True | Raise _ => False end.

(** ** Floats *)

Inductive pyfloat :=
| Fin (q : Q)
| PInf
| NInf
| NaN.

Definition Qlt_bool (x y : Q) : bool := negb (Qle_bool y x).

(** [a < b], [a > b], [a >= b] on floats; every comparison with NaN is
    false. *)
Definition flt (a b : pyfloat) : bool :=
  match a, b with
  | NaN, _ | _, NaN => false
  | Fin x, Fin y => Qlt_bool x y
  | NInf, NInf => false
  | NInf, _ => true
  | _, NInf => false
  | PInf, _ => false
  | Fin _, PInf => true
  end.

Definition fgt (a b : pyfloat) : bool := flt b a.

Definition fle (a b : pyfloat) : bool :=
  match a, b with
  | NaN, _ | _, NaN => false
  | Fin x, Fin y => Qle_bool x y
  | NInf, _ => true
  | _, PInf => true
  | _, _ => false
  end.

Definition fge (a b : pyfloat) : bool := fle b a.

(** *** Rounding to binary64 *)

(** The integer nearest to [n / d], the even one of the two when it is
    half-way between them. *)
Definition round_half_even (n : Z) (d : positive) : Z :=
  let q := n / Z.pos d in
  let r := n mod Z.pos d in
  match 2 * r ?= Z.pos d with
  | Lt => q
  | Gt => q + 1
  | Eq => if Z.even q then q else q + 1
  end.

(** [n * 2 ^ k / d] for any exponent [k], as a fraction. *)
Definition scale2 (n d : positive) (k : Z) : Z * positive :=
  match k with
  | Z0 => (Z.pos n, d)
  | Zpos p => (Z.pos n * 2 ^ Z.pos p, d)
  | Zneg p => (Z.pos n, (d * 2 ^ p)%positive)
  end.

(** The exponent of the leading bit of [n / d]: the [e] with
    [2 ^ e <= n / d < 2 ^ (e + 1)]. *)
Definition exponent_of (n d : positive) : Z :=
  let e0 := Z.log2 (Z.pos n) - Z.log2 (Z.pos d) in
  let '(n', d') := scale2 n d (- e0) in
  if Z.pos d' <=? n' then e0 else e0 - 1.

(** [m * 2 ^ k] as a reduced fraction. *)
Definition times_pow2 (m k : Z) : Q :=
  match k with
  | Z0 => inject_Z m
  | Zpos p => inject_Z (m * 2 ^ Z.pos p)
  | Zneg p => Qred (m # 2 ^ p)
  end.

(** The binary64 number nearest to the positive rational [n / d], ties to
    even: 53 significant bits, exponents down to that of the subnormal
    numbers, where the least step is [2 ^ -1074], and infinity from
    [2 ^ 1024 - 2 ^ 970] on. *)
Definition round_pos (n d : positive) : pyfloat :=
  let e := exponent_of n d in
  let k := Z.max (e - 52) (- 1074) in
  let '(n', d') := scale2 n d (- k) in
  let m := round_half_even n' d' in
  if 1024 <=? Z.log2 m + k then PInf else Fin (times_pow2 m k).

Definition fneg (f : pyfloat) : pyfloat :=
  match f with
  | Fin q => Fin (Qred (- q))
  | PInf => NInf
  | NInf => PInf
  | NaN => NaN
  end.

(** The float nearest to a rational: what the interpreter makes of a
    decimal literal, of a numeric string and of an [int], and how it rounds
    the exact result of an operation. *)
Definition float_of_Q (q : Q) : pyfloat :=
  match Qnum q with
  | Z0 => Fin 0
  | Zpos n => round_pos n (Qden q)
  | Zneg n => fneg (round_pos n (Qden q))
  end.

(** A float as the binary64 number it is.  A finite value that is no
    binary64 number, such as 41/5, stands for the one nearest to it, as the
    literal [8.2] does in the source. *)
Definition binary64 (f : pyfloat) : pyfloat :=
  match f with
  | Fin q => float_of_Q q
  | _ => f
  end.

(** [a - b]: the exact difference of the two binary64 numbers, rounded. *)
Definition fsub (a b : pyfloat) : pyfloat :=
  match binary64 a, binary64 b with
  | NaN, _ | _, NaN => NaN
  | Fin x, Fin y => float_of_Q (x - y)
  | PInf, PInf | NInf, NInf => NaN
  | PInf, _ | _, NInf => PInf
  | NInf, _ | _, PInf => NInf
  end.

(** The least magnitude that rounds to infinity in binary64. *)
Definition overflow_threshold : Z := 2 ^ 1024 - 2 ^ 970.

(** [float(n)] for an [int]: the float nearest to it; [OverflowError],
    when that is no finite number, is [None]. *)
Definition float_of_int (n : Z) : option pyfloat :=
  if overflow_threshold <=? Z.abs n then None else Some (float_of_Q (inject_Z n)).

(** [i / u] on non-negative [int]s with [u > 0]: the exact quotient.  The
    interpreter rounds it to the nearest binary64 number; rounding is monotone
    and leaves 0 and 1 as they are, so what is said of the quotient against 0
    and 1 holds of the rounded value too.  The one threshold it is compared
    with is 0.95: the float 0.95 is below 19/20 and the next float is above
    it, so the rounded quotient exceeds the float 0.95 exactly when the
    quotient exceeds 19/20, as long as the quotient is not within [2 ^ -54]
    of 19/20 without being it, which takes more than [2 ^ 40] words. *)
Definition int_truediv (i u : nat) : pyfloat :=
  Fin (Qred (Z.of_nat i # Pos.of_nat u)).

Definition f0 : pyfloat := Fin 0.
Definition f1 : pyfloat := Fin 1.
Definition f5 : pyfloat := Fin 5.
Definition f7 : pyfloat := Fin 7.
Definition f0_5 : pyfloat := Fin (1 # 2).
Definition f0_7 : pyfloat := Fin (7 # 10).
Definition f0_95 : pyfloat := Fin (19 # 20).

(** ** [patch_applier.py]: similarity measure and mode selector *)

Inductive editing_mode := soft | hard.

(** [determine_editing_mode(iteration, current_score, prev_score, similarity)] *)
Definition score_delta (current_score prev_score : pyfloat) : pyfloat :=
  if fgt prev_score f0 then fsub current_score prev_score else f0.

Definition determine_editing_mode
    (iteration : Z) (current_score prev_score similarity : pyfloat) : editing_mode :=
  let score_delta := score_delta current_score prev_score in
  if (2 <=? iteration) && flt score_delta f0_5 then hard
  else if fgt similarity f0_95 then hard
  else if (3 <=? iteration) && flt current_score f7 then hard
  else soft.

Section Similarity.
Context `{UnicodeDB}.

(** [set(text.lower().split())] *)
Definition word_set (text : str) : gset str :=
  list_to_set (str_split (str_lower text)).

(** [calculate_text_similarity(text1, text2)].  The [except] branch is
    not reachable on [str] arguments. *)
Definition calculate_text_similarity (text1 text2 : str) : pyfloat :=
  let words1 := word_set text1 in
  let words2 := word_set text2 in
  if bool_decide (words1 = ∅) && bool_decide (words2 = ∅) then f1
  else if bool_decide (words1 = ∅) || bool_decide (words2 = ∅) then f0
  else
    let intersection := size (words1 ∩ words2) in
    let union := size (words1 ∪ words2) in
    if (0 <? union)%nat then int_truediv intersection union else f0.
End Similarity.

(** ** Regular expressions

    The patterns of the source are written in this syntax and run by a
    backtracking matcher with [re]'s priorities: the first alternative first,
    a greedy star longest first, a lazy star shortest first.  [RBol] and
    [REol] are [^] and [$] under [re.MULTILINE], [REos] is [\Z], [RLook] is
    [(?=...)].  A star ranges over a character class, which is all the
    patterns of the source need. *)

Inductive regex :=
| REmpty
| RChar (c : char)
| RClass (p : char -> bool)
| RSeq (r1 r2 : regex)
| RAlt (r1 r2 : regex)
| RStar (greedy : bool) (p : char -> bool)
| RBol
| REol
| REos
| RLook (r : regex).

Fixpoint RLit (s : str) : regex :=
  match s with
  | [] => REmpty
  | c :: s' => RSeq (RChar c) (RLit s')
  end.

Fixpoint RSeqs (rs : list regex) : regex :=
  match rs with
  | [] => REmpty
  | r :: rs' => RSeq r (RSeqs rs')
  end.

Definition any_char (c : char) : bool := true.
Definition non_space (c : char) : bool := negb (is_space c).

(** [prev] is the character before the current position, [None] at the
    start of the string; [k] continues after the match and may reject it,
    which makes the matcher backtrack. *)
Fixpoint rmatch (X : Type) (r : regex) (prev : option char) (s : str)
    (k : option char -> str -> option X) {struct r} : option X :=
  match r with
  | REmpty => k prev s
  | RChar c =>
    match s with
    | x :: s' => if (x =? c)%N then k (Some x) s' else None
    | [] => None
    end
  | RClass p =>
    match s with
    | x :: s' => if p x then k (Some x) s' else None
    | [] => None
    end
  | RSeq r1 r2 => rmatch X r1 prev s (fun prev' s' => rmatch X r2 prev' s' k)
  | RAlt r1 r2 =>
    match rmatch X r1 prev s k with
    | Some x => Some x
    | None => rmatch X r2 prev s k
    end
  | RStar true p =>
    (fix star (prev : option char) (s : str) : option X :=
       match s with
       | x :: s' =>
         if p x
         then match star (Some x) s' with
              | Some r => Some r
              | None => k prev s
              end
         else k prev s
       | [] => k prev s
       end) prev s
  | RStar false p =>
    (fix star (prev : option char) (s : str) : option X :=
       match k prev s with
       | Some r => Some r
       | None =>
         match s with
         | x :: s' => if p x then star (Some x) s' else None
         | [] => None
         end
       end) prev s
  | RBol =>
    match prev with
    | None => k prev s
    | Some c => if (c =? newline)%N then k prev s else None
    end
  | REol =>
    match s with
    | [] => k prev s
    | x :: _ => if (x =? newline)%N then k prev s else None
    end
  | REos =>
    match s with
    | [] => k prev s
    | _ :: _ => None
    end
  | RLook r1 =>
    match rmatch unit r1 prev s (fun _ _ => Some tt) with
    | Some _ => k prev s
    | None => None
    end
  end.

(** A match of [r] that starts at the current position: the character
    before its end and the text after it.  With [must_advance] an empty
    match is rejected. *)
Definition re_match_at (r : regex) (must_advance : bool) (prev : option char) (s : str)
    : option (option char * str) :=
  rmatch _ r prev s (fun prev' s' =>
    if must_advance && (length s' =? length s)%nat then None else Some (prev', s')).

Record re_match := {
  m_before : str;      (** the text skipped before the match *)
  m_text : str;        (** [m.group(0)] *)
  m_after : str;       (** the text after the match *)
  m_prev : option char (** the character before [m_after] *)
}.

(** [r.search]: the leftmost match. *)
Fixpoint re_search_from (r : regex) (must_advance : bool) (skipped : str)
    (prev : option char) (s : str) : option re_match :=
  match re_match_at r must_advance prev s with
  | Some (prev', rest) =>
    Some {| m_before := rev skipped;
            m_text := take (length s - length rest)%nat s;
            m_after := rest;
            m_prev := prev' |}
  | None =>
    match s with
    | [] => None
    | c :: s' => re_search_from r false (c :: skipped) (Some c) s'
    end
  end.

Definition re_search (r : regex) (s : str) : option re_match :=
  re_search_from r false [] None s.

(** [m.start()] of a search, [-1] when there is no match. *)
Definition search_start (r : regex) (s : str) : Z :=
  match re_search r s with
  | Some m => Z.of_nat (length (m_before m))
  | None => -1
  end.

(** [re.sub] with the replacement computed from each match: matches are
    replaced from left to right without overlap; after an empty match the
    next one has to advance. *)
Fixpoint sub_from (fuel : nat) (r : regex) (repl : str -> str)
    (must_advance : bool) (prev : option char) (s : str) : str :=
  match fuel with
  | O => s
  | S fuel' =>
    match re_search_from r must_advance [] prev s with
    | None => s
    | Some m =>
      m_before m ++ repl (m_text m) ++
      sub_from fuel' r repl
        (match m_text m with [] => true | _ => false end) (m_prev m) (m_after m)
    end
  end.

Definition re_sub_with (r : regex) (repl : str -> str) (s : str) : str :=
  sub_from (2 * length s + 2) r repl false None s.

(** ** [int(s)] for a [str]

    As [PyLong_FromUnicodeObject] reads it in base 10: Unicode decimal
    digits and whitespace are mapped to ASCII, ASCII whitespace is stripped
    at both ends, and the rest has to be an optional sign and digits, with
    single underscores between digits allowed, and no more digits than the
    interpreter converts.  [None] stands for [ValueError]. *)

Definition is_octdigit (c : char) : bool := ((48 <=? c) && (c <=? 55))%N.
Definition is_digit (c : char) : bool := ((48 <=? c) && (c <=? 57))%N.
Definition is_ascii_letter (c : char) : bool :=
  ((65 <=? c) && (c <=? 90) || (97 <=? c) && (c <=? 122))%N.
Definition digit_val (c : char) : N := (c - 48)%N.

Fixpoint span_digits (s : str) : str * str :=
  match s with
  | c :: s' =>
    if is_digit c then let '(ds, rest) := span_digits s' in (c :: ds, rest)
    else ([], s)
  | [] => ([], [])
  end.

Definition digits_to_Z (ds : str) : Z :=
  fold_left (fun acc c => acc * 10 + Z.of_N (digit_val c)) ds 0.

Definition take_sign (s : str) : bool * str :=
  match s with
  | 45%N :: s' => (true, s')
  | 43%N :: s' => (false, s')
  | _ => (false, s)
  end.

(** The underscore rule of numeric literals: after and before a digit, and
    not at the end.  Returns the text without its underscores. *)
Fixpoint drop_underscores (prev : char) (s : str) : option str :=
  match s with
  | [] => if (prev =? 95)%N then None else Some []
  | c :: s' =>
    if (c =? 95)%N then
      if is_digit prev then drop_underscores c s' else None
    else if (prev =? 95)%N && negb (is_digit c) then None
    else rest ← drop_underscores c s'; Some (c :: rest)
  end.

Definition is_c_space (c : char) : bool := ((9 <=? c) && (c <=? 13) || (c =? 32))%N.

(** The longest integer a [str] may hold before [int] refuses it. *)
Definition int_max_str_digits : nat := 4300.

Section IntOfStr.
Context `{UnicodeDB}.

Fixpoint to_ascii_decimal (s : str) : str :=
  match s with
  | [] => []
  | c :: s' =>
    if (c <? 128)%N then c :: to_ascii_decimal s'
    else if is_space c then 32%N :: to_ascii_decimal s'
    else match decimal_value c with
         | Some d => (48 + Z.to_N d)%N :: to_ascii_decimal s'
         | None => [63%N]
         end
  end.

Definition py_int (s : str) : option Z :=
  let a := strip_by is_c_space (to_ascii_decimal s) in
  let '(neg, a1) := take_sign a in
  ds ← drop_underscores 0%N a1;
  match ds with
  | [] => None
  | _ =>
    if forallb is_digit ds && (length ds <=? int_max_str_digits)%nat
    then Some (if neg then - digits_to_Z ds else digits_to_Z ds)
    else None
  end.
End IntOfStr.

(** *** Replacement templates

    [re.sub] with a [str] replacement reads it as a template
    ([re._parser.parse_template], as of Python 3.11) for a pattern that has
    no capturing group: the only group a template can refer to is the whole
    match. *)

Inductive tpart :=
| TLit (c : char)
| TWhole.

(** The character an escape of [ESCAPES] stands for. *)
Definition template_escape (c : char) : option char :=
  if (c =? 97)%N then Some 7%N          (* \a *)
  else if (c =? 98)%N then Some 8%N     (* \b *)
  else if (c =? 102)%N then Some 12%N   (* \f *)
  else if (c =? 110)%N then Some 10%N   (* \n *)
  else if (c =? 114)%N then Some 13%N   (* \r *)
  else if (c =? 116)%N then Some 9%N    (* \t *)
  else if (c =? 118)%N then Some 11%N   (* \v *)
  else if (c =? backslash)%N then Some backslash
  else None.

(** The text up to the first [stop] and the text after it. *)
Fixpoint split_at_char (stop : char) (s : str) : option (str * str) :=
  match s with
  | [] => None
  | c :: s' =>
    if (c =? stop)%N then Some ([], s')
    else match split_at_char stop s' with
         | Some (a, b) => Some (c :: a, b)
         | None => None
         end
  end.

Section Template.
Context `{UnicodeDB}.

(** [\g<name>] after the [g]: a name that is an identifier is an unknown
    group ([IndexError]); any other name has to be a number as [int] reads
    it, and the only number that is a group of the pattern is [0], the whole
    match.  (From Python 3.12 on the number has to be written in ASCII
    digits; 3.11 only warns of a sign, whitespace, underscores or other
    digits.) *)
Definition template_group (s : str) : res (tpart * str) :=
  match s with
  | 60%N :: s1 =>
    match split_at_char 62%N s1 with
    | None => Raise ReError
    | Some (name, rest) =>
      match name with
      | [] => Raise ReError
      | _ =>
        if is_identifier name then Raise IndexError
        else match py_int name with
             | Some 0 => Ok (TWhole, rest)
             | _ => Raise ReError
             end
      end
    end
  | _ => Raise ReError
  end.

Fixpoint parse_template_from (fuel : nat) (s : str) : res (list tpart) :=
  match fuel with
  | O => Ok []
  | S fuel' =>
    match s with
    | [] => Ok []
    | c :: s1 =>
      if negb (c =? backslash)%N
      then parts ← parse_template_from fuel' s1; Ok (TLit c :: parts)
      else
        match s1 with
        | [] => Raise ReError
        | e :: s2 =>
          if (e =? 103)%N then
            '(part, rest) ← template_group s2;
            parts ← parse_template_from fuel' rest; Ok (part :: parts)
          else if (e =? 48)%N then
            (* \0, \0o, \0oo: an octal escape *)
            match s2 with
            | o1 :: s3 =>
              if is_octdigit o1 then
                match s3 with
                | o2 :: s4 =>
                  if is_octdigit o2
                  then parts ← parse_template_from fuel' s4;
                       Ok (TLit ((digit_val o1 * 8 + digit_val o2) mod 256)%N :: parts)
                  else parts ← parse_template_from fuel' s3;
                       Ok (TLit (digit_val o1) :: parts)
                | [] => Ok [TLit (digit_val o1)]
                end
              else parts ← parse_template_from fuel' s2; Ok (TLit 0%N :: parts)
            | [] => Ok [TLit 0%N]
            end
          else if is_digit e then
            (* \ooo is an octal escape, any other \d or \dd a group the
               pattern does not have *)
            match s2 with
            | d2 :: d3 :: s4 =>
              if is_octdigit e && is_octdigit d2 && is_octdigit d3
              then
                let v := (digit_val e * 64 + digit_val d2 * 8 + digit_val d3)%N in
                if (255 <? v)%N then Raise ReError
                else parts ← parse_template_from fuel' s4; Ok (TLit v :: parts)
              else Raise ReError
            | _ => Raise ReError
            end
          else
            match template_escape e with
            | Some x => parts ← parse_template_from fuel' s2; Ok (TLit x :: parts)
            | None =>
              if is_ascii_letter e then Raise ReError
              else parts ← parse_template_from fuel' s2;
                   Ok (TLit backslash :: TLit e :: parts)
            end
        end
    end
  end.

Definition parse_template (repl : str) : res (list tpart) :=
  parse_template_from (length repl) repl.

Definition expand_template (parts : list tpart) (whole : str) : str :=
  flat_map (fun p => match p with TLit c => [c] | TWhole => whole end) parts.

(** [re.sub(pattern, repl, s)] with a [str] replacement.  The template is
    compiled before the search, so a malformed one raises whether or not
    the pattern matches. *)
Definition re_sub (r : regex) (repl : str) (s : str) : res str :=
  parts ← parse_template repl;
  Ok (re_sub_with r (expand_template parts) s).
End Template.

(** ** Values of the critic's report

    What [json.loads] builds: [None], [bool], [int], [float], [str], [list]
    and [dict].  A [dict] is the list of its items in insertion order; its
    keys are distinct. *)

Unset Elimination Schemes.
Inductive json :=
| JNull
| JBool (b : bool)
| JInt (n : Z)
| JFloat (f : pyfloat)
| JStr (s : str)
| JArr (items : list json)
| JObj (fields : list (str * json)).
Set Elimination Schemes.

Definition dict := list (str * json).

(** [d.get(k)] as an option, [k in d], and [d[k] = v]. *)
Fixpoint dict_get (k : str) (d : dict) : option json :=
  match d with
  | [] => None
  | (k', v) :: d' => if str_eqb k' k then Some v else dict_get k d'
  end.

Definition dict_mem (k : str) (d : dict) : bool :=
  match dict_get k d with Some _ => true | None => false end.

Fixpoint dict_set (k : str) (v : json) (d : dict) : dict :=
  match d with
  | [] => [(k, v)]
  | (k', v') :: d' => if str_eqb k' k then (k', v) :: d' else (k', v') :: dict_set k v d'
  end.

(** [d.setdefault(k, v)] *)
Definition dict_setdefault (k : str) (v : json) (d : dict) : dict :=
  if dict_mem k d then d else dict_set k v d.

(** Truth value of an object. *)
Definition truthy (v : json) : bool :=
  match v with
  | JNull => false
  | JBool b => b
  | JInt n => negb (n =? 0)
  | JFloat (Fin q) => negb (Qeq_bool q 0)
  | JFloat _ => true
  | JStr s => match s with [] => false | _ => true end
  | JArr l => match l with [] => false | _ => true end
  | JObj d => match d with [] => false | _ => true end
  end.

(** [a or b] *)
Definition py_or (a b : json) : json := if truthy a then a else b.

(** [o.get(k)] and [o.get(k, dflt)]: only a [dict] has the method. *)
Definition py_get (o : json) (k : str) (dflt : json) : res json :=
  match o with
  | JObj d => Ok (default dflt (dict_get k d))
  | _ => Raise AttributeError
  end.

(** [o.strip()]: only a [str] has the method. *)
Definition py_strip (o : json) : res str :=
  match o with
  | JStr s => Ok (str_strip s)
  | _ => Raise AttributeError
  end.

(** The items a [for] loop draws from an object: the elements of a list,
    the characters of a string, the keys of a dict. *)
Definition py_iter (o : json) : res (list json) :=
  match o with
  | JArr l => Ok l
  | JStr s => Ok (List.map (fun c => JStr [c]) s)
  | JObj d => Ok (List.map (fun kv => JStr (fst kv)) d)
  | _ => Raise TypeError
  end.

(** [len(o)] *)
Definition py_len (o : json) : res nat :=
  match o with
  | JArr l => Ok (length l)
  | JStr s => Ok (length s)
  | JObj d => Ok (length d)
  | _ => Raise TypeError
  end.

(** ** [patch_applier.py]: the patch engine *)

Section PatchEngine.
Context `{UnicodeDB}.

(** One turn of the loop over [inline_fixes]. *)
Definition apply_inline_fix (text : str) (fx : json) : res str :=
  f ← py_get fx (lit "find") JNull;
  find ← py_strip (py_or f (JStr []));
  r ← py_get fx (lit "replace") JNull;
  repl ← py_strip (py_or r (JStr []));
  if truthy (JStr find) && truthy (JStr repl) && str_contains find text
  then Ok (str_replace find repl text)
  else Ok text.

Fixpoint apply_inline_fixes (text : str) (fixes : list json) : res str :=
  match fixes with
  | [] => Ok text
  | fx :: rest => text' ← apply_inline_fix text fx; apply_inline_fixes text' rest
  end.

(** [(?m)^\s*TITLE\s*$], the title being escaped *)
Definition title_pattern (title : str) : regex :=
  RSeqs [RBol; RStar true is_space; RLit title; RStar true is_space; REol].

(** [(?ms)^\s*TITLE\s*$.*?(?=^\S|\Z)] *)
Definition section_pattern (title : str) : regex :=
  RSeqs [RBol; RStar true is_space; RLit title; RStar true is_space; REol;
         RStar false any_char;
         RLook (RAlt (RSeq RBol (RClass non_space)) REos)].

(** [find_section(title)] on the current text *)
Definition find_section (text title : str) : Z :=
  search_start (title_pattern title) text.

(** [text.rstrip()] followed by an empty line, the content and a newline *)
Definition append_section (text content : str) : str :=
  str_rstrip text ++ [newline; newline] ++ content ++ [newline].

(** [re.sub] of the section pattern by the content and a newline *)
Definition replace_section (text title content : str) : res str :=
  re_sub (section_pattern title) (content ++ [newline]) text.

(** The [append] branch on a section that exists. *)
Definition extend_section (text title content : str) : str :=
  match re_search (section_pattern title) text with
  | Some m =>
    let existing := str_rstrip (m_text m) ++ [newline] in
    m_before m ++ existing ++ [newline] ++ str_strip content ++ [newline] ++ m_after m
  | None => append_section text content
  end.

(** One turn of the loop over [section_patches]. *)
Definition apply_section_patch (text : str) (p : json) : res str :=
  t ← py_get p (lit "title") JNull;
  title ← py_strip (py_or t (JStr []));
  a ← py_get p (lit "action") JNull;
  action0 ← py_strip (py_or a (JStr (lit "append")));
  let action := str_lower action0 in
  c ← py_get p (lit "content") JNull;
  content ← py_strip (py_or c (JStr []));
  if negb (truthy (JStr title)) || negb (truthy (JStr content)) then Ok text
  else
    let idx := find_section text title in
    if str_eqb action (lit "insert") then
      if idx =? -1 then Ok (append_section text content)
      else replace_section text title content
    else if str_eqb action (lit "replace") then
      if idx =? -1 then Ok (append_section text content)
      else replace_section text title content
    else
      if idx =? -1 then Ok (append_section text content)
      else Ok (extend_section text title content).

Fixpoint apply_section_patches (text : str) (patches : list json) : res str :=
  match patches with
  | [] => Ok text
  | p :: rest => text' ← apply_section_patch text p; apply_section_patches text' rest
  end.

(** [apply_validator_patches(current_text, report)], [report] a [dict].
    The log lines are left out, except that the one before the section
    loop evaluates [len(patches)]. *)
Definition apply_validator_patches (current_text : str) (report : dict) : res str :=
  let text := current_text in
  inline_fixes ← py_get (JObj report) (lit "inline_fixes") (JArr []);
  fixes ← py_iter inline_fixes;
  text ← apply_inline_fixes text fixes;
  patches ← py_get (JObj report) (lit "section_patches") (JArr []);
  if truthy patches then
    _ ← py_len patches;
    ps ← py_iter patches;
    apply_section_patches text ps
  else Ok text.
End PatchEngine.

(** ** [float(s)] for a [str]

    As [PyFloat_FromString] reads it: Unicode decimal digits and whitespace
    are mapped to ASCII (the text is cut at the first other non-ASCII
    character, which then fails the conversion), ASCII whitespace is stripped
    at both ends, single underscores between digits are dropped, and the rest
    has to be a decimal literal, [inf], [infinity] or [nan] with an optional
    sign.  [None] stands for [ValueError]. *)

(** The float nearest to [m * 10 ^ e]. *)
Definition float_of_decimal (m e : Z) : pyfloat :=
  if m =? 0 then Fin 0
  else if 309 <=? e then (if 0 <? m then PInf else NInf)
  else if 0 <=? e then float_of_Q (inject_Z (m * 10 ^ e))
  else float_of_Q (Qmake m (Z.to_pos (10 ^ (- e)))).

Definition is_exp_mark (c : char) : bool := ((c =? 101) || (c =? 69))%N.

(** An exponent part at the head of [s], if it is complete. *)
Definition take_exponent (s : str) : option (Z * str) :=
  match s with
  | c :: s1 =>
    if is_exp_mark c then
      let '(neg, s2) := take_sign s1 in
      let '(ds, s3) := span_digits s2 in
      match ds with
      | [] => None
      | _ => Some (if neg then - digits_to_Z ds else digits_to_Z ds, s3)
      end
    else None
  | [] => None
  end.

(** The longest decimal literal at the head of [s] ([strtod]): its value
    and the text after it. *)
Definition strtod (s : str) : option (pyfloat * str) :=
  let '(neg, s1) := take_sign s in
  let '(ip, s2) := span_digits s1 in
  let '(fp, s3) :=
    match s2 with
    | 46%N :: s2' => span_digits s2'
    | _ => ([], s2)
    end in
  match ip ++ fp with
  | [] => None
  | ds =>
    let '(e, s4) := match take_exponent s3 with
                    | Some (e, s4) => (e, s4)
                    | None => (0, s3)
                    end in
    let m := digits_to_Z ds in
    Some (float_of_decimal (if neg then - m else m) (e - Z.of_nat (length fp)), s4)
  end.

Definition str_ascii_lower (s : str) : str := List.map ascii_lower s.

(** [_Py_parse_inf_or_nan] *)
Definition parse_inf_or_nan (s : str) : option (pyfloat * str) :=
  let '(neg, s1) := take_sign s in
  let l := str_ascii_lower s1 in
  if starts_with (lit "inf") l then
    let rest := drop 3 s1 in
    let rest := if starts_with (lit "inity") (str_ascii_lower rest) then drop 5 rest else rest in
    Some (if neg then NInf else PInf, rest)
  else if starts_with (lit "nan") l then Some (NaN, drop 3 s1)
  else None.

Section FloatOfStr.
Context `{UnicodeDB}.

Definition py_float (s : str) : option pyfloat :=
  let a := strip_by is_c_space (to_ascii_decimal s) in
  a' ← (if bool_decide (95%N ∈ a) then drop_underscores 0%N a else Some a);
  match strtod a' with
  | Some (x, []) => Some x
  | Some (_, _ :: _) => None
  | None =>
    match parse_inf_or_nan a' with
    | Some (x, []) => Some x
    | _ => None
    end
  end.
End FloatOfStr.

(** ** [json.loads]

    The decoder of the standard library in its default, strict
    configuration (as of Python 3.11): [None] stands for any exception it
    raises, [JSONDecodeError] or [RecursionError].  [fuel] bounds the
    number of steps; the decoder is given more than the text can use.
    [depth] is the number of objects and lists that may still be entered:
    the scanner counts each one it enters against the recursion limit. *)

Definition is_json_ws (c : char) : bool :=
  ((c =? 32) || (c =? 9) || (c =? 10) || (c =? 13))%N.

Definition skip_ws (s : str) : str := lstrip_by is_json_ws s.

Definition hex_val (c : char) : option N :=
  if is_digit c then Some (c - 48)%N
  else if ((97 <=? c) && (c <=? 102))%N then Some (c - 87)%N
  else if ((65 <=? c) && (c <=? 70))%N then Some (c - 55)%N
  else None.

Definition hex4 (a b c d : char) : option N :=
  x ← hex_val a; y ← hex_val b; z ← hex_val c; w ← hex_val d;
  Some (x * 4096 + y * 256 + z * 16 + w)%N.

Definition is_high_surrogate (c : N) : bool := ((55296 <=? c) && (c <=? 56319))%N.
Definition is_low_surrogate (c : N) : bool := ((56320 <=? c) && (c <=? 57343))%N.
Definition join_surrogates (hi lo : N) : N :=
  (65536 + ((hi - 55296) * 1024 + (lo - 56320)))%N.

Definition json_escape (c : char) : option char :=
  if ((c =? 34) || (c =? 92) || (c =? 47))%N then Some c
  else if (c =? 98)%N then Some 8%N
  else if (c =? 102)%N then Some 12%N
  else if (c =? 110)%N then Some 10%N
  else if (c =? 114)%N then Some 13%N
  else if (c =? 116)%N then Some 9%N
  else None.

(** The string that starts after an opening quote, and the text after its
    closing quote. *)
Fixpoint scanstring (s : str) : option (str * str) :=
  match s with
  | [] => None
  | c :: r =>
    if (c =? quote)%N then Some ([], r)
    else if (c =? backslash)%N then
      match r with
      | [] => None
      | e :: r1 =>
        if (e =? 117)%N then
          match r1 with
          | h1 :: h2 :: h3 :: h4 :: r2 =>
            u ← hex4 h1 h2 h3 h4;
            match r2 with
            | 92%N :: 117%N :: g1 :: g2 :: g3 :: g4 :: ((_ :: _) as r3) =>
              if is_high_surrogate u then
                u2 ← hex4 g1 g2 g3 g4;
                if is_low_surrogate u2
                then '(t, rest) ← scanstring r3; Some (join_surrogates u u2 :: t, rest)
                else '(t, rest) ← scanstring r2; Some (u :: t, rest)
              else '(t, rest) ← scanstring r2; Some (u :: t, rest)
            | _ => '(t, rest) ← scanstring r2; Some (u :: t, rest)
            end
          | _ => None
          end
        else
          x ← json_escape e;
          '(t, rest) ← scanstring r1; Some (x :: t, rest)
      end
    else if (c <=? 31)%N then None
    else '(t, rest) ← scanstring r; Some (c :: t, rest)
  end.

(** A number at the head of [s]: an [int], or a [float] when it has a
    fraction or an exponent. *)
Definition match_number (s : str) : option (json * str) :=
  let '(neg, s1) := match s with 45%N :: r => (true, r) | _ => (false, s) end in
  ip_rest ← match s1 with
            | c :: r =>
              if ((49 <=? c) && (c <=? 57))%N then Some (span_digits s1)
              else if (c =? 48)%N then Some ([c], r)
              else None
            | [] => None
            end;
  let '(ip, s2) := ip_rest in
  let '(fp, s3) :=
    match s2 with
    | 46%N :: ((d :: _) as r) => if is_digit d then span_digits r else ([], s2)
    | _ => ([], s2)
    end in
  let '(ex, s4) := match take_exponent s3 with
                   | Some (e, s4) => (Some e, s4)
                   | None => (None, s3)
                   end in
  match fp, ex with
  | [], None =>
    if (int_max_str_digits <? length ip)%nat then None
    else Some (JInt (if neg then - digits_to_Z ip else digits_to_Z ip), s4)
  | _, _ =>
    let m := digits_to_Z (ip ++ fp) in
    Some (JFloat (float_of_decimal (if neg then - m else m)
                    (default 0 ex - Z.of_nat (length fp))), s4)
  end.

Fixpoint scan_once (fuel depth : nat) (s : str) : option (json * str) :=
  match fuel with
  | O => None
  | S fuel' =>
    match s with
    | [] => None
    | c :: r =>
      if (c =? quote)%N then '(t, rest) ← scanstring r; Some (JStr t, rest)
      else if (c =? 123)%N then
        match depth with
        | O => None
        | S depth' =>
          match skip_ws r with
          | 125%N :: rest => Some (JObj [], rest)
          | r' => parse_members fuel' depth' [] r'
          end
        end
      else if (c =? 91)%N then
        match depth with
        | O => None
        | S depth' =>
          match skip_ws r with
          | 93%N :: rest => Some (JArr [], rest)
          | r' => parse_elements fuel' depth' [] r'
          end
        end
      else if starts_with (lit "null") s then Some (JNull, drop 4 s)
      else if starts_with (lit "true") s then Some (JBool true, drop 4 s)
      else if starts_with (lit "false") s then Some (JBool false, drop 5 s)
      else if starts_with (lit "NaN") s then Some (JFloat NaN, drop 3 s)
      else if starts_with (lit "Infinity") s then Some (JFloat PInf, drop 8 s)
      else if starts_with (lit "-Infinity") s then Some (JFloat NInf, drop 9 s)
      else match_number s
    end
  end
with parse_members (fuel depth : nat) (acc : dict) (s : str) : option (json * str) :=
  match fuel with
  | O => None
  | S fuel' =>
    match s with
    | 34%N :: r =>
      '(key, r1) ← scanstring r;
      match skip_ws r1 with
      | 58%N :: r2 =>
        '(v, r3) ← scan_once fuel' depth (skip_ws r2);
        let acc' := dict_set key v acc in
        match skip_ws r3 with
        | 125%N :: rest => Some (JObj acc', rest)
        | 44%N :: r4 => parse_members fuel' depth acc' (skip_ws r4)
        | _ => None
        end
      | _ => None
      end
    | _ => None
    end
  end
with parse_elements (fuel depth : nat) (acc : list json) (s : str) : option (json * str) :=
  match fuel with
  | O => None
  | S fuel' =>
    '(v, r1) ← scan_once fuel' depth s;
    match skip_ws r1 with
    | 93%N :: rest => Some (JArr (rev (v :: acc)), rest)
    | 44%N :: r2 => parse_elements fuel' depth (v :: acc) (skip_ws r2)
    | _ => None
    end
  end.

Definition json_loads `{UnicodeDB} (s : str) : option json :=
  match s with
  | 65279%N :: _ => None
  | _ =>
    '(v, rest) ← scan_once (2 * length s + 2) json_nesting (skip_ws s);
    match skip_ws rest with
    | [] => Some v
    | _ :: _ => None
    end
  end.

(** ** [json_parser.py]: the critic-response parser *)

Definition _NUMBER_FIELDS : list str :=
  [lit "score"; lit "structure"; lit "content"; lit "language"; lit "formatting"].

(** The text from the first [{] to the [}] that balances it. *)
Fixpoint balanced_block (depth : Z) (block : str) (s : str) : option str :=
  match s with
  | [] => None
  | c :: s' =>
    if (c =? 123)%N then balanced_block (depth + 1) (c :: block) s'
    else if (c =? 125)%N then
      if depth - 1 =? 0 then Some (rev (c :: block))
      else balanced_block (depth - 1) (c :: block) s'
    else balanced_block depth (c :: block) s'
  end.

(** The text from its first opening brace on, if it has one. *)
Fixpoint from_first_brace (s : str) : option str :=
  match s with
  | [] => None
  | c :: s' => if (c =? 123)%N then Some s else from_first_brace s'
  end.

Definition backticks : str := [96; 96; 96]%N.

(** [^```(json)?|```$] under [re.MULTILINE] *)
Definition fence_pattern : regex :=
  RAlt (RSeqs [RBol; RLit backticks; RAlt (RLit (lit "json")) REmpty])
       (RSeq (RLit backticks) REol).

(** [\{[\s\S]*\}] *)
Definition object_pattern : regex :=
  RSeqs [RChar 123%N; RStar true any_char; RChar 125%N].

(** [_extract_json_block(text)] *)
Definition _extract_json_block (text : str) : str :=
  let text := str_strip text in
  match from_first_brace text ≫= balanced_block 0 [] with
  | Some block => block
  | None =>
    let code := str_strip (re_sub_with fence_pattern (fun _ => []) text) in
    match re_search object_pattern code with
    | Some m => m_text m
    | None => text
    end
  end.

Section ResponseParser.
Context `{UnicodeDB}.

(** [_to_float(val, default)] *)
Definition _to_float (val : json) (dflt : pyfloat) : pyfloat :=
  match val with
  | JBool b => if b then f1 else f0
  | JInt n => default dflt (float_of_int n)
  | JFloat f => f
  | JStr s =>
    let cand := str_strip_chars [apostrophe] (str_strip_chars [quote] (str_strip s)) in
    default dflt (py_float cand)
  | _ => dflt
  end.

(** [k in d] for what [json.loads] may have returned: [TypeError] on an
    object that is no container. *)
Definition py_in (k : str) (d : json) : res bool :=
  match d with
  | JObj fields => Ok (dict_mem k fields)
  | JArr items => Ok (existsb (fun v => match v with JStr s => str_eqb s k | _ => false end) items)
  | JStr s => Ok (str_contains k s)
  | _ => Raise TypeError
  end.

(** One turn of the loop of [_coerce_numbers]: [d[k]] with a [str] key
    is a [TypeError] on a list or a string. *)
Definition coerce_field (d : json) (k : str) : res json :=
  b ← py_in k d;
  if (b : bool) then
    match d with
    | JObj fields => Ok (JObj (dict_set k (JFloat (_to_float (default JNull (dict_get k fields)) f0)) fields))
    | _ => Raise TypeError
    end
  else Ok d.

(** What a turn of that loop does to the items of a [dict]. *)
Definition coerce_in_dict (fields : dict) (k : str) : dict :=
  if dict_mem k fields
  then dict_set k (JFloat (_to_float (default JNull (dict_get k fields)) f0)) fields
  else fields.

(** [_coerce_numbers(d)] *)
Definition _coerce_numbers (d : json) : res json :=
  foldl (fun acc k => d ← acc; coerce_field d k) (Ok d) _NUMBER_FIELDS.

(** [(\d),(\d)] replaced by [\1.\2] *)
Definition decimal_comma_pattern : regex :=
  RSeqs [RClass is_decimal; RChar 44%N; RClass is_decimal].

Definition decimal_comma_repl (m : str) : str :=
  match m with
  | [d1; _; d2] => [d1; 46%N; d2]
  | _ => m
  end.

(** The pattern of the last repair: the key [score] in quotes, a colon
    with optional whitespace around it, and a quoted, non-empty value
    without a quote in it (group 1). *)
Definition score_string_pattern : regex :=
  RSeqs [RLit (quote :: lit "score" ++ [quote]); RStar true is_space; RChar 58%N;
         RStar true is_space; RChar quote;
         RClass (fun c => negb (c =? quote)%N); RStar true (fun c => negb (c =? quote)%N);
         RChar quote].

(** Group 1 of a match of [score_string_pattern]: the text between its
    last two quotes. *)
Definition score_string_group (m : str) : str :=
  rev (take_while (fun c => negb (c =? quote)%N) (tail (rev m))).

(** Its replacement: the key with the value cut at its first comma and
    stripped. *)
Definition score_string_repl (m : str) : str :=
  let first := take_while (fun c => negb (c =? 44)%N) (score_string_group m) in
  quote :: lit "score" ++ [quote] ++ lit ": " ++ [quote] ++ str_strip first ++ [quote].

(** The repairs tried after a failed parse. *)
Definition repair (candidate : str) : str :=
  let repaired := str_replace [newline] [32%N] candidate in
  let repaired := re_sub_with decimal_comma_pattern decimal_comma_repl repaired in
  let repaired := str_replace (lit ",,") (lit ",") repaired in
  re_sub_with score_string_pattern score_string_repl repaired.

Definition parse_failure_issue : str := lit "Ошибка парсинга ответа валидатора".
Definition parse_failure_suggestion : str := lit "Проверьте корректность промпта".

(** The report returned when both parses fail. *)
Definition default_data : json :=
  JObj [(lit "score", JFloat f5); (lit "structure", JFloat f5);
        (lit "content", JFloat f5); (lit "language", JFloat f5);
        (lit "issues", JArr [JStr parse_failure_issue]);
        (lit "suggestions", JArr [JStr parse_failure_suggestion])].

(** [data.setdefault(k, [])]: only a [dict] has the method. *)
Definition py_setdefault (data : json) (k : str) : res json :=
  match data with
  | JObj fields => Ok (JObj (dict_setdefault k (JArr []) fields))
  | _ => Raise AttributeError
  end.

(** What the two [try] blocks leave in [data]. *)
Definition load_data (content : str) : json :=
  let clean := str_replace [9%N] [32%N] (str_replace [13%N] [32%N] content) in
  let candidate := _extract_json_block clean in
  match json_loads candidate with
  | Some data => data
  | None =>
    match json_loads (repair candidate) with
    | Some data => data
    | None => default_data
    end
  end.

(** [parse_validation_response(content)].  The schema validation only
    logs and is left out. *)
Definition parse_validation_response (content : str) : res json :=
  let data := load_data content in
  data ← _coerce_numbers data;
  data ← py_setdefault data (lit "issues");
  data ← py_setdefault data (lit "suggestions");
  Ok data.
End ResponseParser.

(** More float operations, for the loops. *)

(** [n * f] for an [int] and a finite float, and [n < f].  The product is
    kept exact, with 7/10 for the float 0.7: the loop only asks whether a
    length is below it, and for a text of fewer than [2 ^ 40] characters the
    exact product answers as the rounded one does, which is within [1 / 1000]
    of it and not above it when it is an integer. *)
Definition int_mul_float (n : Z) (f : pyfloat) : pyfloat :=
  match f with
  | Fin q => Fin (Qred (inject_Z n * q))
  | PInf => if 0 <? n then PInf else if n <? 0 then NInf else NaN
  | NInf => if 0 <? n then NInf else if n <? 0 then PInf else NaN
  | NaN => NaN
  end.

Definition int_lt_float (n : Z) (f : pyfloat) : bool := flt (Fin (inject_Z n)) f.

(** [max(a, b)]: the first of the two unless the second is greater. *)
Definition fmax (a b : pyfloat) : pyfloat := if fgt b a then b else a.

Definition py_len_str (s : str) : Z := Z.of_nat (length s).

(** ** [claude_validator.py]: the critic, the fixer and the refinement loop *)

(** What a scoring call returns. *)
Record validation_result := {
  score : pyfloat;
  is_valid : bool;
  issues : list str;
  suggestions : list str;
  confidence : option pyfloat;
  fixed_text : option str
}.

(** The two prompts are fixed texts around the values they interpolate. *)
Inductive prompt :=
| ValidationPrompt (original_prompt text : str)
| FixPrompt (text : str) (target_score : pyfloat).

Record payload := {
  model : str;
  max_tokens : Z;
  message : prompt
}.

(** What one request to the service comes to: a response with its status
    and, when the body has it as a string, the text of its first content
    block; or an exception of the transport. *)
Inductive http_outcome :=
| Response (status : Z) (text : option str)
| TransportFailure.

(** A run of the loop: what it returns, the scoring passes it made (the
    text scored and its score, in order) and the state of the outside world
    after it. *)
Record refinement_run {World : Type} := {
  run_result : str * pyfloat;
  run_scored : list (str * pyfloat);
  run_world : World
}.
Arguments refinement_run : clear implicits.

(** How one turn of the loop ends. *)
Inductive turn_end :=
| Converged (current_score : pyfloat)  (** [return current_text, current_score] *)
| NextTurn (current_text : str)        (** the end of the loop body *)
| Break.                               (** [break] *)

Section Claude.
Context `{UnicodeDB} {World : Type}.
(** [self.api_key], read from the environment *)
Variable api_key : option str.
(** [session.post(...)] and the reading of its response *)
Variable session_post : payload -> World -> http_outcome * World.

Definition claude_model : str := lit "claude-3-5-sonnet-20241022".
Definition claude_max_tokens : Z := 2000.

Definition has_api_key : bool :=
  match api_key with
  | Some (_ :: _) => true
  | _ => false
  end.

Definition no_key_result (text : str) : validation_result :=
  {| score := f5; is_valid := false;
     issues := [lit "API ключ не настроен"]; suggestions := [];
     confidence := None; fixed_text := Some text |}.

Definition api_error_result : validation_result :=
  {| score := f5; is_valid := false;
     issues := [lit "Ошибка API валидации"]; suggestions := [];
     confidence := Some f0; fixed_text := None |}.

(** [validate_and_score(text, original_prompt, analysis_type)] *)
Definition validate_and_score (text original_prompt analysis_type : str) (w : World)
    : validation_result * World :=
  if negb has_api_key then (no_key_result text, w)
  else
    let '(outcome, w') :=
      session_post {| model := claude_model; max_tokens := 100;
                      message := ValidationPrompt original_prompt text |} w in
    match outcome with
    | Response 200 (Some body) =>
      let content := str_strip body in
      let score_text := str_strip (str_replace [44%N] [46%N] content) in
      match py_float score_text with
      | Some s =>
        ({| score := s; is_valid := fge s f7; issues := []; suggestions := [];
            confidence := Some (Fin (9 # 10)); fixed_text := None |}, w')
      | None => (api_error_result, w')
      end
    | _ => (api_error_result, w')
    end.

(** [fix_text_with_claude(text, target_score)] *)
Definition fix_text_with_claude (text : str) (target_score : pyfloat) (w : World)
    : str * World :=
  if negb has_api_key then (text, w)
  else
    let '(outcome, w') :=
      session_post {| model := claude_model; max_tokens := claude_max_tokens;
                      message := FixPrompt text target_score |} w in
    match outcome with
    | Response 200 (Some body) => (str_strip body, w')
    | _ => (text, w')
    end.

Section Refinement.
Variables (original_prompt analysis_type : str) (target_score : pyfloat).

(** The body of the [while] loop: the scoring pass it makes and how it
    ends. *)
Definition refinement_turn (current_text : str) (w : World)
    : turn_end * (str * pyfloat) * World :=
  let '(validation_result, w1) :=
    validate_and_score current_text original_prompt analysis_type w in
  let current_score := score validation_result in
  if fge current_score target_score
  then (Converged current_score, (current_text, current_score), w1)
  else
    let '(improved_text, w2) := fix_text_with_claude current_text target_score w1 in
    if truthy (JStr improved_text) && (100 <? py_len_str (str_strip improved_text)) then
      if int_lt_float (py_len_str improved_text)
           (int_mul_float (py_len_str current_text) f0_7)
      then (Break, (current_text, current_score), w2)
      else (NextTurn improved_text, (current_text, current_score), w2)
    else (Break, (current_text, current_score), w2).

(** The code after the loop: the final scoring pass. *)
Definition final_check (current_text : str) (scored : list (str * pyfloat)) (w : World)
    : refinement_run World :=
  let '(final_result, w') :=
    validate_and_score current_text original_prompt analysis_type w in
  let final_score := score final_result in
  {| run_result := (current_text, final_score);
     run_scored := scored ++ [(current_text, final_score)];
     run_world := w' |}.

(** The [while iteration < max_iterations] loop with [remaining] turns
    to go, followed by the final check. *)
Fixpoint refinement_loop (remaining : nat) (current_text : str)
    (scored : list (str * pyfloat)) (w : World) : refinement_run World :=
  match remaining with
  | O => final_check current_text scored w
  | S remaining' =>
    let '(turn, pass, w') := refinement_turn current_text w in
    match turn with
    | Converged current_score =>
      {| run_result := (current_text, current_score);
         run_scored := scored ++ [pass];
         run_world := w' |}
    | NextTurn improved_text =>
      refinement_loop remaining' improved_text (scored ++ [pass]) w'
    | Break => final_check current_text (scored ++ [pass]) w'
    end
  end.

(** [iterative_refinement(text, original_prompt, analysis_type,
    target_score, max_iterations)].  The optional progress callback only
    notifies, and its failures are ignored. *)
Definition iterative_refinement (text : str) (max_iterations : Z) (w : World)
    : refinement_run World :=
  refinement_loop (Z.to_nat max_iterations) text [] w.
End Refinement.
End Claude.

(** ** [rlhf_system.py]: the loop with regeneration *)

(** One entry of [iteration_history]. *)
Record iteration_data := {
  it_iteration : Z;
  it_score : pyfloat;
  it_issues : list str;
  it_suggestions : list str;
  it_text_length : Z
}.

(** The instruction appended to the feedback prompt. *)
Inductive motivation := VeryLow | Low | AlmostDone.

(** What [_create_feedback_prompt] and [_regenerate_with_feedback]
    interpolate into the prompt they build. *)
Record feedback_prompt := {
  fp_original_prompt : str;
  fp_iteration : Z;
  fp_issues : list str;
  fp_suggestions : list str;
  fp_target_score : pyfloat;
  fp_previous_text : str;
  fp_motivation : motivation
}.

(** A run of [iterative_improvement]. *)
Record improvement_run {World : Type} := {
  imp_result : res (str * pyfloat * list iteration_data);
  imp_scored : list (str * pyfloat);
  imp_world : World
}.
Arguments improvement_run : clear implicits.

(** [s.replace(old, new, 1)] *)
Fixpoint replace_first (old new s : str) : str :=
  if starts_with old s then new ++ drop (length old) s
  else match s with
       | [] => []
       | c :: s' => c :: replace_first old new s'
       end.

(** [needle in str(issues)] for a needle without a character that [repr]
    escapes: it occurs in the printed list exactly when it occurs in an
    item. *)
Definition issues_mention (needle : str) (issues : list str) : bool :=
  existsb (str_contains needle) issues.

Definition glowing_star : char := 127775%N.
Definition gem_stone : char := 128142%N.

(** [_fallback_scoring(text, analysis_type)] *)
Definition _fallback_scoring (text : str) : validation_result :=
  let short := py_len_str text <? 500 in
  let emoji_count := length (filter (fun c => (127 < c)%N) text) in
  let few := (emoji_count <? 10)%nat in
  let bare := negb (str_contains [glowing_star] text) in
  let s := f5 in
  let s := if short then fsub s (Fin 2) else s in
  let s := if few then fsub s (Fin 1) else s in
  let s := if bare then fsub s (Fin (3 # 2)) else s in
  {| score := fmax f1 s;
     is_valid := fge s f7;
     issues := (if short then [lit "Текст слишком короткий"] else [])
               ++ (if few then [lit "Недостаточно эмодзи"] else [])
               ++ (if bare then [lit "Отсутствуют заголовки"] else []);
     suggestions := (if short then [lit "Увеличь объем текста до минимум 1000 слов"] else [])
               ++ (if few then [lit "Добавь больше эмодзи для структурирования"] else [])
               ++ (if bare then [lit "Добавь заголовки с эмодзи 🌟"] else []);
     confidence := Some (Fin (7 # 10));
     fixed_text := None |}.

Definition extra_analysis : str :=
  [newline; newline] ++ lit "🌟 Дополнительный анализ" ++ [newline; newline] ++
  lit "Данная компания обладает уникальными астрологическими характеристиками, которые определяют её потенциал и возможности развития.".

(** [_fallback_fix(text, issues)] *)
Definition _fallback_fix (text : str) (issues : list str) : str :=
  let improved_text := text in
  let improved_text :=
    if issues_mention (lit "короткий") issues then improved_text ++ extra_analysis
    else improved_text in
  if issues_mention (lit "эмодзи") issues
  then lit "🌟 " ++ replace_first [newline] (newline :: lit "💎 ") improved_text
  else improved_text.

Section RLHF.
Context `{UnicodeDB} {World : Type}.
(** the Claude agent of the validator *)
Variable api_key : option str.
Variable session_post : payload -> World -> http_outcome * World.
(** [hasattr(self.validator, 'claude_agent') and self.validator.use_claude] *)
Variable use_claude : bool.
(** [self.max_iterations], 5 as constructed *)
Variable max_iterations : Z.
(** [generation_params], whether it has the key [prompt], and
    [generation_function] called on the parameters with the prompt
    replaced when there is one; [None] is an exception. *)
Context {Params : Type}.
Variable has_prompt : Params -> bool.
Variable generation_function :
  Params -> option feedback_prompt -> World -> option str * World.

(** [self.target_scores.get(analysis_type, 8.5)] *)
Definition target_for (analysis_type : str) : pyfloat :=
  if str_eqb analysis_type (lit "zodiac") then Fin (17 # 2)
  else if str_eqb analysis_type (lit "forecast") then Fin 9
  else if str_eqb analysis_type (lit "compatibility") then Fin 8
  else Fin (17 # 2).

Definition motivation_for (current_score : pyfloat) : motivation :=
  if flt current_score (Fin 3) then VeryLow
  else if flt current_score (Fin 6) then Low
  else AlmostDone.

(** [_regenerate_with_feedback] on the prompt of
    [_create_feedback_prompt] *)
Definition _regenerate_with_feedback (generation_params : Params)
    (enhanced_prompt : feedback_prompt) (w : World) : option str * World :=
  generation_function generation_params
    (if has_prompt generation_params then Some enhanced_prompt else None) w.

Section Improvement.
Variables (analysis_type original_prompt : str) (generation_params : Params).

(** The scoring step of a turn. *)
Definition rlhf_score (current_text : str) (w : World) : validation_result * World :=
  if use_claude
  then validate_and_score api_key session_post current_text original_prompt analysis_type w
  else (_fallback_scoring current_text, w).

(** The improvement step of a turn, which is not the last one.  When
    the regeneration raises and the Claude agent is in use, the call
    [fix_text_with_claude(current_text, issues, target_score)] passes one
    positional argument more than the method takes. *)
Definition rlhf_improve (iteration : Z) (current_text : str)
    (v : validation_result) (w : World) : res str * World :=
  let enhanced_prompt :=
    {| fp_original_prompt := original_prompt; fp_iteration := iteration;
       fp_issues := issues v; fp_suggestions := suggestions v;
       fp_target_score := target_for analysis_type;
       fp_previous_text := take 500 current_text;
       fp_motivation := motivation_for (score v) |} in
  match _regenerate_with_feedback generation_params enhanced_prompt w with
  | (Some improved_text, w') => (Ok improved_text, w')
  | (None, w') =>
    if use_claude then (Raise TypeError, w')
    else (Ok (_fallback_fix current_text (issues v)), w')
  end.

(** The [for iteration in range(1, self.max_iterations + 1)] loop with
    [remaining] turns to go, and the code after it. *)
Fixpoint improvement_loop (remaining : nat) (iteration : Z)
    (current_text best_text : str) (best_score : pyfloat)
    (iteration_history : list iteration_data) (scored : list (str * pyfloat))
    (w : World) : improvement_run World :=
  match remaining with
  | O =>
    {| imp_result := Ok (best_text, best_score, iteration_history);
       imp_scored := scored; imp_world := w |}
  | S remaining' =>
    let '(v, w1) := rlhf_score current_text w in
    let current_score := score v in
    let iteration_history :=
      iteration_history ++
      [{| it_iteration := iteration; it_score := current_score;
          it_issues := issues v; it_suggestions := suggestions v;
          it_text_length := py_len_str current_text |}] in
    let scored := scored ++ [(current_text, current_score)] in
    let '(best_text, best_score) :=
      if fgt current_score best_score then (current_text, current_score)
      else (best_text, best_score) in
    if fge current_score (target_for analysis_type) then
      {| imp_result := Ok (current_text, current_score, iteration_history);
         imp_scored := scored; imp_world := w1 |}
    else if iteration <? max_iterations then
      match rlhf_improve iteration current_text v w1 with
      | (Ok improved_text, w2) =>
        improvement_loop remaining' (iteration + 1) improved_text best_text best_score
          iteration_history scored w2
      | (Raise e, w2) =>
        {| imp_result := Raise e; imp_scored := scored; imp_world := w2 |}
      end
    else
      improvement_loop remaining' (iteration + 1) current_text best_text best_score
        iteration_history scored w1
  end.

(** [iterative_improvement(initial_text, analysis_type, original_prompt,
    generation_function, generation_params)] *)
Definition iterative_improvement (initial_text : str) (w : World)
    : improvement_run World :=
  improvement_loop (Z.to_nat max_iterations) 1 initial_text initial_text f0 [] [] w.
End Improvement.
End RLHF.

(** ** Reports, for stating properties of the patch engine *)

(** An inline fix and a section patch with string fields, and the report
    made of some of each. *)
Definition inline_fix (find replace : str) : json :=
  JObj [(lit "find", JStr find); (lit "replace", JStr replace)].

Definition section_patch (title action content : str) : json :=
  JObj [(lit "title", JStr title); (lit "action", JStr action);
        (lit "content", JStr content)].

Definition report_with (inline_fixes section_patches : list json) : dict :=
  [(lit "inline_fixes", JArr inline_fixes); (lit "section_patches", JArr section_patches)].

(** A Python string is empty or not. *)
Definition nonempty (s : str) : bool := truthy (JStr s).

(** A text given by its lines, each ended by a newline. *)
Definition lines (ls : list string) : str :=
  flat_map (fun l => lit l ++ [newline]) ls.

(** A text between double quotes. *)
Definition quoted (s : string) : str := quote :: lit s ++ [quote].

(** ** Scripted services, for running the loops on given replies

    The replies are drawn from a list in order; once it is used up the
    service fails. *)

Definition scripted_post (_ : payload) (w : list http_outcome)
    : http_outcome * list http_outcome :=
  match w with
  | [] => (TransportFailure, [])
  | o :: w' => (o, w')
  end.

Definition scripted_generation (_ : unit) (_ : option feedback_prompt)
    (w : list (option str)) : option str * list (option str) :=
  match w with
  | [] => (None, [])
  | o :: w' => (o, w')
  end.

(** A service that is never reached. *)
Definition no_post {World : Type} (_ : payload) (w : World) : http_outcome * World :=
  (TransportFailure, w).

(** A reply with status 200 and the given text. *)
Definition reply (text : str) : http_outcome := Response 200 (Some text).

(** A text of [n] times the same character. *)
Definition filled (c : ascii) (n : nat) : str := repeat (ch c) n.

(** ** The invariant of the best-so-far pair

    What [best_text] and [best_score] are to the scoring passes made so far,
    while the loop of [iterative_improvement] runs: no pass has a score above
    [best_score], none has reached the target, and the pair is one of the
    passes or still the initial one. *)
Definition best_so_far (target : pyfloat) (initial_text best_text : str)
    (best_score : pyfloat) (scored : list (str * pyfloat)) : Prop :=
  best_score <> NaN
  /\ (forall t s, In (t, s) scored -> fgt s best_score = false /\ fge s target = false)
  /\ (In (best_text, best_score) scored \/ (best_text = initial_text /\ best_score = f0)).

(** ** [patch_applier.py]: the requirements check

    [check_score_requirements] converts with [float(...)], which raises
    [ValueError] on a string that is no number and [OverflowError] on an
    [int] beyond the range of floats, besides the exceptions of [exn]; none
    of them is caught there. *)

Inductive failure :=
| Builtin (e : exn)
| ValueError
| OverflowError.

Inductive outcome (A : Type) :=
| Return (a : A)
| Throw (e : failure).
Arguments Return {A} a.
Arguments Throw {A} e.

#[global] Instance outcome_bind : MBind outcome := fun A B f r =>
  match r with
  | Return a => f a
  | Throw e => Throw e
  end.

Definition of_res {A} (r : res A) : outcome A :=
  match r with
  | Ok a => Return a
  | Raise e => Throw (Builtin e)
  end.

(** The requirements used when none are given. *)
Definition default_requirements : dict :=
  [(lit "score", JFloat f7); (lit "structure", JFloat (Fin (15 # 2)));
   (lit "formatting", JFloat (Fin 8)); (lit "content", JFloat f7);
   (lit "language", JFloat f7)].

(** [a >= b] for a float [a] and any object [b]: an [int] is compared by
    its exact value, a [bool] is an [int], and no other object is ordered
    with a float. *)
Definition float_ge (a : pyfloat) (b : json) : outcome bool :=
  match b with
  | JFloat f => Return (fge a f)
  | JInt n => Return (fge a (Fin (inject_Z n)))
  | JBool t => Return (fge a (if t then f1 else f0))
  | _ => Throw (Builtin TypeError)
  end.

(** The test of an issue: its severity, if it has one, against the
    string [CRITICAL]. *)
Definition is_critical (issue : json) : res bool :=
  severity ← py_get issue (lit "severity") JNull;
  Ok (match severity with
      | JStr s => str_eqb s (lit "CRITICAL")
      | _ => false
      end).

(** [[issue for issue in blocking_issues if ...]] *)
Fixpoint critical_issues (blocking_issues : list json) : res (list json) :=
  match blocking_issues with
  | [] => Ok []
  | issue :: rest =>
    critical ← is_critical issue;
    others ← critical_issues rest;
    Ok (if (critical : bool) then issue :: others else others)
  end.

Section Requirements.
Context `{UnicodeDB}.

(** [float(x)] *)
Definition float_of (x : json) : outcome pyfloat :=
  match x with
  | JBool b => Return (if b then f1 else f0)
  | JInt n =>
    match float_of_int n with
    | Some f => Return f
    | None => Throw OverflowError
    end
  | JFloat f => Return f
  | JStr s =>
    match py_float s with
    | Some f => Return f
    | None => Throw ValueError
    end
  | _ => Throw (Builtin TypeError)
  end.

(** One turn of the loop over the requirements: the metric goes to the
    passed or to the failed ones.  The two lists hold the metrics; the
    source keeps a line of text for each, for the log. *)
Definition check_metric (report : dict) (lists : list str * list str)
    (item : str * json) : outcome (list str * list str) :=
  let '(passed_metrics, failed_metrics) := lists in
  let '(metric, required_score) := item in
  current_score ← float_of (default (JFloat f0) (dict_get metric report));
  reached ← float_ge current_score required_score;
  if (reached : bool)
  then Return (passed_metrics ++ [metric], failed_metrics)
  else Return (passed_metrics, failed_metrics ++ [metric]).

Fixpoint check_metrics (report : dict) (lists : list str * list str)
    (requirements : dict) : outcome (list str * list str) :=
  match requirements with
  | [] => Return lists
  | item :: rest =>
    lists' ← check_metric report lists item;
    check_metrics report lists' rest
  end.

(** [check_score_requirements(report, requirements)], both [dict]s,
    [requirements] possibly [None]. *)
Definition check_score_requirements (report : dict) (requirements : option dict)
    : outcome bool :=
  let requirements :=
    match requirements with
    | Some ((_ :: _) as given) => given
    | _ => default_requirements
    end in
  '(passed_metrics, failed_metrics) ← check_metrics report ([], []) requirements;
  blocking_issues ← of_res (py_get (JObj report) (lit "blocking_issues") (JArr []));
  blocking_issues ← of_res (py_iter blocking_issues);
  critical_issues ← of_res (critical_issues blocking_issues);
  Return ((length failed_metrics =? 0)%nat && (length critical_issues =? 0)%nat).
End Requirements.

(** ** [claude_validator.py]: the agent around the refinement loop *)

Section Agent.
Context `{UnicodeDB} {World : Type}.
Variable api_key : option str.
Variable session_post : payload -> World -> http_outcome * World.

(** [AnthropicValidationAgent.validate_and_fix(text, analysis_type,
    original_prompt)]: the loop with the target 10.0 and 7 iterations; the
    final score is only logged.  The loop raises nothing, so the [except]
    branch is not reached. *)
Definition validate_and_fix (text analysis_type original_prompt : str) (w : World)
    : str * World :=
  let target_score := Fin 10 in
  let run := iterative_refinement api_key session_post original_prompt analysis_type
               target_score text 7 w in
  (fst (run_result run), run_world run).
End Agent.

(** ** [rlhf_system.py]: the agent around the loop with regeneration *)

Inductive rlhf_method := RLHF_full | validation_only | fallback.

(** The metrics returned beside the text.  The fallback metrics have no
    [iterations_used] and no [improvement_history]; their [error] is the
    exception caught, of which the source keeps the message. *)
Record quality_metrics := {
  final_score : pyfloat;
  iterations_used : option Z;
  improvement_history : option (list iteration_data);
  method : rlhf_method;
  error : option exn
}.

Section Enhanced.
Context `{UnicodeDB} {World Params : Type}.
Variable api_key : option str.
Variable session_post : payload -> World -> http_outcome * World.
(** [hasattr(self.base_validator, 'claude_agent') and
    self.base_validator.use_claude] *)
Variable use_claude : bool.
(** the base validator's [validate_and_fix(text, analysis_type,
    original_prompt)], which may raise, and its [_basic_cleanup] if it has
    one *)
Variable base_validate_and_fix : str -> str -> str -> World -> res str * World.
Variable _basic_cleanup : option (str -> str).
(** [generation_params]: whether it has the key [prompt], and whether it is
    an empty [dict] *)
Variable has_prompt : Params -> bool.
Variable is_empty : Params -> bool.

(** [self.max_iterations] of the [RLHFFeedbackSystem] that the agent
    builds *)
Definition rlhf_max_iterations : Z := 5.

(** The [except] branch. *)
Definition fallback_result (text : str) (e : exn) : str * quality_metrics :=
  (match _basic_cleanup with
   | Some cleanup => cleanup text
   | None => text
   end,
   {| final_score := f5; iterations_used := None; improvement_history := None;
      method := fallback; error := Some e |}).

(** [validate_and_improve_with_rlhf(text, analysis_type, original_prompt,
    generation_function, generation_params)] *)
Definition validate_and_improve_with_rlhf (text analysis_type original_prompt : str)
    (generation_function :
       option (Params -> option feedback_prompt -> World -> option str * World))
    (generation_params : option Params) (w : World)
    : (str * quality_metrics) * World :=
  let regeneration :=
    match generation_function, generation_params with
    | Some f, Some p => if is_empty p then None else Some (f, p)
    | _, _ => None
    end in
  match regeneration with
  | Some (generation_function, generation_params) =>
    let run := iterative_improvement api_key session_post use_claude rlhf_max_iterations
                 has_prompt generation_function analysis_type original_prompt
                 generation_params text w in
    match imp_result run with
    | Ok (improved_text, final_score, history) =>
      ((improved_text,
        {| final_score := final_score;
           iterations_used := Some (Z.of_nat (length history));
           improvement_history := Some history;
           method := RLHF_full; error := None |}), imp_world run)
    | Raise e => (fallback_result text e, imp_world run)
    end
  | None =>
    match base_validate_and_fix text analysis_type original_prompt w with
    | (Ok improved_text, w1) =>
      let '(final_score, w2) :=
        if use_claude then
          let '(final_validation, w2) :=
            validate_and_score api_key session_post improved_text original_prompt
              analysis_type w1 in
          (score final_validation, w2)
        else (Fin 6, w1) in
      ((improved_text,
        {| final_score := final_score; iterations_used := Some 1;
           improvement_history := Some []; method := validation_only;
           error := None |}), w2)
    | (Raise e, w1) => (fallback_result text e, w1)
    end
  end.
End Enhanced.

(** ** Notions for stating properties of the check, of the extraction and
    of the loop *)

(** A requirement that the report meets: the metric converts to a float
    that reaches the required score. *)
Definition meets `{UnicodeDB} (report : dict) (item : str * json) : Prop :=
  exists current_score,
    float_of (default (JFloat f0) (dict_get (fst item) report)) = Return current_score
    /\ float_ge current_score (snd item) = Return true.

(** The nesting of braces that a text opens: [+1] for an opening brace,
    [-1] for a closing one. *)
Definition brace_delta (c : char) : Z :=
  if (c =? 123)%N then 1 else if (c =? 125)%N then -1 else 0.

Definition brace_depth (s : str) : Z :=
  fold_right (fun c depth => brace_delta c + depth) 0 s.

(** A text that starts with an opening brace and ends with the closing
    brace that balances it: the nesting is positive after every proper
    prefix and zero at the end. *)
Definition balanced (block : str) : Prop :=
  (exists rest, block = 123%N :: rest)
  /\ brace_depth block = 0
  /\ forall before after,
       block = before ++ after -> before <> [] -> after <> [] -> 0 < brace_depth before.

(** What the refinement loop lets follow a text it has scored: the same
    text, or a candidate with more than 100 characters besides surrounding
    whitespace that is not shorter than 70% of it. *)
Definition follows (previous next : str) : Prop :=
  next = previous
  \/ (100 < py_len_str (str_strip next)
      /\ int_lt_float (py_len_str next) (int_mul_float (py_len_str previous) f0_7) = false).

Fixpoint each_follows (previous : str) (passes : list (str * pyfloat)) : Prop :=
  match passes with
  | [] => True
  | (text, _) :: rest => follows previous text /\ each_follows text rest
  end.

(** ** The candidates that the refinement loop adopts *)

Section Adoption.
Context `{UnicodeDB} {World : Type}.
Variable api_key : option str.
Variable session_post : payload -> World -> http_outcome * World.
Variables (original_prompt analysis_type : str) (target_score : pyfloat).

(** A candidate that the loop accepts for a text: it is not empty, has
    more than 100 characters besides surrounding whitespace and is not
    shorter than 70% of the text. *)
Definition acceptable (current_text candidate : str) : Prop :=
  candidate <> []
  /\ 100 < py_len_str (str_strip candidate)
  /\ int_lt_float (py_len_str candidate) (int_mul_float (py_len_str current_text) f0_7)
     = false.

(** A turn that adopts a candidate: the text scores below the target, and
    what the fixer returns for it is acceptable and becomes the current
    text. *)
Definition adopts (current_text : str) (w : World) (candidate : str) (w' : World)
    : Prop :=
  exists v w1,
    validate_and_score api_key session_post current_text original_prompt analysis_type w
    = (v, w1)
    /\ fge (score v) target_score = false
    /\ fix_text_with_claude api_key session_post current_text target_score w1
       = (candidate, w')
    /\ acceptable current_text candidate.

(** [n] such turns in a row lead from a text to the last candidate
    adopted. *)
Inductive adopted (text : str) (w : World) : nat -> str -> World -> Prop :=
| adopted_none : adopted text w 0 text w
| adopted_next (n : nat) (candidate : str) (w1 : World) (current_text : str)
    (w2 : World) :
    adopts text w candidate w1 ->
    adopted candidate w1 n current_text w2 ->
    adopted text w (S n) current_text w2.
End Adoption.

(** ** Lines that hold a title *)

(** The title stands on a line of its own in a text: at the start of the
    text or after a newline come whitespace, the title and whitespace again,
    up to the end of the text or a newline.  The whitespace may hold
    newlines, that is, empty lines before and after the line of the title. *)
Definition title_line (text title : str) : Prop :=
  exists before indent trailing after,
    text = before ++ indent ++ title ++ trailing ++ after
    /\ (before = [] \/ last before = Some newline)
    /\ forallb is_space indent = true
    /\ forallb is_space trailing = true
    /\ (after = [] \/ head after = Some newline).

(** The character before a position: the last one of the text consumed
    on the way to it, or the character that was before that text. *)
Definition prev_after (prev : option char) (consumed : str) : option char :=
  from_option Some prev (last consumed).

(** * Properties *)

(** ** Comparison of floats *)

Lemma Qlt_bool_iff (x y : Q) : Qlt_bool x y = true <-> (x < y)%Q.
Proof.
  unfold Qlt_bool. rewrite negb_true_iff. split.
  - intros Hle. apply Qnot_le_lt. intros Hyx.
    apply Qle_bool_iff in Hyx. congruence.
  - intros Hlt. destruct (Qle_bool y x) eqn:E; [|reflexivity].
    apply Qle_bool_iff in E. exfalso. eapply Qlt_not_le; eauto.
Qed.

Lemma Zpos_of_nat (u : nat) : (0 < u)%nat -> Z.pos (Pos.of_nat u) = Z.of_nat u.
Proof.
  lia.
Qed.

Lemma Qred_pos_frac_le_1 (i u : nat) :
  (0 < u)%nat -> (i <= u)%nat ->
  (0 <= Qred (Z.of_nat i # Pos.of_nat u))%Q /\ (Qred (Z.of_nat i # Pos.of_nat u) <= 1)%Q.
Proof.
  intros Hu Hi. rewrite Qred_correct. unfold Qle. cbn [Qnum Qden].
  rewrite (Zpos_of_nat u Hu). lia.
Qed.

Lemma Qred_same (n : nat) : (0 < n)%nat -> Qred (Z.of_nat n # Pos.of_nat n) = 1%Q.
Proof.
  intros Hn. change 1%Q with (Qred 1). apply Qred_complete.
  unfold Qeq. cbn [Qnum Qden]. rewrite (Zpos_of_nat n Hn). lia.
Qed.

(** ** The mode selector *)

(** C7, as the claim states it, has the score improvement be the plain
    difference of the two scores.  With no previous score (zero), a current
    score of 8 and dissimilar texts at iteration 2, none of the three
    conditions holds, and the selector still answers [hard]. *)
Lemma determine_editing_mode_without_previous_score :
  determine_editing_mode 2 (Fin 8) f0 (Fin (1 # 2)) = hard
  /\ ~ ((2 <= 2 /\ flt (fsub (Fin 8) f0) f0_5 = true)
        \/ fgt (Fin (1 # 2)) f0_95 = true
        \/ (3 <= 2 /\ flt (Fin 8) f7 = true)).
Proof.
  split; [reflexivity|].
  intros [[_ Hd]|[Hs|[Hi _]]].
  - vm_compute in Hd. discriminate.
  - vm_compute in Hs. discriminate.
  - lia.
Qed.

(** The score improvement is a difference of floats and rounded as such:
    8.2 less 7.7 is below 0.5, and 0.6 less 0.1 is not. *)
Example score_improvement_is_rounded :
  determine_editing_mode 2 (float_of_Q (41 # 5)) (float_of_Q (77 # 10)) f0 = hard
  /\ flt (fsub (float_of_Q (41 # 5)) (float_of_Q (77 # 10))) f0_5 = true
  /\ determine_editing_mode 2 (float_of_Q (3 # 5)) (float_of_Q (1 # 10)) f0 = soft
  /\ fsub (float_of_Q (3 # 5)) (float_of_Q (1 # 10)) = f0_5.
Proof. repeat split; vm_compute; reflexivity. Qed.

(** C7 (amended): [determine_editing_mode] answers [hard] exactly when
    the iteration is at least 2 and the score improvement is below 0.5, or
    the similarity exceeds 0.95, or the iteration is at least 3 and the
    current score is below 7.0, and [soft] otherwise.  The score improvement
    is the difference of the two scores, rounded as a difference of floats
    is, when the previous score is positive, and 0.0 when it is not: without
    a positive previous score, an iteration of 2 or more is enough for
    [hard].  A similarity of 0.97 at iteration 2 gives [hard]. *)
Theorem determine_editing_mode_hard_iff
    (iteration : Z) (current_score prev_score similarity : pyfloat) :
  let score_improvement :=
    if fgt prev_score f0 then fsub current_score prev_score else f0 in
  (determine_editing_mode iteration current_score prev_score similarity = hard <->
     (2 <= iteration /\ flt score_improvement f0_5 = true)
     \/ fgt similarity f0_95 = true
     \/ (3 <= iteration /\ flt current_score f7 = true))
  /\ (determine_editing_mode iteration current_score prev_score similarity = soft <->
      determine_editing_mode iteration current_score prev_score similarity <> hard)
  /\ (2 <= iteration -> fgt prev_score f0 = false ->
      determine_editing_mode iteration current_score prev_score similarity = hard)
  /\ determine_editing_mode 2 current_score prev_score (Fin (97 # 100)) = hard.
Proof.
  cbv zeta. unfold determine_editing_mode, score_delta.
  split; [|split; [|split]].
  - destruct (Z.leb_spec 2 iteration) as [H2|H2];
      destruct (flt (if fgt prev_score f0 then fsub current_score prev_score else f0)
                  f0_5) eqn:Ed;
      destruct (fgt similarity f0_95) eqn:Es;
      destruct (Z.leb_spec 3 iteration) as [H3|H3];
      destruct (flt current_score f7) eqn:Ec; simpl;
      (split;
       [ intros Hmode; try discriminate Hmode; auto 6
       | intros [[? ?]|[?|[? ?]]]; try discriminate; try lia; reflexivity ]).
  - destruct (_ && _); [split; [discriminate|congruence]|].
    destruct (fgt _ _); [split; [discriminate|congruence]|].
    destruct (_ && _); [split; [discriminate|congruence]|].
    split; [discriminate|reflexivity].
  - intros H2 ->. change (flt f0 f0_5) with true.
    destruct (Z.leb_spec 2 iteration) as [_|Hlt]; [reflexivity|lia].
  - destruct (flt (if fgt prev_score f0 then fsub current_score prev_score else f0)
                f0_5); reflexivity.
Qed.

(** ** The similarity measure *)

Section SimilarityProperties.
Context `{UnicodeDB}.

Lemma similarity_sym (text1 text2 : str) :
  calculate_text_similarity text1 text2 = calculate_text_similarity text2 text1.
Proof.
  unfold calculate_text_similarity.
  rewrite (andb_comm (bool_decide (word_set text1 = ∅))).
  rewrite (orb_comm (bool_decide (word_set text1 = ∅))).
  assert (word_set text1 ∩ word_set text2 = word_set text2 ∩ word_set text1) as ->
    by apply (comm_L (∩)).
  assert (word_set text1 ∪ word_set text2 = word_set text2 ∪ word_set text1) as ->
    by apply (comm_L (∪)).
  reflexivity.
Qed.

Lemma similarity_range (text1 text2 : str) :
  exists q, calculate_text_similarity text1 text2 = Fin q /\ (0 <= q)%Q /\ (q <= 1)%Q.
Proof.
  unfold calculate_text_similarity.
  destruct (_ && _); [exists 1%Q; repeat split; discriminate|].
  destruct (_ || _); [exists 0%Q; repeat split; discriminate|].
  destruct (Nat.ltb_spec 0 (size (word_set text1 ∪ word_set text2))) as [Hu|Hu];
    [|exists 0%Q; repeat split; discriminate].
  eexists. split; [reflexivity|].
  apply Qred_pos_frac_le_1; [exact Hu|].
  apply subseteq_size.
  etrans; [apply intersection_subseteq_l|apply union_subseteq_l].
Qed.

Lemma similarity_same_words (text1 text2 : str) :
  word_set text1 = word_set text2 -> calculate_text_similarity text1 text2 = f1.
Proof.
  intros Heq. unfold calculate_text_similarity. rewrite Heq.
  destruct (bool_decide (word_set text2 = ∅)) eqn:E; [reflexivity|]. cbn [andb orb].
  apply bool_decide_eq_false in E.
  assert (word_set text2 ∩ word_set text2 = word_set text2) as ->
    by apply (idemp_L (∩)).
  assert (word_set text2 ∪ word_set text2 = word_set text2) as ->
    by apply (idemp_L (∪)).
  assert (0 < size (word_set text2))%nat as Hpos.
  { destruct (size (word_set text2)) eqn:Es; [|lia].
    apply size_empty_inv in Es. exfalso. apply E. by apply leibniz_equiv. }
  destruct (Nat.ltb_spec 0 (size (word_set text2))); [|lia].
  unfold int_truediv, f1. by rewrite Qred_same.
Qed.

(** C10: [calculate_text_similarity] is symmetric, its value is a
    finite number between 0.0 and 1.0, it is 1.0 when both texts have no
    word, 0.0 when exactly one of them has none, and 1.0 whenever the two
    texts have the same set of lower-cased words, identical texts among
    them. *)
Theorem calculate_text_similarity_properties (text1 text2 : str) :
  calculate_text_similarity text1 text2 = calculate_text_similarity text2 text1
  /\ (exists q, calculate_text_similarity text1 text2 = Fin q /\ (0 <= q)%Q /\ (q <= 1)%Q)
  /\ (word_set text1 = ∅ -> word_set text2 = ∅ ->
      calculate_text_similarity text1 text2 = f1)
  /\ ((word_set text1 = ∅ /\ word_set text2 <> ∅)
      \/ (word_set text1 <> ∅ /\ word_set text2 = ∅) ->
      calculate_text_similarity text1 text2 = f0)
  /\ (word_set text1 = word_set text2 -> calculate_text_similarity text1 text2 = f1)
  /\ calculate_text_similarity text1 text1 = f1.
Proof.
  split; [apply similarity_sym|].
  split; [apply similarity_range|].
  split; [|split; [|split]].
  - intros H1 H2. apply similarity_same_words. congruence.
  - unfold calculate_text_similarity.
    intros [[H1 H2]|[H1 H2]].
    + rewrite (bool_decide_eq_true_2 _ H1), (bool_decide_eq_false_2 _ H2). reflexivity.
    + rewrite (bool_decide_eq_false_2 _ H1), (bool_decide_eq_true_2 _ H2). reflexivity.
  - apply similarity_same_words.
  - by apply similarity_same_words.
Qed.
End SimilarityProperties.

Lemma calculate_text_similarity_properties_witness :
  @calculate_text_similarity ascii_db (lit "") (lit "  ") = f1
  /\ @calculate_text_similarity ascii_db (lit "") (lit "a b") = f0
  /\ @calculate_text_similarity ascii_db (lit "Hello world") (lit "WORLD  hello") = f1.
Proof.
  split; [|split].
  - destruct (@calculate_text_similarity_properties ascii_db (lit "") (lit "  "))
      as (_ & _ & Hempty & _).
    apply Hempty; vm_compute; reflexivity.
  - destruct (@calculate_text_similarity_properties ascii_db (lit "") (lit "a b"))
      as (_ & _ & _ & Hone & _).
    apply Hone. left. split; [vm_compute; reflexivity|].
    intros Hempty. apply (f_equal size) in Hempty. vm_compute in Hempty. discriminate.
  - destruct (@calculate_text_similarity_properties ascii_db
                (lit "Hello world") (lit "WORLD  hello"))
      as (_ & _ & _ & _ & Hsame & _).
    apply Hsame. vm_compute. reflexivity.
Defined.

(** ** The patch engine *)

Lemma lstrip_by_split (p : N -> bool) (s : str) :
  exists w, s = w ++ lstrip_by p s /\ forallb p w = true.
Proof.
  induction s as [|c s IH]; [exists []; auto|].
  simpl. destruct (p c) eqn:Ep.
  - destruct IH as [w [Hs Hw]]. exists (c :: w). split.
    + simpl. congruence.
    + simpl. rewrite Ep. exact Hw.
  - exists []. auto.
Qed.

Lemma lstrip_by_head (p : N -> bool) (s : str) :
  match lstrip_by p s with
  | [] => True
  | c :: _ => p c = false
  end.
Proof.
  induction s as [|c s IH]; [exact I|].
  simpl. destruct (p c) eqn:Ep; [exact IH|exact Ep].
Qed.

Lemma rstrip_by_split (p : N -> bool) (s : str) :
  exists w, s = rstrip_by p s ++ w /\ forallb p w = true.
Proof.
  unfold rstrip_by.
  destruct (lstrip_by_split p (rev s)) as [w [Hs Hw]].
  exists (rev w). split.
  - rewrite <- rev_app_distr, <- Hs. symmetry. apply rev_involutive.
  - rewrite forallb_forall in *. intros x Hx. apply Hw. by apply in_rev.
Qed.

(** A stripped string that is not empty has a character that is not
    stripped. *)
Lemma strip_by_nonempty (p : N -> bool) (s : str) :
  strip_by p s <> [] -> exists c, In c (strip_by p s) /\ p c = false.
Proof.
  unfold strip_by, rstrip_by. intros Hne.
  pose proof (lstrip_by_head p (rev (lstrip_by p s))) as Hhead.
  destruct (lstrip_by p (rev (lstrip_by p s))) as [|c r] eqn:E; [done|].
  exists c. split; [|exact Hhead].
  apply in_rev. rewrite rev_involutive. by left.
Qed.

Section PatchProperties.
Context `{UnicodeDB}.

Lemma strip_field (s : str) : py_strip (py_or (JStr s) (JStr [])) = Ok (str_strip s).
Proof. destruct s; reflexivity. Qed.

Lemma report_inline_fixes (fixes patches : list json) :
  py_get (JObj (report_with fixes patches)) (lit "inline_fixes") (JArr []) = Ok (JArr fixes).
Proof. reflexivity. Qed.

Lemma report_section_patches (fixes patches : list json) :
  py_get (JObj (report_with fixes patches)) (lit "section_patches") (JArr [])
  = Ok (JArr patches).
Proof. reflexivity. Qed.

(** What [apply_inline_fix] does on a fix with string fields. *)
Lemma apply_inline_fix_strings (text find replace : str) :
  apply_inline_fix text (inline_fix find replace) =
  Ok (if nonempty (str_strip find) && nonempty (str_strip replace)
         && str_contains (str_strip find) text
      then str_replace (str_strip find) (str_strip replace) text
      else text).
Proof.
  unfold apply_inline_fix, inline_fix.
  change (py_get _ (lit "find") JNull) with (Ok (JStr find)).
  change (py_get _ (lit "replace") JNull) with (Ok (JStr replace)).
  cbn [mbind res_bind]. rewrite !strip_field. cbn [mbind res_bind].
  unfold nonempty. by destruct (_ && _ && _).
Qed.

(** A report with one inline fix and no section patch. *)
Lemma apply_one_inline_fix (text : str) (fx : json) :
  apply_validator_patches text (report_with [fx] []) = apply_inline_fix text fx.
Proof.
  unfold apply_validator_patches.
  rewrite report_inline_fixes, report_section_patches.
  cbn [mbind res_bind py_iter apply_inline_fixes truthy].
  by destruct (apply_inline_fix text fx).
Qed.

(** A report with one section patch and no inline fix. *)
Lemma apply_one_section_patch (text : str) (p : json) :
  apply_validator_patches text (report_with [] [p]) = apply_section_patch text p.
Proof.
  unfold apply_validator_patches.
  rewrite report_inline_fixes, report_section_patches.
  cbn [mbind res_bind py_iter py_len apply_inline_fixes apply_section_patches truthy].
  by destruct (apply_section_patch text p).
Qed.

(** What [apply_section_patch] does on a patch with string fields. *)
Lemma apply_section_patch_strings (text title action content : str) :
  apply_section_patch text (section_patch title action content) =
  let title := str_strip title in
  let action := str_lower (str_strip (if nonempty action then action else lit "append")) in
  let content := str_strip content in
  if negb (nonempty title) || negb (nonempty content) then Ok text
  else if str_eqb action (lit "insert") || str_eqb action (lit "replace") then
    if find_section text title =? -1 then Ok (append_section text content)
    else replace_section text title content
  else
    if find_section text title =? -1 then Ok (append_section text content)
    else Ok (extend_section text title content).
Proof.
  unfold apply_section_patch, section_patch.
  change (py_get _ (lit "title") JNull) with (Ok (JStr title)).
  change (py_get _ (lit "action") JNull) with (Ok (JStr action)).
  change (py_get _ (lit "content") JNull) with (Ok (JStr content)).
  cbn [mbind res_bind]. rewrite !strip_field. cbn [mbind res_bind].
  assert (py_strip (py_or (JStr action) (JStr (lit "append")))
          = Ok (str_strip (if nonempty action then action else lit "append"))) as ->.
  { by destruct action. }
  cbn [mbind res_bind]. cbv zeta. unfold nonempty.
  destruct (_ || _); [reflexivity|].
  destruct (str_eqb _ (lit "insert")); [reflexivity|].
  destruct (str_eqb _ (lit "replace")); reflexivity.
Qed.
End PatchProperties.

(** *** Inline fixes *)

(** The text after one inline fix with string fields. *)
Lemma inline_fixes_fold `{UnicodeDB} (fixes : list (str * str)) (text : str) :
  apply_inline_fixes text (List.map (fun fx => inline_fix (fst fx) (snd fx)) fixes) =
  Ok (foldl (fun text fx =>
               let find := str_strip (fst fx) in
               let repl := str_strip (snd fx) in
               if nonempty find && nonempty repl && str_contains find text
               then str_replace find repl text
               else text) text fixes).
Proof.
  revert text. induction fixes as [|[find replace] fixes IH]; intros text; [reflexivity|].
  cbn [List.map apply_inline_fixes foldl fst snd].
  rewrite apply_inline_fix_strings. cbn [mbind res_bind]. apply IH.
Qed.

(** C9, as the claim states it, has a fix whose [find] occurs in the text
    applied whatever its replacement.  A fix that replaces [foo] by the empty
    string is skipped: the text keeps its [foo], where the literal replacement
    would have removed it. *)
Lemma inline_fix_with_empty_replacement_is_skipped :
  nonempty (lit "foo") = true
  /\ str_contains (lit "foo") (lit "foo bar") = true
  /\ @apply_validator_patches ascii_db (lit "foo bar")
       (report_with [inline_fix (lit "foo") []] []) = Ok (lit "foo bar")
  /\ str_replace (lit "foo") [] (lit "foo bar") = lit " bar".
Proof. repeat split; vm_compute; reflexivity. Qed.

(** C9 (amended): the inline fixes of a report are applied in order, each
    to the text the previous ones left.  A fix is applied when its [find] and
    its [replace], both stripped of surrounding whitespace, are not empty and
    the stripped [find] occurs in the text: every occurrence of it is then
    replaced by the stripped [replace].  Otherwise the fix is skipped and
    leaves the text as it is.  No fix with string fields raises. *)
Theorem inline_fixes_applied `{UnicodeDB} (fixes : list (str * str)) (text : str) :
  apply_validator_patches text
    (report_with (List.map (fun fx => inline_fix (fst fx) (snd fx)) fixes) []) =
  Ok (foldl (fun text fx =>
               let find := str_strip (fst fx) in
               let repl := str_strip (snd fx) in
               if nonempty find && nonempty repl && str_contains find text
               then str_replace find repl text
               else text) text fixes).
Proof.
  unfold apply_validator_patches.
  rewrite report_inline_fixes, report_section_patches.
  cbn [mbind res_bind py_iter truthy].
  rewrite inline_fixes_fold. reflexivity.
Qed.

(** *** Section patches *)

(** A patch with string fields whose title or content is blank leaves the
    text as it is. *)
Theorem blank_section_patch_is_skipped `{UnicodeDB} (text title action content : str) :
  nonempty (str_strip title) = false \/ nonempty (str_strip content) = false ->
  apply_validator_patches text (report_with [] [section_patch title action content])
  = Ok text.
Proof.
  intros Hblank. rewrite apply_one_section_patch, apply_section_patch_strings. cbv zeta.
  destruct Hblank as [-> | ->]; [reflexivity|]. by rewrite orb_true_r.
Qed.

(** C8: [apply_validator_patches] raises on a patch with string fields.
    The text has a [SUMMARY] section and the patch replaces it by a content
    with a backslash followed by a letter: [re.sub] reads the content as a
    replacement template and refuses the escape. *)
Theorem apply_validator_patches_raises_on_backslash :
  @apply_validator_patches ascii_db (lines ["SUMMARY"%string; " old"%string])
    (report_with [] [section_patch (lit "SUMMARY") (lit "replace") (lit "a\d")])
  = Raise ReError.
Proof. vm_compute. reflexivity. Qed.

Lemma append_section_changes (text content : str) :
  str_strip content <> [] ->
  append_section text (str_strip content) <> text.
Proof.
  intros Hne Heq. unfold append_section in Heq.
  destruct (rstrip_by_split is_space text) as [w [Htext Hw]].
  fold (str_rstrip text) in Htext. rewrite Htext in Heq at 2.
  apply app_inv_head in Heq.
  destruct (strip_by_nonempty is_space content Hne) as [c [Hin Hc]].
  fold (str_strip content) in Hin.
  rewrite forallb_forall in Hw.
  rewrite (Hw c) in Hc; [discriminate|].
  rewrite <- Heq. apply in_or_app. right. apply in_or_app. left. exact Hin.
Qed.

(** C6, as the claim states it, fails on a text without the section: a
    replace patch appends its content, which need not bring the title with
    it, so the second application appends the content again. *)
Lemma replace_patch_applied_twice_differs :
  let report := report_with [] [section_patch (lit "SUMMARY") (lit "replace") (lit "Hello")] in
  @apply_validator_patches ascii_db (lit "Intro") report
    = Ok (lit "Intro" ++ [newline; newline] ++ lit "Hello" ++ [newline])
  /\ @apply_validator_patches ascii_db
       (lit "Intro" ++ [newline; newline] ++ lit "Hello" ++ [newline]) report
    = Ok (lit "Intro" ++ [newline; newline] ++ lit "Hello" ++ [newline; newline]
          ++ lit "Hello" ++ [newline])
  /\ lit "Intro" ++ [newline; newline] ++ lit "Hello" ++ [newline; newline]
       ++ lit "Hello" ++ [newline]
     <> lit "Intro" ++ [newline; newline] ++ lit "Hello" ++ [newline].
Proof.
  cbv zeta. split; [|split].
  - vm_compute. reflexivity.
  - vm_compute. reflexivity.
  - vm_compute. discriminate.
Qed.

(** ** The response parser *)

Lemma str_eqb_eq (a b : str) : str_eqb a b = true <-> a = b.
Proof. unfold str_eqb. apply bool_decide_eq_true. Qed.

Lemma str_eqb_refl (a : str) : str_eqb a a = true.
Proof. by apply str_eqb_eq. Qed.

Lemma str_eqb_neq (a b : str) : a <> b -> str_eqb a b = false.
Proof. unfold str_eqb. apply bool_decide_eq_false_2. Qed.

Lemma dict_get_set_same (k : str) (v : json) (d : dict) :
  dict_get k (dict_set k v d) = Some v.
Proof.
  induction d as [|[k' v'] d IH]; simpl.
  - by rewrite str_eqb_refl.
  - destruct (str_eqb k' k) eqn:E; simpl; rewrite E; [reflexivity|exact IH].
Qed.

Lemma dict_get_set_other (k k' : str) (v : json) (d : dict) :
  k <> k' -> dict_get k' (dict_set k v d) = dict_get k' d.
Proof.
  intros Hne. induction d as [|[k0 v0] d IH]; simpl.
  - by rewrite str_eqb_neq.
  - destruct (str_eqb k0 k) eqn:E; simpl.
    + apply str_eqb_eq in E. subst k0. by rewrite str_eqb_neq.
    + by rewrite IH.
Qed.

Lemma dict_get_setdefault_other (k k' : str) (v : json) (d : dict) :
  k <> k' -> dict_get k' (dict_setdefault k v d) = dict_get k' d.
Proof.
  intros Hne. unfold dict_setdefault. destruct (dict_mem k d); [reflexivity|].
  by apply dict_get_set_other.
Qed.

Lemma dict_mem_setdefault (k : str) (v : json) (d : dict) :
  dict_mem k (dict_setdefault k v d) = true.
Proof.
  unfold dict_setdefault. destruct (dict_mem k d) eqn:E; [exact E|].
  unfold dict_mem. by rewrite dict_get_set_same.
Qed.

(** The value of [dict_setdefault]: the one the key had, if any. *)
Lemma dict_get_setdefault_same (k : str) (v : json) (d : dict) :
  dict_get k (dict_setdefault k v d) = Some (default v (dict_get k d)).
Proof.
  unfold dict_setdefault, dict_mem.
  destruct (dict_get k d) eqn:E; [exact E|]. apply dict_get_set_same.
Qed.

Section ParserProperties.
Context `{UnicodeDB}.

Lemma coerce_field_dict (fields : dict) (k : str) :
  coerce_field (JObj fields) k = Ok (JObj (coerce_in_dict fields k)).
Proof.
  unfold coerce_field, coerce_in_dict. cbn [py_in mbind res_bind].
  by destruct (dict_mem k fields).
Qed.

Lemma coerce_numbers_dict (fields : dict) :
  _coerce_numbers (JObj fields) = Ok (JObj (foldl coerce_in_dict fields _NUMBER_FIELDS)).
Proof.
  unfold _coerce_numbers. generalize _NUMBER_FIELDS as ks. intros ks.
  revert fields. induction ks as [|k ks IH]; intros fields; [reflexivity|].
  cbn [foldl mbind res_bind]. rewrite coerce_field_dict. apply IH.
Qed.

Lemma coerce_in_dict_get (fields : dict) (k k' : str) :
  dict_get k' (coerce_in_dict fields k) =
  if str_eqb k k' then (fun v => JFloat (_to_float v f0)) <$> dict_get k' fields
  else dict_get k' fields.
Proof.
  unfold coerce_in_dict, dict_mem.
  destruct (str_eqb k k') eqn:E.
  - apply str_eqb_eq in E. subst k'.
    destruct (dict_get k fields) eqn:Eg; [|by rewrite Eg].
    by rewrite dict_get_set_same.
  - destruct (dict_get k fields); [|reflexivity].
    apply dict_get_set_other. intros ->. by rewrite str_eqb_refl in E.
Qed.

Lemma coerce_fold_get (ks : list str) (fields : dict) (k' : str) :
  NoDup ks ->
  dict_get k' (foldl coerce_in_dict fields ks) =
  if bool_decide (k' ∈ ks) then (fun v => JFloat (_to_float v f0)) <$> dict_get k' fields
  else dict_get k' fields.
Proof.
  intros Hnd. revert fields. induction Hnd as [|k ks Hk Hnd IH]; intros fields.
  - reflexivity.
  - cbn [foldl]. rewrite IH, coerce_in_dict_get.
    destruct (str_eqb k k') eqn:E.
    + apply str_eqb_eq in E. subst k'.
      rewrite (bool_decide_eq_false_2 _ Hk).
      rewrite bool_decide_eq_true_2; [reflexivity|by left].
    + assert (k <> k') as Hne by (intros ->; by rewrite str_eqb_refl in E).
      destruct (bool_decide (k' ∈ ks)) eqn:Eks.
      * apply bool_decide_eq_true in Eks.
        rewrite bool_decide_eq_true_2; [reflexivity|by right].
      * apply bool_decide_eq_false in Eks.
        rewrite bool_decide_eq_false_2; [reflexivity|].
        intros [->|Hin]%elem_of_cons; [done|done].
Qed.

Lemma number_fields_nodup : NoDup _NUMBER_FIELDS.
Proof. apply (bool_decide_unpack _). vm_compute. exact I. Qed.

(** Anything but a [dict] makes [parse_validation_response] raise. *)
Lemma coerce_numbers_other (d : json) (ks : list str) :
  (forall fields, d <> JObj fields) ->
  foldl (fun acc k => d ← acc; coerce_field d k) (Ok d) ks = Ok d
  \/ exists e, foldl (fun acc k => d ← acc; coerce_field d k) (Ok d) ks = Raise e.
Proof.
  intros Hd. induction ks as [|k ks IH] using rev_ind; [by left|].
  rewrite foldl_snoc. destruct IH as [->|[e ->]]; [|right; by exists e].
  cbn [mbind res_bind]. unfold coerce_field.
  destruct (py_in k d) as [[|]|e]; cbn [mbind res_bind].
  - right. destruct d; try (by eexists). by destruct (Hd fields).
  - by left.
  - right. by exists e.
Qed.

Lemma parse_raises_on_other (content : str) :
  (forall fields, load_data content <> JObj fields) ->
  exists e, parse_validation_response content = Raise e.
Proof.
  intros Hd. unfold parse_validation_response, _coerce_numbers.
  destruct (coerce_numbers_other (load_data content) _NUMBER_FIELDS Hd) as [->|[e ->]].
  - cbn [mbind res_bind]. destruct (load_data content); try (by eexists).
    by destruct (Hd fields).
  - by exists e.
Qed.

Lemma parse_on_dict (content : str) (loaded : dict) :
  load_data content = JObj loaded ->
  parse_validation_response content =
  Ok (JObj (dict_setdefault (lit "suggestions") (JArr [])
              (dict_setdefault (lit "issues") (JArr [])
                 (foldl coerce_in_dict loaded _NUMBER_FIELDS)))).
Proof.
  intros Hl. unfold parse_validation_response. rewrite Hl, coerce_numbers_dict.
  reflexivity.
Qed.

(** [parse_validation_response] returns exactly when the two parses leave
    a [dict]. *)
Lemma parse_returns_when_dict (content : str) :
  returns (parse_validation_response content) <->
  exists loaded, load_data content = JObj loaded.
Proof.
  split.
  - intros Hret. destruct (load_data content) eqn:E; try (by eexists).
    all: destruct (parse_raises_on_other content) as [e He];
      [rewrite E; discriminate|rewrite He in Hret; destruct Hret].
  - intros [loaded Hl]. by rewrite (parse_on_dict _ _ Hl).
Qed.

(** When both parses fail, the report is the default one: score 5.0 and
    the one issue that tells of the failure. *)
Theorem parse_failure_report (content : str) :
  let candidate :=
    _extract_json_block (str_replace [9%N] [32%N] (str_replace [13%N] [32%N] content)) in
  json_loads candidate = None ->
  json_loads (repair candidate) = None ->
  parse_validation_response content = Ok default_data
  /\ py_get default_data (lit "score") JNull = Ok (JFloat f5)
  /\ py_get default_data (lit "issues") JNull = Ok (JArr [JStr parse_failure_issue]).
Proof.
  intros candidate H1 H2.
  split; [|split; reflexivity].
  rewrite (parse_on_dict content
             [(lit "score", JFloat f5); (lit "structure", JFloat f5);
              (lit "content", JFloat f5); (lit "language", JFloat f5);
              (lit "issues", JArr [JStr parse_failure_issue]);
              (lit "suggestions", JArr [JStr parse_failure_suggestion])]).
  - reflexivity.
  - unfold load_data. fold candidate. by rewrite H1, H2.
Qed.

(** What [_to_float] makes of a value, kind by kind. *)
Lemma to_float_cases (v : json) :
  match v with
  | JFloat x => _to_float v f0 = x
  | JInt n =>
    _to_float v f0
    = if overflow_threshold <=? Z.abs n then f0 else float_of_Q (inject_Z n)
  | JBool b => _to_float v f0 = if b then f1 else f0
  | JStr s =>
    _to_float v f0
    = default f0 (py_float (str_strip_chars [apostrophe]
                              (str_strip_chars [quote] (str_strip s))))
  | JNull | JArr _ | JObj _ => _to_float v f0 = f0
  end.
Proof.
  destruct v; try reflexivity.
  cbn [_to_float]. unfold float_of_int. by destruct (overflow_threshold <=? Z.abs n).
Qed.

(** C2 (amended): a report that [parse_validation_response] returns is
    a [dict] made from the [dict] the two parses left.  It has the keys
    [issues] and [suggestions], with the empty list where the critic's
    object had none and the critic's value, whatever it is, where it had
    one.  Each of [score], [structure], [content], [language] and
    [formatting] is there exactly when the critic's object has it, and is
    then a float, which is not clamped: a float is kept as it is, whatever
    its value; an [int] becomes the float nearest to it, or 0.0 when it is
    beyond the floats; [true] and [false] become 1.0 and 0.0; a string
    becomes the float that [float] reads in it once whitespace and the
    quotes around it are stripped, or 0.0 when it reads none; [null], a list
    and an object become 0.0.  Every other key, [section_patches] and
    [inline_fixes] among them, is there exactly when the critic's object
    has it, with the critic's value. *)
Theorem parse_validation_response_report (content : str) (data : json) :
  parse_validation_response content = Ok data ->
  exists loaded fields,
    load_data content = JObj loaded /\ data = JObj fields
    /\ (forall k, In k [lit "issues"; lit "suggestions"] ->
          dict_get k fields = Some (default (JArr []) (dict_get k loaded)))
    /\ (forall k, In k _NUMBER_FIELDS ->
          match dict_get k loaded with
          | None => dict_get k fields = None
          | Some (JFloat x) => dict_get k fields = Some (JFloat x)
          | Some (JInt n) =>
            dict_get k fields
            = Some (JFloat (if overflow_threshold <=? Z.abs n then f0
                            else float_of_Q (inject_Z n)))
          | Some (JBool b) => dict_get k fields = Some (JFloat (if b then f1 else f0))
          | Some (JStr s) =>
            dict_get k fields
            = Some (JFloat (default f0
                              (py_float (str_strip_chars [apostrophe]
                                           (str_strip_chars [quote] (str_strip s))))))
          | Some JNull | Some (JArr _) | Some (JObj _) =>
            dict_get k fields = Some (JFloat f0)
          end)
    /\ (forall k, ~ In k _NUMBER_FIELDS -> ~ In k [lit "issues"; lit "suggestions"] ->
          dict_get k fields = dict_get k loaded).
Proof.
  intros Hparse.
  assert (returns (parse_validation_response content)) as Hret by (by rewrite Hparse).
  apply parse_returns_when_dict in Hret. destruct Hret as [loaded Hl].
  pose proof (parse_on_dict _ _ Hl) as Hdict.
  remember (foldl coerce_in_dict loaded _NUMBER_FIELDS) as coerced eqn:Ecoerced.
  rewrite Hdict in Hparse. injection Hparse as <-.
  exists loaded. eexists. split; [exact Hl|]. split; [reflexivity|].
  pose proof number_fields_nodup as Hnd. subst coerced.
  split; [|split].
  - intros k [<-|[<-|[]]].
    + rewrite dict_get_setdefault_other by (vm_compute; discriminate).
      rewrite dict_get_setdefault_same, coerce_fold_get by exact Hnd.
      rewrite bool_decide_eq_false_2; [reflexivity|].
      apply (bool_decide_unpack _). vm_compute. exact I.
    + rewrite dict_get_setdefault_same.
      rewrite dict_get_setdefault_other by (vm_compute; discriminate).
      rewrite coerce_fold_get by exact Hnd.
      rewrite bool_decide_eq_false_2; [reflexivity|].
      apply (bool_decide_unpack _). vm_compute. exact I.
  - intros k Hk.
    assert (k <> lit "issues" /\ k <> lit "suggestions") as [Hi Hs].
    { simpl in Hk. destruct Hk as [<-|[<-|[<-|[<-|[<-|[]]]]]];
        split; vm_compute; discriminate. }
    rewrite !dict_get_setdefault_other by done.
    rewrite coerce_fold_get by exact Hnd.
    rewrite bool_decide_eq_true_2 by (by apply list_elem_of_In).
    destruct (dict_get k loaded) as [v|]; [|reflexivity].
    cbn [fmap option_fmap option_map]. pose proof (to_float_cases v) as Hv.
    destruct v; by rewrite Hv.
  - intros k Hk Hk'.
    rewrite !dict_get_setdefault_other.
    + rewrite coerce_fold_get by exact Hnd.
      rewrite bool_decide_eq_false_2; [reflexivity|]. by rewrite list_elem_of_In.
    + intros <-. apply Hk'. by left.
    + intros <-. apply Hk'. right. by left.
Qed.
End ParserProperties.

(** The critic's reply of the specification's second scenario: prose, then
    an object whose score has a decimal comma.  The first parse fails, the
    repaired text parses, and the report has the float 9.2 for its score and
    no issue. *)
Example parse_decimal_comma :
  @parse_validation_response ascii_db
    (lit "Here is the result: {" ++ quoted "score" ++ lit ": 9,2, " ++ quoted "issues"
     ++ lit ": []}")
  = Ok (JObj [(lit "score", JFloat (float_of_Q (46 # 5))); (lit "issues", JArr []);
              (lit "suggestions", JArr [])]).
Proof. vm_compute. reflexivity. Qed.

(** A reply that is a list: [_coerce_numbers] passes it on and
    [setdefault] is missing. *)
Example parse_validation_response_raises_on_list :
  @parse_validation_response ascii_db (lit "[1, 2]") = Raise AttributeError.
Proof. vm_compute. reflexivity. Qed.

(** C1: [parse_validation_response] raises on a reply that is valid JSON
    but not an object.  The reply [5] parses to the number 5, and the test
    [k in d] of [_coerce_numbers] is a [TypeError] on a number. *)
Theorem parse_validation_response_raises_on_number `{UnicodeDB} :
  parse_validation_response (lit "5") = Raise TypeError.
Proof. vm_compute. reflexivity. Qed.

(** C2, as the claim states it, fails on a reply with a score of 15 and
    nothing else: the report keeps the 15.0, which is above 10, and has
    neither [section_patches] nor [inline_fixes]. *)
Lemma score_above_ten_is_kept :
  @parse_validation_response ascii_db (lit "{" ++ quoted "score" ++ lit ": 15}")
  = Ok (JObj [(lit "score", JFloat (Fin 15)); (lit "issues", JArr []);
              (lit "suggestions", JArr [])])
  /\ fle (Fin 15) (Fin 10) = false
  /\ dict_get (lit "section_patches")
       [(lit "score", JFloat (Fin 15)); (lit "issues", JArr []);
        (lit "suggestions", JArr [])] = None
  /\ dict_get (lit "inline_fixes")
       [(lit "score", JFloat (Fin 15)); (lit "issues", JArr []);
        (lit "suggestions", JArr [])] = None.
Proof. repeat split; vm_compute; reflexivity. Qed.

Lemma parse_validation_response_report_witness :
  exists loaded fields,
    @load_data ascii_db (lit "{" ++ quoted "score" ++ lit ": 15}") = JObj loaded
    /\ JObj [(lit "score", JFloat (Fin 15)); (lit "issues", JArr []);
             (lit "suggestions", JArr [])] = JObj fields
    /\ (forall k, In k [lit "issues"; lit "suggestions"] ->
          dict_get k fields = Some (default (JArr []) (dict_get k loaded)))
    /\ (forall k, In k _NUMBER_FIELDS ->
          match dict_get k loaded with
          | None => dict_get k fields = None
          | Some (JFloat x) => dict_get k fields = Some (JFloat x)
          | Some (JInt n) =>
            dict_get k fields
            = Some (JFloat (if overflow_threshold <=? Z.abs n then f0
                            else float_of_Q (inject_Z n)))
          | Some (JBool b) => dict_get k fields = Some (JFloat (if b then f1 else f0))
          | Some (JStr s) =>
            dict_get k fields
            = Some (JFloat (default f0
                              (@py_float ascii_db
                                 (str_strip_chars [apostrophe]
                                    (str_strip_chars [quote] (str_strip s))))))
          | Some JNull | Some (JArr _) | Some (JObj _) =>
            dict_get k fields = Some (JFloat f0)
          end)
    /\ (forall k, ~ In k _NUMBER_FIELDS -> ~ In k [lit "issues"; lit "suggestions"] ->
          dict_get k fields = dict_get k loaded).
Proof.
  apply (@parse_validation_response_report ascii_db
           (lit "{" ++ quoted "score" ++ lit ": 15}")).
  vm_compute. reflexivity.
Defined.

(** ** The refinement loop of [claude_validator.py] *)

Section RefinementProperties.
Context `{UnicodeDB} {World : Type}.
Variable api_key : option str.
Variable session_post : payload -> World -> http_outcome * World.
Variables (original_prompt analysis_type : str) (target_score : pyfloat).

Abbreviation turn := (refinement_turn api_key session_post original_prompt analysis_type
                    target_score).
Abbreviation loop := (refinement_loop api_key session_post original_prompt analysis_type
                    target_score).
Abbreviation final := (final_check api_key session_post original_prompt analysis_type).

Lemma final_check_scored (current_text : str) (scored : list (str * pyfloat)) (w : World) :
  exists final_score,
    run_result (final current_text scored w) = (current_text, final_score)
    /\ run_scored (final current_text scored w) = scored ++ [(current_text, final_score)].
Proof.
  unfold final_check.
  destruct (validate_and_score _ _ _ _ _ _) as [v w']. by eexists.
Qed.

(** The scoring pass a turn records is that of the current text. *)
Lemma refinement_turn_pass (current_text : str) (w : World) :
  exists current_score, snd (fst (turn current_text w)) = (current_text, current_score).
Proof.
  unfold refinement_turn.
  destruct (validate_and_score _ _ _ _ _ _) as [v w1].
  destruct (fge _ _); [by eexists|].
  destruct (fix_text_with_claude _ _ _ _ _) as [improved w2].
  destruct (_ && _); [destruct (int_lt_float _ _)|]; by eexists.
Qed.

Lemma refinement_turn_converged (current_text : str) (w : World) (s : pyfloat) :
  fst (fst (turn current_text w)) = Converged s ->
  snd (fst (turn current_text w)) = (current_text, s).
Proof.
  unfold refinement_turn.
  destruct (validate_and_score _ _ _ _ _ _) as [v w1].
  destruct (fge _ _); [by intros [= <-]|].
  destruct (fix_text_with_claude _ _ _ _ _) as [improved w2].
  destruct (_ && _); [destruct (int_lt_float _ _)|]; discriminate.
Qed.

(** The loop makes at most one scoring pass per turn, and one more after
    the last. *)
Lemma refinement_loop_passes (remaining : nat) (current_text : str)
    (scored : list (str * pyfloat)) (w : World) :
  (length (run_scored (loop remaining current_text scored w))
   <= length scored + remaining + 1)%nat.
Proof.
  revert current_text scored w.
  induction remaining as [|remaining IH]; intros current_text scored w.
  - cbn [refinement_loop].
    destruct (final_check_scored current_text scored w) as [s [_ ->]].
    rewrite length_app. simpl. lia.
  - cbn [refinement_loop].
    destruct (turn current_text w) as [[[s|improved|] pass] w'].
    + cbn [run_scored]. rewrite length_app. simpl. lia.
    + etrans; [apply IH|]. rewrite length_app. simpl. lia.
    + destruct (final_check_scored current_text (scored ++ [pass]) w') as [s [_ ->]].
      rewrite !length_app. simpl. lia.
Qed.

(** What the loop returns is its last scoring pass. *)
Lemma refinement_loop_returns_last (remaining : nat) (current_text : str)
    (scored : list (str * pyfloat)) (w : World) :
  last (run_scored (loop remaining current_text scored w))
  = Some (run_result (loop remaining current_text scored w)).
Proof.
  revert current_text scored w.
  induction remaining as [|remaining IH]; intros current_text scored w.
  - cbn [refinement_loop].
    destruct (final_check_scored current_text scored w) as [s [-> ->]].
    apply last_snoc.
  - cbn [refinement_loop].
    pose proof (refinement_turn_converged current_text w) as Hconv.
    destruct (turn current_text w) as [[[s|improved|] pass] w'].
    + cbn [run_scored run_result]. cbn [fst snd] in Hconv.
      rewrite (Hconv s eq_refl). apply last_snoc.
    + apply IH.
    + destruct (final_check_scored current_text (scored ++ [pass]) w') as [s [-> ->]].
      apply last_snoc.
Qed.

(** A turn ends in one of three ways, and goes on only with a candidate
    it adopts. *)
Lemma refinement_turn_cases (current_text : str) (w : World) :
  exists v w1,
    validate_and_score api_key session_post current_text original_prompt analysis_type w
    = (v, w1)
    /\ ((fge (score v) target_score = true
         /\ turn current_text w = (Converged (score v), (current_text, score v), w1))
        \/ (fge (score v) target_score = false
            /\ exists candidate w2,
                 fix_text_with_claude api_key session_post current_text target_score w1
                 = (candidate, w2)
                 /\ ((acceptable current_text candidate
                      /\ turn current_text w
                         = (NextTurn candidate, (current_text, score v), w2))
                     \/ (~ acceptable current_text candidate
                         /\ turn current_text w
                            = (Break, (current_text, score v), w2))))).
Proof.
  unfold refinement_turn, acceptable.
  destruct (validate_and_score _ _ _ _ _ _) as [v w1]. exists v, w1.
  split; [reflexivity|].
  destruct (fge (score v) target_score); [by left|right]. split; [reflexivity|].
  destruct (fix_text_with_claude _ _ _ _ _) as [candidate w2]. exists candidate, w2.
  split; [reflexivity|].
  destruct candidate as [|c candidate].
  { right. split; [|reflexivity]. by intros [Hne _]. }
  cbn [truthy andb].
  destruct (Z.ltb_spec 100 (py_len_str (str_strip (c :: candidate)))) as [Hlong|Hshort].
  - destruct (int_lt_float _ _) eqn:Elt.
    + right. split; [|reflexivity]. intros (_ & _ & Hnot). congruence.
    + left. by repeat split.
  - right. split; [|reflexivity]. intros (_ & Hlong & _). lia.
Qed.

(** What the loop returns: the candidates it adopts lead from the text
    it is given to the text it returns, in no more turns than it has; the
    loop stops there because that text reaches the target, or because the
    candidate for it is not acceptable, or because no turn is left, and in
    the last two cases the score is that of a final pass. *)
Lemma refinement_loop_result (remaining : nat) (text : str)
    (scored : list (str * pyfloat)) (w : World) :
  let run := loop remaining text scored w in
  exists (n : nat) (current_text : str) (w1 : World) (v : validation_result)
         (w2 : World),
    adopted api_key session_post original_prompt analysis_type target_score
      text w n current_text w1
    /\ validate_and_score api_key session_post current_text original_prompt
         analysis_type w1 = (v, w2)
    /\ (((n < remaining)%nat /\ fge (score v) target_score = true
         /\ run_result run = (current_text, score v) /\ run_world run = w2)
        \/ ((n < remaining)%nat /\ fge (score v) target_score = false
            /\ exists candidate w3 final_result w4,
                 fix_text_with_claude api_key session_post current_text target_score w2
                 = (candidate, w3)
                 /\ ~ acceptable current_text candidate
                 /\ validate_and_score api_key session_post current_text
                      original_prompt analysis_type w3 = (final_result, w4)
                 /\ run_result run = (current_text, score final_result)
                 /\ run_world run = w4)
        \/ (n = remaining
            /\ run_result run = (current_text, score v) /\ run_world run = w2)).
Proof.
  cbv zeta. revert text scored w.
  induction remaining as [|remaining IH]; intros text scored w.
  - cbn [refinement_loop]. unfold final_check.
    destruct (validate_and_score _ _ text _ _ w) as [v w2] eqn:Ev.
    exists 0%nat, text, w, v, w2. split; [constructor|]. split; [exact Ev|].
    right. right. by repeat split.
  - cbn [refinement_loop].
    destruct (refinement_turn_cases text w)
      as (v & w1 & Ev & [[Hreached ->]|(Hlow & candidate & w2 & Efix
                                        & [[Hok ->]|[Hbad ->]])]).
    + exists 0%nat, text, w, v, w1. split; [constructor|]. split; [exact Ev|].
      left. repeat split; [lia|exact Hreached].
    + destruct (IH candidate (scored ++ [(text, score v)]) w2)
        as (n & current_text & w3 & v' & w4 & Hchain & Ev' & Hend).
      exists (S n), current_text, w3, v', w4.
      split; [econstructor; [|exact Hchain]; by exists v, w1|]. split; [exact Ev'|].
      destruct Hend as [(Hn & ?)|[(Hn & ?)|(-> & ?)]].
      * left. split; [lia|done].
      * right. left. split; [lia|done].
      * right. right. by split.
    + unfold final_check.
      destruct (validate_and_score _ _ text _ _ w2) as [final_result w4] eqn:Efinal.
      exists 0%nat, text, w, v, w1. split; [constructor|]. split; [exact Ev|].
      right. left. split; [lia|]. split; [exact Hlow|].
      by exists candidate, w2, final_result, w4.
Qed.

(** A shrunk candidate ends the loop. *)
Lemma shrunk_candidate_breaks (current_text improved_text : str)
    (v : validation_result) (w w1 w2 : World) :
  validate_and_score api_key session_post current_text original_prompt analysis_type w
    = (v, w1) ->
  fge (score v) target_score = false ->
  fix_text_with_claude api_key session_post current_text target_score w1
    = (improved_text, w2) ->
  int_lt_float (py_len_str improved_text) (int_mul_float (py_len_str current_text) f0_7)
    = true ->
  turn current_text w = (Break, (current_text, score v), w2).
Proof.
  intros Hv Hlow Hfix Hshort. unfold refinement_turn.
  rewrite Hv, Hlow, Hfix, Hshort. by destruct (_ && _).
Qed.
End RefinementProperties.

(** ** Order of floats *)

Lemma Qle_bool_false_lt (x y : Q) : Qle_bool x y = false -> (y < x)%Q.
Proof.
  intros Hle. apply Qnot_le_lt. intros Hxy. apply Qle_bool_iff in Hxy. congruence.
Qed.

Lemma Qlt_bool_false_le (x y : Q) : Qlt_bool x y = false -> (y <= x)%Q.
Proof.
  unfold Qlt_bool. rewrite negb_false_iff. apply Qle_bool_iff.
Qed.

Lemma Qlt_bool_false_of_le (x y : Q) : (y <= x)%Q -> Qlt_bool x y = false.
Proof.
  intros Hle. unfold Qlt_bool. rewrite negb_false_iff. by apply Qle_bool_iff.
Qed.

Lemma fgt_irrefl (a : pyfloat) : fgt a a = false.
Proof.
  destruct a; try reflexivity. unfold fgt, flt.
  apply Qlt_bool_false_of_le. apply Qle_refl.
Qed.

(** A score that does not exceed the best one does not exceed a better
    one. *)
Lemma fgt_false_raise (a best c : pyfloat) :
  best <> NaN -> fgt a best = false -> fgt c best = true -> fgt a c = false.
Proof.
  unfold fgt, flt. intros Hbest Ha Hc.
  destruct a as [x| | |], best as [y| | |], c as [z| | |];
    try reflexivity; try discriminate; try done.
  apply Qlt_bool_false_le in Ha. apply Qlt_bool_iff in Hc.
  apply Qlt_bool_false_of_le. apply Qlt_le_weak. eapply Qle_lt_trans; eauto.
Qed.

(** A score below the target does not exceed one that reaches it. *)
Lemma fgt_false_target (a target c : pyfloat) :
  fge a target = false -> fge c target = true -> fgt a c = false.
Proof.
  unfold fgt, fge, flt, fle. intros Ha Hc.
  destruct a as [x| | |], target as [y| | |], c as [z| | |];
    try reflexivity; try discriminate; try done.
  apply Qle_bool_false_lt in Ha. apply Qle_bool_iff in Hc.
  apply Qlt_bool_false_of_le. apply Qlt_le_weak. eapply Qlt_le_trans; eauto.
Qed.

Lemma fgt_true_not_nan (a b : pyfloat) : fgt a b = true -> a <> NaN.
Proof. unfold fgt, flt. destruct a, b; try discriminate; done. Qed.

(** ** The loop of [rlhf_system.py] *)

Section ImprovementProperties.
Context `{UnicodeDB} {World Params : Type}.
Variable api_key : option str.
Variable session_post : payload -> World -> http_outcome * World.
Variable use_claude : bool.
Variable max_iterations : Z.
Variable has_prompt : Params -> bool.
Variable generation_function :
  Params -> option feedback_prompt -> World -> option str * World.
Variables (analysis_type original_prompt : str) (generation_params : Params).

Abbreviation imp_loop :=
  (improvement_loop api_key session_post use_claude max_iterations has_prompt
     generation_function analysis_type original_prompt generation_params).

(** The loop makes one scoring pass per turn and none after the last. *)
Lemma improvement_loop_passes (remaining : nat) (iteration : Z)
    (current_text best_text : str) (best_score : pyfloat)
    (history : list iteration_data) (scored : list (str * pyfloat)) (w : World) :
  (length (imp_scored (imp_loop remaining iteration current_text best_text best_score
                         history scored w))
   <= length scored + remaining)%nat.
Proof.
  revert iteration current_text best_text best_score history scored w.
  induction remaining as [|remaining IH];
    intros iteration current_text best_text best_score history scored w.
  - cbn [improvement_loop imp_scored]. lia.
  - cbn [improvement_loop].
    destruct (rlhf_score _ _ _ _ _ _ _) as [v w1].
    destruct (fgt (score v) best_score);
      (destruct (fge (score v) _);
       [cbn [imp_scored]; rewrite length_app; simpl; lia|]);
      (destruct (iteration <? max_iterations);
       [destruct (rlhf_improve _ _ _ _ _ _ _ _ _ _) as [[improved|e] w2]|]);
      try (cbn [imp_scored]; rewrite length_app; simpl; lia);
      (etrans; [apply IH|]; rewrite length_app; simpl; lia).
Qed.

Lemma improvement_loop_best (initial_text : str) (remaining : nat) (iteration : Z)
    (current_text best_text : str) (best_score : pyfloat)
    (history : list iteration_data) (scored : list (str * pyfloat)) (w : World)
    (text : str) (final_score : pyfloat) (final_history : list iteration_data) :
  best_so_far (target_for analysis_type) initial_text best_text best_score scored ->
  imp_result (imp_loop remaining iteration current_text best_text best_score
                history scored w) = Ok (text, final_score, final_history) ->
  let run := imp_loop remaining iteration current_text best_text best_score
               history scored w in
  (forall t s, In (t, s) (imp_scored run) -> fgt s final_score = false)
  /\ (In (text, final_score) (imp_scored run)
      \/ (text = initial_text /\ final_score = f0)).
Proof.
  revert iteration current_text best_text best_score history scored w.
  induction remaining as [|remaining IH];
    intros iteration current_text best_text best_score history scored w
      (Hnan & Hseen & Hbest) Hres; cbv zeta.
  - cbn [improvement_loop imp_result imp_scored] in *.
    injection Hres as <- <- <-. split; [|exact Hbest].
    intros t s Hin. by destruct (Hseen t s Hin).
  - cbn [improvement_loop] in *.
    destruct (rlhf_score _ _ _ _ _ _ _) as [v w1].
    set (current_score := score v) in *.
    destruct (fge current_score (target_for analysis_type)) eqn:Etarget.
    + (* the target is reached: the current pass is returned *)
      assert (imp_result
                (let '(best_text0, best_score0) :=
                   if fgt current_score best_score then (current_text, current_score)
                   else (best_text, best_score) in
                 {| imp_result := Ok (current_text, current_score,
                                      history ++ [{| it_iteration := iteration;
                                                     it_score := current_score;
                                                     it_issues := issues v;
                                                     it_suggestions := suggestions v;
                                                     it_text_length := py_len_str current_text |}]);
                    imp_scored := scored ++ [(current_text, current_score)];
                    imp_world := w1 |})
              = Ok (current_text, current_score,
                    history ++ [{| it_iteration := iteration;
                                   it_score := current_score;
                                   it_issues := issues v;
                                   it_suggestions := suggestions v;
                                   it_text_length := py_len_str current_text |}])) as Hret
        by (by destruct (fgt current_score best_score)).
      destruct (fgt current_score best_score);
        cbn [imp_result imp_scored] in *; injection Hres as <- <- <-.
      all: split; [|left; apply in_or_app; right; by left].
      all: intros t s [Hin|[[= <- <-]|[]]]%in_app_or;
        [destruct (Hseen t s Hin) as [_ Hlow]; by eapply fgt_false_target
        |apply fgt_irrefl].
    + (* the target is not reached: the best pair is updated *)
      assert (exists best_text' best_score',
                 (if fgt current_score best_score then (current_text, current_score)
                  else (best_text, best_score)) = (best_text', best_score')
                 /\ best_so_far (target_for analysis_type) initial_text best_text' best_score'
                      (scored ++ [(current_text, current_score)]))
        as (best_text' & best_score' & Eupd & Hinv).
      { destruct (fgt current_score best_score) eqn:Egt.
        - exists current_text, current_score. split; [reflexivity|].
          split; [by eapply fgt_true_not_nan|]. split.
          + intros t s [Hin|[[= <- <-]|[]]]%in_app_or.
            * destruct (Hseen t s Hin) as [Hle Hlow]. split; [|exact Hlow].
              by eapply fgt_false_raise.
            * split; [apply fgt_irrefl|exact Etarget].
          + left. apply in_or_app. right. by left.
        - exists best_text, best_score. split; [reflexivity|].
          split; [exact Hnan|]. split.
          + intros t s [Hin|[[= <- <-]|[]]]%in_app_or; [exact (Hseen t s Hin)|by split].
          + destruct Hbest as [Hin|Hinit]; [left; apply in_or_app; by left|by right]. }
      rewrite Eupd in Hres |- *.
      destruct (iteration <? max_iterations).
      * destruct (rlhf_improve _ _ _ _ _ _ _ _ _ _) as [[improved|e] w2].
        -- by eapply IH.
        -- discriminate.
      * by eapply IH.
Qed.
End ImprovementProperties.

(** ** The claims about the loops *)

(** C3, as the claim states it, fails for [iterative_refinement]: the
    first text scores 8, the fixer's candidate scores 6 in the final pass, and
    the loop returns the candidate with its 6. *)
Lemma iterative_refinement_returns_the_last_text :
  let run :=
    @iterative_refinement ascii_db _ (Some (lit "key")) scripted_post
      (lit "prompt") (lit "zodiac") (Fin 10) (filled "a" 120) 1
      [reply (lit "8"); reply (filled "b" 120); reply (lit "6")] in
  run_result run = (filled "b" 120, Fin 6)
  /\ run_scored run = [(filled "a" 120, Fin 8); (filled "b" 120, Fin 6)]
  /\ fgt (Fin 8) (Fin 6) = true
  /\ filled "b" 120 <> filled "a" 120.
Proof.
  cbv zeta. split; [|split; [|split]].
  - vm_compute. reflexivity.
  - vm_compute. reflexivity.
  - reflexivity.
  - vm_compute. discriminate.
Qed.

(** C3 (amended): [iterative_refinement] keeps no best text.  It returns
    its last scoring pass: the candidates it adopted, each the fixer's
    acceptable answer to the text before it, lead from the text it was given
    to the current text, which is what it returns; the score is that of the
    pass in which the current text reached the target, or else, when the
    candidate for it was not acceptable or no iteration was left, that of a
    final pass on it.  [iterative_improvement] makes no final pass; when it
    returns, no scoring pass of the run has a score above the one returned,
    and the pair returned is one of the passes, or the initial text with 0.0
    when no score was above 0.0. *)
Theorem refinement_loops_result `{UnicodeDB} {World Params : Type}
    (api_key : option str) (session_post : payload -> World -> http_outcome * World) :
  (forall (original_prompt analysis_type : str) (target_score : pyfloat)
          (text : str) (max_iterations : Z) (w : World),
     let run := iterative_refinement api_key session_post original_prompt analysis_type
                  target_score text max_iterations w in
     last (run_scored run) = Some (run_result run)
     /\ exists (n : nat) (current_text : str) (w1 : World) (v : validation_result)
               (w2 : World),
          adopted api_key session_post original_prompt analysis_type target_score
            text w n current_text w1
          /\ validate_and_score api_key session_post current_text original_prompt
               analysis_type w1 = (v, w2)
          /\ (((n < Z.to_nat max_iterations)%nat /\ fge (score v) target_score = true
               /\ run_result run = (current_text, score v) /\ run_world run = w2)
              \/ ((n < Z.to_nat max_iterations)%nat
                  /\ fge (score v) target_score = false
                  /\ exists candidate w3 final_result w4,
                       fix_text_with_claude api_key session_post current_text
                         target_score w2 = (candidate, w3)
                       /\ ~ acceptable current_text candidate
                       /\ validate_and_score api_key session_post current_text
                            original_prompt analysis_type w3 = (final_result, w4)
                       /\ run_result run = (current_text, score final_result)
                       /\ run_world run = w4)
              \/ (n = Z.to_nat max_iterations
                  /\ run_result run = (current_text, score v) /\ run_world run = w2)))
  /\ (forall (use_claude : bool) (max_iterations : Z) (has_prompt : Params -> bool)
             (generation_function :
                Params -> option feedback_prompt -> World -> option str * World)
             (analysis_type original_prompt : str) (generation_params : Params)
             (initial_text : str) (w : World)
             (text : str) (final_score : pyfloat) (history : list iteration_data),
        let run := iterative_improvement api_key session_post use_claude max_iterations
                     has_prompt generation_function analysis_type original_prompt
                     generation_params initial_text w in
        imp_result run = Ok (text, final_score, history) ->
        (forall t s, In (t, s) (imp_scored run) -> fgt s final_score = false)
        /\ (In (text, final_score) (imp_scored run)
            \/ (text = initial_text /\ final_score = f0))).
Proof.
  split.
  - intros. split; [apply refinement_loop_returns_last|].
    apply refinement_loop_result.
  - intros use_claude max_iterations has_prompt generation_function analysis_type
      original_prompt generation_params initial_text w text final_score history run Hres.
    eapply improvement_loop_best; [|exact Hres].
    split; [discriminate|]. split; [intros t s []|by right].
Qed.

Lemma refinement_loops_result_witness :
  let run :=
    iterative_improvement (H := ascii_db) (World := list (option str)) (Params := unit)
      None no_post false 2 (fun _ => true) scripted_generation
      (lit "zodiac") (lit "prompt") tt (lit "draft") [Some (lit "x")] in
  (forall t s, In (t, s) (imp_scored run) -> fgt s (Fin 1) = false)
  /\ (In (lit "draft", Fin 1) (imp_scored run)
      \/ (lit "draft" = lit "draft" /\ Fin 1 = f0)).
Proof.
  cbv zeta.
  apply (proj2 (@refinement_loops_result ascii_db (list (option str)) unit None no_post)
           false 2 (fun _ => true) scripted_generation (lit "zodiac") (lit "prompt") tt
           (lit "draft") [Some (lit "x")] (lit "draft") (Fin 1)
           [ {| it_iteration := 1; it_score := Fin 1;
                it_issues := issues (_fallback_scoring (lit "draft"));
                it_suggestions := suggestions (_fallback_scoring (lit "draft"));
                it_text_length := 5 |};
             {| it_iteration := 2; it_score := Fin 1;
                it_issues := issues (_fallback_scoring (lit "x"));
                it_suggestions := suggestions (_fallback_scoring (lit "x"));
                it_text_length := 1 |} ]).
  vm_compute. reflexivity.
Defined.

(** C4, as the claim states it, fails for [iterative_refinement]: with
    one iteration allowed and the target not reached, the loop scores the
    text in its one turn and the candidate in the final pass. *)
Lemma one_iteration_makes_two_scoring_passes :
  let run :=
    @iterative_refinement ascii_db _ (Some (lit "key")) scripted_post
      (lit "prompt") (lit "zodiac") (Fin 10) (filled "a" 120) 1
      [reply (lit "5"); reply (filled "b" 120); reply (lit "5")] in
  length (run_scored run) = 2%nat /\ ~ (2 <= Z.to_nat 1)%nat.
Proof. cbv zeta. split; [vm_compute; reflexivity|simpl; lia]. Qed.

(** C4 (amended): whatever the critic and the fixer do, both loops end:
    [iterative_refinement] returns after at most [max_iterations] scoring
    passes in its loop and one more after it, [iterative_improvement] returns
    or raises after at most [max_iterations] scoring passes.  Both are
    defined by recursion on the number of turns left, so neither can loop
    for ever. *)
Theorem refinement_loops_scoring_passes `{UnicodeDB} {World Params : Type}
    (api_key : option str) (session_post : payload -> World -> http_outcome * World) :
  (forall (original_prompt analysis_type : str) (target_score : pyfloat)
          (text : str) (max_iterations : Z) (w : World),
     (length (run_scored (iterative_refinement api_key session_post original_prompt
                            analysis_type target_score text max_iterations w))
      <= Z.to_nat max_iterations + 1)%nat)
  /\ (forall (use_claude : bool) (max_iterations : Z) (has_prompt : Params -> bool)
             (generation_function :
                Params -> option feedback_prompt -> World -> option str * World)
             (analysis_type original_prompt : str) (generation_params : Params)
             (initial_text : str) (w : World),
        (length (imp_scored (iterative_improvement api_key session_post use_claude
                               max_iterations has_prompt generation_function
                               analysis_type original_prompt generation_params
                               initial_text w))
         <= Z.to_nat max_iterations)%nat).
Proof.
  split.
  - intros. unfold iterative_refinement.
    etrans; [apply refinement_loop_passes|]. simpl. lia.
  - intros. unfold iterative_improvement.
    etrans; [apply improvement_loop_passes|]. simpl. lia.
Qed.

(** C5, as the claim states it, fails: the candidate of 200 characters
    for a text of 400 ends the turn with [break], not with the next turn, and
    of the three iterations allowed only the first runs: the run makes its
    final pass and leaves the other replies of the services unread. *)
Lemma shrunk_candidate_aborts_the_loop :
  let script := [reply (lit "5"); reply (filled "b" 200); reply (lit "6");
                 reply (filled "c" 400); reply (lit "9")] in
  fst (fst (@refinement_turn ascii_db _ (Some (lit "key")) scripted_post
              (lit "prompt") (lit "zodiac") (Fin 10) (filled "a" 400) script)) = Break
  /\ Break <> NextTurn (filled "a" 400)
  /\ @iterative_refinement ascii_db _ (Some (lit "key")) scripted_post
       (lit "prompt") (lit "zodiac") (Fin 10) (filled "a" 400) 3 script
     = {| run_result := (filled "a" 400, Fin 6);
          run_scored := [(filled "a" 400, Fin 5); (filled "a" 400, Fin 6)];
          run_world := [reply (filled "c" 400); reply (lit "9")] |}.
Proof.
  cbv zeta. split; [|split].
  - vm_compute. reflexivity.
  - discriminate.
  - vm_compute. reflexivity.
Qed.

(** C5 (amended): if in some iteration the score is below the target and
    the fixer returns a candidate shorter than 70% of the current text's
    length, the candidate is rejected and the loop ends there: the turn ends
    with [break], no further iteration runs, and the run makes its final
    scoring pass on the current text, which is the text from before the
    iteration, and returns it. *)
Theorem shrunk_candidate_ends_the_run `{UnicodeDB} {World : Type}
    (api_key : option str) (session_post : payload -> World -> http_outcome * World)
    (original_prompt analysis_type : str) (target_score : pyfloat)
    (remaining : nat) (current_text improved_text : str)
    (scored : list (str * pyfloat)) (v : validation_result) (w w1 w2 : World) :
  validate_and_score api_key session_post current_text original_prompt analysis_type w
    = (v, w1) ->
  fge (score v) target_score = false ->
  fix_text_with_claude api_key session_post current_text target_score w1
    = (improved_text, w2) ->
  int_lt_float (py_len_str improved_text) (int_mul_float (py_len_str current_text) f0_7)
    = true ->
  refinement_turn api_key session_post original_prompt analysis_type target_score
    current_text w = (Break, (current_text, score v), w2)
  /\ refinement_loop api_key session_post original_prompt analysis_type target_score
       (S remaining) current_text scored w
     = final_check api_key session_post original_prompt analysis_type current_text
         (scored ++ [(current_text, score v)]) w2
  /\ fst (run_result (refinement_loop api_key session_post original_prompt analysis_type
                        target_score (S remaining) current_text scored w))
     = current_text.
Proof.
  intros Hv Hlow Hfix Hshort.
  pose proof (shrunk_candidate_breaks api_key session_post original_prompt analysis_type
                target_score current_text improved_text v w w1 w2 Hv Hlow Hfix Hshort)
    as Hturn.
  split; [exact Hturn|].
  assert (refinement_loop api_key session_post original_prompt analysis_type target_score
            (S remaining) current_text scored w
          = final_check api_key session_post original_prompt analysis_type current_text
              (scored ++ [(current_text, score v)]) w2) as Hloop.
  { cbn [refinement_loop]. by rewrite Hturn. }
  split; [exact Hloop|]. rewrite Hloop.
  destruct (final_check_scored api_key session_post original_prompt analysis_type
              current_text (scored ++ [(current_text, score v)]) w2) as [s [-> _]].
  reflexivity.
Qed.

Lemma shrunk_candidate_ends_the_run_witness :
  let script := [reply (lit "5"); reply (filled "b" 200); reply (lit "6");
                 reply (filled "c" 400); reply (lit "9")] in
  @refinement_turn ascii_db _ (Some (lit "key")) scripted_post
    (lit "prompt") (lit "zodiac") (Fin 10) (filled "a" 400) script
  = (Break, (filled "a" 400, Fin 5), [reply (lit "6"); reply (filled "c" 400); reply (lit "9")])
  /\ @refinement_loop ascii_db _ (Some (lit "key")) scripted_post
       (lit "prompt") (lit "zodiac") (Fin 10) 3 (filled "a" 400) [] script
     = @final_check ascii_db _ (Some (lit "key")) scripted_post
         (lit "prompt") (lit "zodiac") (filled "a" 400)
         ([] ++ [(filled "a" 400, Fin 5)])
         [reply (lit "6"); reply (filled "c" 400); reply (lit "9")]
  /\ fst (run_result
            (@refinement_loop ascii_db _ (Some (lit "key")) scripted_post
               (lit "prompt") (lit "zodiac") (Fin 10) 3 (filled "a" 400) [] script))
     = filled "a" 400.
Proof.
  cbv zeta.
  apply (@shrunk_candidate_ends_the_run ascii_db _ (Some (lit "key")) scripted_post
           (lit "prompt") (lit "zodiac") (Fin 10) 2 (filled "a" 400) (filled "b" 200) []
           {| score := Fin 5; is_valid := false; issues := []; suggestions := [];
              confidence := Some (Fin (9 # 10)); fixed_text := None |}
           [reply (lit "5"); reply (filled "b" 200); reply (lit "6");
            reply (filled "c" 400); reply (lit "9")]
           [reply (filled "b" 200); reply (lit "6"); reply (filled "c" 400); reply (lit "9")]
           [reply (lit "6"); reply (filled "c" 400); reply (lit "9")]).
  - vm_compute. reflexivity.
  - reflexivity.
  - vm_compute. reflexivity.
  - vm_compute. reflexivity.
Defined.

(** ** Further properties *)

Lemma parse_failure_report_witness :
  @parse_validation_response ascii_db (lit "no object here") = Ok default_data
  /\ py_get default_data (lit "score") JNull = Ok (JFloat f5)
  /\ py_get default_data (lit "issues") JNull = Ok (JArr [JStr parse_failure_issue]).
Proof.
  apply (@parse_failure_report ascii_db (lit "no object here")).
  - vm_compute. reflexivity.
  - vm_compute. reflexivity.
Defined.

Lemma blank_section_patch_is_skipped_witness :
  @apply_validator_patches ascii_db (lit "Intro")
    (report_with [] [section_patch (lit "  ") (lit "replace") (lit "Hello")])
  = Ok (lit "Intro").
Proof.
  apply (@blank_section_patch_is_skipped ascii_db).
  left. vm_compute. reflexivity.
Defined.

(** A report without patches leaves the text as it is: whatever else the
    report holds, if each of its two lists of patches is missing or empty,
    the text comes back unchanged. *)
Theorem no_patches_no_change `{UnicodeDB} (text : str) (report : dict) :
  dict_get (lit "inline_fixes") report = None
    \/ dict_get (lit "inline_fixes") report = Some (JArr []) ->
  dict_get (lit "section_patches") report = None
    \/ dict_get (lit "section_patches") report = Some (JArr []) ->
  apply_validator_patches text report = Ok text.
Proof.
  intros Hfixes Hpatches. unfold apply_validator_patches. cbn [py_get].
  destruct Hfixes as [-> | ->]; destruct Hpatches as [-> | ->]; reflexivity.
Qed.

Lemma no_patches_no_change_witness :
  @apply_validator_patches ascii_db (lit "Intro")
    [(lit "score", JFloat f5); (lit "inline_fixes", JArr []);
     (lit "issues", JArr [JStr (lit "too short")])]
  = Ok (lit "Intro").
Proof.
  apply (@no_patches_no_change ascii_db).
  - right. vm_compute. reflexivity.
  - left. vm_compute. reflexivity.
Defined.

(** The specification's fourth scenario: an append patch on a text with
    the section adds its content after the body of the section and keeps
    what was there. *)
Example append_patch_keeps_the_section :
  @apply_validator_patches ascii_db
    (lines ["Intro"%string; "SUMMARY"%string; "  First point."%string; "NEXT"%string])
    (report_with [] [section_patch (lit "SUMMARY") (lit "append") (lit "Extra line.")])
  = Ok (lines ["Intro"%string; "SUMMARY"%string; "  First point."%string; ""%string;
               "Extra line."%string; "NEXT"%string]).
Proof. vm_compute. reflexivity. Qed.

(** The local scorer never passes a text: its score is at most 5.0, below
    the bar of 7.0, and a text of fewer than 500 characters gets the issue
    that it is too short. *)
Theorem fallback_scoring_is_below_the_bar (text : str) :
  flt (score (_fallback_scoring text)) f7 = true
  /\ fle (score (_fallback_scoring text)) f5 = true
  /\ is_valid (_fallback_scoring text) = false
  /\ ((py_len_str text <? 500) = true ->
      In (lit "Текст слишком короткий") (issues (_fallback_scoring text))).
Proof.
  unfold _fallback_scoring. cbn [score is_valid issues].
  destruct (py_len_str text <? 500);
    destruct (length (filter (fun c => (127 < c)%N) text) <? 10)%nat;
    destruct (negb (str_contains [glowing_star] text));
    (split; [vm_compute; reflexivity|]);
    (split; [vm_compute; reflexivity|]);
    (split; [vm_compute; reflexivity|]);
    intros Hshort; try discriminate Hshort; by left.
Qed.

(** [parse_validation_response] returns normally exactly when what the two
    parses leave is a [dict]: the critic's object, or the default report when
    both parses fail.  On any other JSON value it raises. *)
Theorem parse_validation_response_returns_iff `{UnicodeDB} (content : str) :
  (returns (parse_validation_response content) <->
   exists loaded, load_data content = JObj loaded)
  /\ ((forall fields, load_data content <> JObj fields) ->
      parse_validation_response content = Raise TypeError
      \/ parse_validation_response content = Raise AttributeError).
Proof.
  split; [apply parse_returns_when_dict|].
  intros Hother. unfold parse_validation_response, _coerce_numbers.
  assert (forall ks,
            foldl (fun acc k => d ← acc; coerce_field d k) (Ok (load_data content)) ks
            = Ok (load_data content)
            \/ foldl (fun acc k => d ← acc; coerce_field d k) (Ok (load_data content)) ks
               = Raise TypeError) as Hfold.
  { intros ks. induction ks as [|k ks IH] using rev_ind; [by left|].
    rewrite foldl_snoc. destruct IH as [->| ->]; [|by right].
    cbn [mbind res_bind]. unfold coerce_field.
    destruct (load_data content) as [| | | | s |items|fields];
      cbn [py_in mbind res_bind]; try (by right).
    - destruct (str_contains k s); [by right|by left].
    - destruct (existsb _ items); [by right|by left].
    - by destruct (Hother fields). }
  destruct (Hfold _NUMBER_FIELDS) as [->| ->]; [|by left].
  cbn [mbind res_bind].
  destruct (load_data content) as [| | | | s |items|fields]; try (by right).
  by destruct (Hother fields).
Qed.

Lemma parse_validation_response_returns_iff_witness :
  @parse_validation_response ascii_db (lit "[1, 2]") = Raise TypeError
  \/ @parse_validation_response ascii_db (lit "[1, 2]") = Raise AttributeError.
Proof.
  apply (@parse_validation_response_returns_iff ascii_db (lit "[1, 2]")).
  intros fields. vm_compute. discriminate.
Defined.

(** ** The requirements check *)

Section RequirementsProperties.
Context `{UnicodeDB}.

Lemma check_metrics_all_met (report : dict) (requirements : dict)
    (passed failed : list str) :
  Forall (meets report) requirements ->
  check_metrics report (passed, failed) requirements
  = Return (passed ++ List.map fst requirements, failed).
Proof.
  revert passed. induction requirements as [|[metric required] rest IH]; intros passed Hall.
  - cbn [check_metrics List.map]. by rewrite app_nil_r.
  - apply Forall_cons in Hall. destruct Hall as [(cur & Hcur & Hge) Hall].
    cbn [fst snd] in Hcur, Hge.
    cbn [check_metrics check_metric]. rewrite Hcur. cbn [mbind outcome_bind].
    rewrite Hge. cbn [mbind outcome_bind].
    rewrite IH by exact Hall. cbn [List.map fst]. by rewrite <- app_assoc.
Qed.

Lemma check_metrics_none_failed (report : dict) (requirements : dict)
    (passed failed passed' : list str) :
  check_metrics report (passed, failed) requirements = Return (passed', []) ->
  failed = [] /\ Forall (meets report) requirements.
Proof.
  revert passed failed.
  induction requirements as [|[metric required] rest IH]; intros passed failed Hret.
  - cbn [check_metrics] in Hret. injection Hret as _ ->. by split.
  - cbn [check_metrics check_metric] in Hret.
    destruct (float_of (default (JFloat f0) (dict_get metric report)))
      as [cur|e] eqn:Hcur; cbn [mbind outcome_bind] in Hret; [|discriminate].
    destruct (float_ge cur required) as [[|]|e] eqn:Hge;
      cbn [mbind outcome_bind] in Hret; [| |discriminate].
    + destruct (IH _ _ Hret) as [-> Hrest]. split; [reflexivity|].
      apply Forall_cons. split; [|exact Hrest]. by exists cur.
    + destruct (IH _ _ Hret) as [Hnil _]. by destruct failed.
Qed.

Lemma check_metrics_raises (report : dict) (requirements : dict)
    (lists : list str * list str) (metric : str) (required : json) (e : failure) :
  In (metric, required) requirements ->
  float_of (default (JFloat f0) (dict_get metric report)) = Throw e ->
  exists e', check_metrics report lists requirements = Throw e'.
Proof.
  revert lists. induction requirements as [|item rest IH]; intros lists Hin Hthrow; [done|].
  cbn [check_metrics].
  destruct (check_metric report lists item) as [lists'|e'] eqn:Hitem;
    cbn [mbind outcome_bind]; [|by exists e'].
  destruct Hin as [->|Hin]; [|by apply IH].
  destruct lists as [passed failed]. cbn [check_metric] in Hitem.
  rewrite Hthrow in Hitem. discriminate.
Qed.

Lemma check_metrics_returns (report : dict) (requirements : dict)
    (lists : list str * list str) :
  Forall (fun item => exists x required,
            default (JFloat f0) (dict_get (fst item) report) = JFloat x
            /\ snd item = JFloat required) requirements ->
  exists lists', check_metrics report lists requirements = Return lists'.
Proof.
  revert lists. induction requirements as [|[metric required] rest IH]; intros lists Hall.
  - by eexists.
  - apply Forall_cons in Hall. destruct Hall as [(x & r & Hx & Hr) Hall].
    cbn [fst snd] in Hx, Hr. subst required.
    destruct lists as [passed failed].
    cbn [check_metrics check_metric]. rewrite Hx.
    cbn [float_of float_ge mbind outcome_bind].
    destruct (fge x r); cbn [mbind outcome_bind]; by apply IH.
Qed.

Lemma is_critical_false (issue : json) :
  is_critical issue = Ok false <->
  exists fields, issue = JObj fields
    /\ dict_get (lit "severity") fields <> Some (JStr (lit "CRITICAL")).
Proof.
  unfold is_critical. split.
  - destruct issue as [| | | | |items|fields]; try discriminate.
    cbn [py_get mbind res_bind]. intros Hfalse. exists fields. split; [reflexivity|].
    intros Hget. rewrite Hget in Hfalse. cbn [from_option id] in Hfalse.
    by rewrite str_eqb_refl in Hfalse.
  - intros (fields & -> & Hsev). cbn [py_get mbind res_bind].
    destruct (dict_get (lit "severity") fields) as [[| | | |s| |]|]; try reflexivity.
    cbn [from_option id]. f_equal. apply str_eqb_neq. intros ->. by apply Hsev.
Qed.

Lemma critical_issues_none (blocking_issues : list json) :
  critical_issues blocking_issues = Ok [] <->
  Forall (fun issue => is_critical issue = Ok false) blocking_issues.
Proof.
  induction blocking_issues as [|issue rest IH]; [by split|].
  cbn [critical_issues]. rewrite Forall_cons. split.
  - destruct (is_critical issue) as [[|]|e]; cbn [mbind res_bind]; try discriminate;
      destruct (critical_issues rest) as [others|e]; cbn [mbind res_bind];
      try discriminate.
    intros [= ->]. split; [reflexivity|]. by apply IH.
  - intros [-> Hrest]. apply IH in Hrest. rewrite Hrest. reflexivity.
Qed.

Lemma critical_issues_of_dicts (blocking_issues : list json) :
  Forall (fun issue => exists fields, issue = JObj fields) blocking_issues ->
  exists critical, critical_issues blocking_issues = Ok critical.
Proof.
  induction 1 as [|issue rest [fields ->] _ [critical IH]]; [by eexists|].
  cbn [critical_issues is_critical py_get mbind res_bind]. rewrite IH.
  cbn [mbind res_bind]. by eexists.
Qed.

Lemma default_requirement_met (report : dict) (metric : str) (required : pyfloat) :
  In (metric, JFloat required) default_requirements ->
  meets report (metric, JFloat required) <->
  exists v x, dict_get metric report = Some v /\ float_of v = Return x
              /\ fge x required = true.
Proof.
  intros Hin. unfold meets. cbn [fst snd]. split.
  - intros (cur & Hcur & Hge). cbn [float_ge] in Hge. injection Hge as Hge.
    destruct (dict_get metric report) as [v|]; [by exists v, cur|].
    cbn [from_option id float_of] in Hcur. injection Hcur as <-.
    exfalso. cbn [default_requirements In] in Hin.
    destruct Hin as [Hin|[Hin|[Hin|[Hin|[Hin|[]]]]]];
      injection Hin as _ <-; vm_compute in Hge; discriminate.
  - intros (v & x & -> & Hx & Hge). exists x. cbn [from_option id float_ge].
    by rewrite Hx, Hge.
Qed.
End RequirementsProperties.

(** What it takes to pass, for any requirements in force. *)
Lemma check_passes_iff `{UnicodeDB} (report : dict) (given : option dict)
    (requirements : dict) :
  match given with
  | Some ((_ :: _) as own) => own
  | _ => default_requirements
  end = requirements ->
  check_score_requirements report given = Return true <->
  Forall (meets report) requirements
  /\ exists blocking_issues,
       py_iter (default (JArr []) (dict_get (lit "blocking_issues") report))
       = Ok blocking_issues
       /\ forall issue, In issue blocking_issues ->
            exists fields, issue = JObj fields
              /\ dict_get (lit "severity") fields <> Some (JStr (lit "CRITICAL")).
Proof.
  intros Hforce.
  assert (forall blocking_issues,
            Forall (fun issue => is_critical issue = Ok false) blocking_issues <->
            forall issue, In issue blocking_issues ->
              exists fields, issue = JObj fields
                /\ dict_get (lit "severity") fields <> Some (JStr (lit "CRITICAL")))
    as Hcrit.
  { intros blocking_issues. rewrite Forall_forall. split.
    - intros Hall issue Hin. apply is_critical_false, Hall. by apply list_elem_of_In.
    - intros Hall issue Hin%list_elem_of_In. by apply is_critical_false, Hall. }
  unfold check_score_requirements. rewrite Hforce. cbn [py_get of_res]. split.
  - intros Hpass.
    destruct (check_metrics report ([], []) requirements)
      as [[passed failed]|e] eqn:Hmetrics; cbn [mbind outcome_bind] in Hpass;
      [|discriminate].
    destruct (py_iter (default (JArr []) (dict_get (lit "blocking_issues") report)))
      as [blocking_issues|e] eqn:Hiter; cbn [of_res mbind outcome_bind] in Hpass;
      [|discriminate].
    destruct (critical_issues blocking_issues) as [critical|e] eqn:Hcritical;
      cbn [of_res mbind outcome_bind] in Hpass; [|discriminate].
    injection Hpass as Hpass. apply andb_true_iff in Hpass. destruct Hpass as [Hf Hc].
    destruct failed; [|discriminate]. destruct critical; [|discriminate].
    split.
    + by destruct (check_metrics_none_failed _ _ _ _ _ Hmetrics).
    + exists blocking_issues. split; [reflexivity|].
      by apply Hcrit, critical_issues_none.
  - intros [Hall (blocking_issues & Hiter & Hnone)].
    rewrite (check_metrics_all_met _ _ _ _ Hall). cbn [mbind outcome_bind].
    rewrite Hiter. cbn [of_res mbind outcome_bind].
    apply Hcrit, critical_issues_none in Hnone. rewrite Hnone. reflexivity.
Qed.

(** [check_score_requirements] returns [True] exactly when every
    requirement in force is met and the blocking issues of the report, if it
    has any, are dicts none of which has the severity [CRITICAL].  With no
    requirements given, the report has to have each of the five metrics with
    a value that [float] converts to at least the required score: 7.0 for the
    score, the content and the language, 7.5 for the structure, 8.0 for the
    formatting; a metric that is missing counts as 0.0 and fails.  With
    requirements of the caller's own, each of them has to be met, the
    required score being a float, an [int] or a [bool].  Requirements that
    are an empty dict waive nothing: the default ones are checked in their
    place. *)
Theorem check_score_requirements_passes_iff `{UnicodeDB} (report : dict) :
  let clear_of_critical_issues :=
    exists blocking_issues,
      py_iter (default (JArr []) (dict_get (lit "blocking_issues") report))
      = Ok blocking_issues
      /\ forall issue, In issue blocking_issues ->
           exists fields, issue = JObj fields
             /\ dict_get (lit "severity") fields <> Some (JStr (lit "CRITICAL")) in
  (check_score_requirements report None = Return true <->
   (forall metric required, In (metric, JFloat required) default_requirements ->
      exists v x, dict_get metric report = Some v /\ float_of v = Return x
                  /\ fge x required = true)
   /\ clear_of_critical_issues)
  /\ (forall first others,
        check_score_requirements report (Some (first :: others)) = Return true <->
        Forall (meets report) (first :: others) /\ clear_of_critical_issues)
  /\ check_score_requirements report (Some []) = check_score_requirements report None.
Proof.
  cbv zeta. split; [|split; [|reflexivity]].
  - assert (Forall (meets report) default_requirements <->
            forall metric required, In (metric, JFloat required) default_requirements ->
              exists v x, dict_get metric report = Some v /\ float_of v = Return x
                          /\ fge x required = true) as Hmet.
    { rewrite Forall_forall. split.
      - intros Hall metric required Hin.
        apply default_requirement_met; [exact Hin|]. apply Hall. by apply list_elem_of_In.
      - intros Hall [metric required] Hin%list_elem_of_In.
        assert (exists r, required = JFloat r) as [r ->].
        { cbn [default_requirements In] in Hin.
          destruct Hin as [Hin|[Hin|[Hin|[Hin|[Hin|[]]]]]];
            injection Hin as _ <-; by eexists. }
        apply default_requirement_met; [exact Hin|]. by apply Hall. }
    rewrite <- Hmet. by apply check_passes_iff.
  - intros first others. by apply check_passes_iff.
Qed.

(** A metric of the default requirements that the report has with a value
    that [float] does not convert ([None], a list, a dict, a string that is
    no number, an [int] beyond the floats) makes the check raise; it is not
    counted as failed. *)
Theorem check_score_requirements_raises `{UnicodeDB} (report : dict)
    (metric : str) (required v : json) (e : failure) :
  In (metric, required) default_requirements ->
  dict_get metric report = Some v ->
  float_of v = Throw e ->
  exists e', check_score_requirements report None = Throw e'.
Proof.
  intros Hin Hget Hthrow. unfold check_score_requirements.
  destruct (check_metrics_raises report default_requirements ([], []) metric required e)
    as [e' ->]; [exact Hin|by rewrite Hget|]. by exists e'.
Qed.

Lemma check_score_requirements_raises_witness :
  exists e',
    @check_score_requirements ascii_db [(lit "score", JNull); (lit "content", JInt 9)] None
    = Throw e'.
Proof.
  apply (@check_score_requirements_raises ascii_db
           [(lit "score", JNull); (lit "content", JInt 9)]
           (lit "score") (JFloat f7) JNull (Builtin TypeError)).
  - left. reflexivity.
  - vm_compute. reflexivity.
  - reflexivity.
Defined.

(** A report that [parse_validation_response] returned can be checked: if
    its blocking issues, when it has any, are a list of dicts, the check
    against the default requirements returns and does not raise, whatever
    the critic wrote for the metrics. *)
Theorem parsed_report_is_checked `{UnicodeDB} (content : str) (report : dict)
    (blocking_issues : list json) :
  parse_validation_response content = Ok (JObj report) ->
  default (JArr []) (dict_get (lit "blocking_issues") report) = JArr blocking_issues ->
  Forall (fun issue => exists fields, issue = JObj fields) blocking_issues ->
  exists passed, check_score_requirements report None = Return passed.
Proof.
  intros Hparse Hblocking Hdicts.
  assert (returns (parse_validation_response content)) as Hret by (by rewrite Hparse).
  apply parse_returns_when_dict in Hret. destruct Hret as [loaded Hl].
  pose proof (parse_on_dict _ _ Hl) as Hdict.
  remember (foldl coerce_in_dict loaded _NUMBER_FIELDS) as coerced eqn:Ecoerced.
  rewrite Hdict in Hparse. injection Hparse as <-.
  unfold check_score_requirements.
  destruct (check_metrics_returns
              (dict_setdefault (lit "suggestions") (JArr [])
                 (dict_setdefault (lit "issues") (JArr []) coerced))
              default_requirements ([], [])) as [[passed failed] ->].
  { rewrite Forall_forall. intros [metric required] Hin%list_elem_of_In.
    cbn [fst snd].
    assert (In metric _NUMBER_FIELDS /\ exists r, required = JFloat r) as [Hnum [r ->]].
    { cbn [default_requirements In] in Hin.
      destruct Hin as [Hin|[Hin|[Hin|[Hin|[Hin|[]]]]]];
        injection Hin as <- <-; (split; [|by eexists]); cbn [_NUMBER_FIELDS In]; auto 6. }
    assert (metric <> lit "issues" /\ metric <> lit "suggestions") as [Hi Hs].
    { cbn [_NUMBER_FIELDS In] in Hnum.
      destruct Hnum as [<-|[<-|[<-|[<-|[<-|[]]]]]]; split; vm_compute; discriminate. }
    rewrite !dict_get_setdefault_other by done. subst coerced.
    rewrite coerce_fold_get by apply number_fields_nodup.
    rewrite bool_decide_eq_true_2 by (by apply list_elem_of_In).
    destruct (dict_get metric loaded); cbn [fmap option_fmap option_map from_option id];
      by eexists _, _. }
  cbn [mbind outcome_bind py_get of_res]. rewrite Hblocking.
  cbn [py_iter of_res mbind outcome_bind].
  destruct (critical_issues_of_dicts _ Hdicts) as [critical ->].
  cbn [of_res mbind outcome_bind]. by eexists.
Qed.

Lemma parsed_report_is_checked_witness :
  exists passed,
    @check_score_requirements ascii_db
      [(lit "score", JFloat (Fin 9)); (lit "structure", JFloat f0);
       (lit "issues", JArr []); (lit "suggestions", JArr [])] None
    = Return passed.
Proof.
  apply (@parsed_report_is_checked ascii_db
           (lit "{" ++ quoted "score" ++ lit ": 9, " ++ quoted "structure"
            ++ lit ": null}") _ []).
  - vm_compute. reflexivity.
  - vm_compute. reflexivity.
  - constructor.
Defined.

(** A reply that cannot be parsed is harmless downstream: the report
    returned for it carries no patch, so applying it leaves any text as it
    is, and it does not pass the default requirements. *)
Theorem parse_failure_is_inert `{UnicodeDB} (content text : str) :
  let candidate :=
    _extract_json_block (str_replace [9%N] [32%N] (str_replace [13%N] [32%N] content)) in
  json_loads candidate = None ->
  json_loads (repair candidate) = None ->
  exists report,
    parse_validation_response content = Ok (JObj report)
    /\ apply_validator_patches text report = Ok text
    /\ check_score_requirements report None = Return false.
Proof.
  intros candidate H1 H2.
  assert (load_data content = default_data) as Hl.
  { unfold load_data. fold candidate. by rewrite H1, H2. }
  eexists. split; [|split].
  - rewrite (parse_on_dict content _ Hl). vm_compute foldl. reflexivity.
  - vm_compute. reflexivity.
  - vm_compute. reflexivity.
Qed.

Lemma parse_failure_is_inert_witness :
  exists report,
    @parse_validation_response ascii_db (lit "no object here") = Ok (JObj report)
    /\ @apply_validator_patches ascii_db (lit "Intro") report = Ok (lit "Intro")
    /\ @check_score_requirements ascii_db report None = Return false.
Proof.
  apply (@parse_failure_is_inert ascii_db (lit "no object here") (lit "Intro")).
  - vm_compute. reflexivity.
  - vm_compute. reflexivity.
Defined.

(** ** Patch lists of the wrong kind *)

(** The two patch lists are not treated alike.  An [inline_fixes] that is
    [None], a [bool] or a number is iterated and raises [TypeError]; a
    [section_patches] that is [None] or any other false value is skipped, and
    the result is that of the inline fixes alone. *)
Theorem patch_lists_of_the_wrong_kind `{UnicodeDB} (text : str) (report : dict) :
  (forall v, dict_get (lit "inline_fixes") report = Some v ->
     (forall items, v <> JArr items) -> (forall s, v <> JStr s) ->
     (forall fields, v <> JObj fields) ->
     apply_validator_patches text report = Raise TypeError)
  /\ (forall v fixes, dict_get (lit "section_patches") report = Some v ->
        truthy v = false ->
        py_iter (default (JArr []) (dict_get (lit "inline_fixes") report)) = Ok fixes ->
        apply_validator_patches text report = apply_inline_fixes text fixes).
Proof.
  unfold apply_validator_patches. cbn [py_get mbind res_bind]. split.
  - intros v -> Harr Hstr Hobj. cbn [from_option id].
    destruct v as [| | | |s|items|fields]; try reflexivity.
    + by destruct (Hstr s).
    + by destruct (Harr items).
    + by destruct (Hobj fields).
  - intros v fixes -> Hfalse ->. cbn [from_option id mbind res_bind].
    rewrite Hfalse. by destruct (apply_inline_fixes text fixes).
Qed.

Lemma patch_lists_of_the_wrong_kind_witness :
  @apply_validator_patches ascii_db (lit "Intro") [(lit "inline_fixes", JNull)]
  = Raise TypeError
  /\ @apply_validator_patches ascii_db (lit "Intro")
       [(lit "inline_fixes", JArr [inline_fix (lit "Intro") (lit "Outro")]);
        (lit "section_patches", JNull)]
     = apply_inline_fixes (lit "Intro") [inline_fix (lit "Intro") (lit "Outro")].
Proof.
  split.
  - apply (proj1 (@patch_lists_of_the_wrong_kind ascii_db (lit "Intro")
                    [(lit "inline_fixes", JNull)]) JNull).
    + vm_compute. reflexivity.
    + discriminate.
    + discriminate.
    + discriminate.
  - apply (proj2 (@patch_lists_of_the_wrong_kind ascii_db (lit "Intro")
                    [(lit "inline_fixes", JArr [inline_fix (lit "Intro") (lit "Outro")]);
                     (lit "section_patches", JNull)]) JNull).
    + vm_compute. reflexivity.
    + reflexivity.
    + vm_compute. reflexivity.
Defined.

(** ** Patches without a backslash *)

Section PlainTemplates.
Context `{UnicodeDB}.

(** A replacement without a backslash is a template of literals. *)
Lemma parse_template_from_plain (fuel : nat) (s : str) :
  (length s <= fuel)%nat -> ~ In backslash s ->
  parse_template_from fuel s = Ok (List.map TLit s).
Proof.
  revert s. induction fuel as [|fuel IH]; intros s Hlen Hplain.
  - destruct s; [reflexivity|simpl in Hlen; lia].
  - destruct s as [|c s]; [reflexivity|].
    cbn [parse_template_from].
    assert ((c =? backslash)%N = false) as ->.
    { apply N.eqb_neq. intros ->. apply Hplain. by left. }
    cbn [negb]. rewrite IH; [reflexivity|simpl in Hlen; lia|].
    intros Hin. apply Hplain. by right.
Qed.

Lemma expand_template_plain (s whole : str) :
  expand_template (List.map TLit s) whole = s.
Proof.
  unfold expand_template. induction s as [|c s IH]; [reflexivity|].
  cbn [List.map flat_map]. by rewrite IH.
Qed.

(** [re.sub] with a replacement without a backslash puts the replacement
    itself in the place of every match. *)
Lemma re_sub_plain (r : regex) (repl s : str) :
  ~ In backslash repl ->
  re_sub r repl s = Ok (re_sub_with r (fun _ => repl) s).
Proof.
  intros Hplain. unfold re_sub, parse_template.
  rewrite parse_template_from_plain by (lia || exact Hplain).
  cbn [mbind res_bind]. f_equal. unfold re_sub_with.
  generalize (2 * length s + 2)%nat as fuel. generalize false as must_advance.
  generalize (@None char) as prev. revert s.
  intros s prev must_advance fuel. revert s prev must_advance.
  induction fuel as [|fuel IH]; intros s prev must_advance; [reflexivity|].
  cbn [sub_from]. destruct (re_search_from r must_advance [] prev s) as [m|]; [|reflexivity].
  by rewrite expand_template_plain, IH.
Qed.

Lemma in_lstrip_by (p : char -> bool) (c : char) (s : str) :
  In c (lstrip_by p s) -> In c s.
Proof.
  destruct (lstrip_by_split p s) as [w [Hs _]]. intros Hin.
  rewrite Hs. apply in_or_app. by right.
Qed.

Lemma in_strip_by (p : char -> bool) (c : char) (s : str) :
  In c (strip_by p s) -> In c s.
Proof.
  unfold strip_by. intros Hin. apply (in_lstrip_by p).
  destruct (rstrip_by_split p (lstrip_by p s)) as [w [Hs _]].
  rewrite Hs. apply in_or_app. by left.
Qed.

(** A section patch with string fields and no backslash in its content is
    applied without an exception. *)
Lemma apply_section_patch_plain (text title action content : str) :
  ~ In backslash content ->
  returns (apply_section_patch text (section_patch title action content)).
Proof.
  intros Hplain. rewrite apply_section_patch_strings. cbv zeta.
  destruct (_ || _); [exact I|].
  assert (returns (replace_section text (str_strip title) (str_strip content))) as Hrepl.
  { unfold replace_section. rewrite re_sub_plain; [exact I|].
    intros [Hin|[Hin|[]]]%in_app_or; [|discriminate Hin].
    apply Hplain. by apply (in_strip_by is_space). }
  destruct (_ || _); destruct (find_section _ _ =? -1); try exact I. exact Hrepl.
Qed.
End PlainTemplates.

(** The engine raises on patches with string fields only through a
    backslash in the content of a section patch: a report whose inline fixes
    and section patches have string fields, with no backslash in any content,
    is applied to any text without an exception. *)
Theorem patches_without_backslash_are_applied `{UnicodeDB} (text : str)
    (fixes : list (str * str)) (patches : list (str * str * str)) :
  Forall (fun p => ~ In backslash (snd p)) patches ->
  exists patched,
    apply_validator_patches text
      (report_with
         (List.map (fun fx => inline_fix (fst fx) (snd fx)) fixes)
         (List.map (fun p => section_patch (fst (fst p)) (snd (fst p)) (snd p))
            patches))
    = Ok patched.
Proof.
  intros Hplain.
  match goal with |- exists patched, ?applied = Ok patched =>
    assert (returns applied) as Hret;
    [|destruct applied as [patched|e]; [by exists patched|destruct Hret]] end.
  unfold apply_validator_patches.
  rewrite report_inline_fixes, report_section_patches.
  cbn [mbind res_bind py_iter]. rewrite inline_fixes_fold. cbn [mbind res_bind].
  match goal with |- context [Ok (foldl ?f text fixes)] =>
    generalize (foldl f text fixes) end.
  intros text'. destruct (truthy _); [|exact I].
  cbn [py_len mbind res_bind].
  revert text'. induction Hplain as [|[[title action] content] rest Hp _ IH]; intros text'.
  - exact I.
  - cbn [List.map apply_section_patches fst snd].
    pose proof (apply_section_patch_plain text' title action content Hp) as Hret.
    destruct (apply_section_patch text' (section_patch title action content));
      [|destruct Hret].
    cbn [mbind res_bind]. apply IH.
Qed.

Lemma patches_without_backslash_are_applied_witness :
  exists patched,
    @apply_validator_patches ascii_db (lines ["SUMMARY"%string; " old"%string])
      (report_with
         (List.map (fun fx => inline_fix (fst fx) (snd fx)) [(lit "old", lit "new")])
         (List.map (fun p => section_patch (fst (fst p)) (snd (fst p)) (snd p))
            [(lit "SUMMARY", lit "replace", lit "a/d")]))
    = Ok patched.
Proof.
  apply (@patches_without_backslash_are_applied ascii_db).
  repeat constructor. cbn [snd]. vm_compute. intros [Hc|[Hc|[Hc|[]]]]; discriminate Hc.
Defined.

(** ** The extraction of the JSON block *)

Lemma brace_depth_app (s t : str) : brace_depth (s ++ t) = brace_depth s + brace_depth t.
Proof.
  unfold brace_depth. induction s as [|c s IH]; [reflexivity|].
  cbn [app fold_right]. rewrite IH. lia.
Qed.

Lemma brace_depth_cons (c : char) (s : str) :
  brace_depth (c :: s) = brace_delta c + brace_depth s.
Proof. reflexivity. Qed.

(** The scan returns the block at the first closing brace that brings the
    nesting back to zero. *)
Lemma balanced_block_scan (s after acc : str) (depth : Z) :
  0 < depth -> s <> [] ->
  depth + brace_depth s = 0 ->
  (forall before rest, s = before ++ rest -> before <> [] -> rest <> [] ->
     0 < depth + brace_depth before) ->
  balanced_block depth acc (s ++ after) = Some (rev acc ++ s).
Proof.
  revert acc depth. induction s as [|c s IH]; intros acc depth Hpos Hne Hend Hopen; [done|].
  rewrite brace_depth_cons in Hend.
  destruct s as [|c' s].
  - (* the last character closes the block *)
    cbn [app balanced_block]. unfold brace_delta in Hend. cbn [brace_depth fold_right] in Hend.
    destruct (c =? 123)%N; [lia|]. destruct (c =? 125)%N; [|lia].
    assert ((depth - 1 =? 0) = true) as -> by lia.
    reflexivity.
  - assert (0 < depth + brace_delta c) as Hnext.
    { specialize (Hopen [c] (c' :: s) eq_refl).
      rewrite brace_depth_cons in Hopen. cbn [brace_depth fold_right] in Hopen.
      rewrite Z.add_0_r in Hopen. by apply Hopen. }
    assert (balanced_block (depth + brace_delta c) (c :: acc) ((c' :: s) ++ after)
            = Some (rev (c :: acc) ++ c' :: s)) as Hrest.
    { apply IH; [exact Hnext|done|lia|].
      intros before rest Hs Hb Hr.
      specialize (Hopen (c :: before) rest). rewrite brace_depth_cons in Hopen.
      rewrite <- Z.add_assoc. apply Hopen; [by rewrite Hs|done|exact Hr]. }
    cbn [rev] in Hrest. rewrite <- app_assoc in Hrest. cbn [app] in Hrest.
    change ((c :: c' :: s) ++ after) with (c :: (c' :: s) ++ after).
    cbn [balanced_block]. unfold brace_delta in Hnext, Hrest.
    destruct (c =? 123)%N; [exact Hrest|].
    destruct (c =? 125)%N.
    + assert ((depth - 1 =? 0) = false) as -> by lia.
      replace (depth - 1) with (depth + -1) by lia. exact Hrest.
    + by rewrite Z.add_0_r in Hrest.
Qed.

Lemma from_first_brace_skip (before rest : str) :
  ~ In 123%N before ->
  from_first_brace (before ++ 123%N :: rest) = Some (123%N :: rest).
Proof.
  intros Hno. induction before as [|c before IH]; [reflexivity|].
  cbn [app from_first_brace].
  assert ((c =? 123)%N = false) as ->.
  { apply N.eqb_neq. intros ->. apply Hno. by left. }
  apply IH. intros Hin. apply Hno. by right.
Qed.

Lemma extract_first_balanced (text before block after : str) :
  str_strip text = before ++ block ++ after ->
  ~ In 123%N before ->
  balanced block ->
  _extract_json_block text = block.
Proof.
  intros Htext Hbefore ([rest ->] & Hend & Hopen).
  unfold _extract_json_block. rewrite Htext.
  change ((123%N :: rest) ++ after) with (123%N :: rest ++ after).
  rewrite (from_first_brace_skip before (rest ++ after) Hbefore).
  cbn [mbind option_bind balanced_block]. change (123 =? 123)%N with true. cbv iota.
  rewrite brace_depth_cons in Hend. change (brace_delta 123) with 1 in Hend.
  change (0 + 1) with 1.
  rewrite (balanced_block_scan rest after [123%N] 1); [reflexivity|lia| |lia|].
  - intros ->. cbn [brace_depth fold_right] in Hend. lia.
  - intros b r Hs Hb Hr.
    specialize (Hopen (123%N :: b) r). rewrite brace_depth_cons in Hopen.
    change (brace_delta 123) with 1 in Hopen.
    apply Hopen; [by rewrite Hs|done|exact Hr].
Qed.

(** [_extract_json_block] returns the first balanced block of the text:
    if the text, stripped of surrounding whitespace, has no opening brace
    before a block that starts with an opening brace and ends with the
    closing brace that balances it, the block is what is returned, whatever
    precedes and follows it.  Braces are counted wherever they stand, in
    string values too. *)
Theorem extract_json_block_is_the_first_balanced_block (text before block after : str) :
  str_strip text = before ++ block ++ after ->
  ~ In 123%N before ->
  balanced block ->
  _extract_json_block text = block.
Proof. apply extract_first_balanced. Qed.

Lemma extract_json_block_is_the_first_balanced_block_witness :
  _extract_json_block (lit "Result: {a{b}c} and {d}") = lit "{a{b}c}".
Proof.
  apply (extract_json_block_is_the_first_balanced_block
           (lit "Result: {a{b}c} and {d}") (lit "Result: ") (lit "{a{b}c}") (lit " and {d}")).
  - vm_compute. reflexivity.
  - vm_compute. intros Hin. repeat (destruct Hin as [Hin|Hin]; [discriminate Hin|]).
    exact Hin.
  - split; [by eexists|]. split; [vm_compute; reflexivity|].
    intros b a Hblock Hb Ha.
    assert (exists n, (0 < n < 7)%nat /\ b = take n (lit "{a{b}c}")) as (n & Hn & ->).
    { exists (length b). split.
      - apply (f_equal (@length N)) in Hblock. rewrite length_app in Hblock.
        destruct b; [done|]. destruct a; [done|].
        change (length (lit "{a{b}c}")) with 7%nat in Hblock. simpl in Hblock |- *. lia.
      - rewrite Hblock. by rewrite take_app_length. }
    destruct n as [|[|[|[|[|[|[|n]]]]]]]; try lia; vm_compute; reflexivity.
Defined.

(** ** Normalising a report twice *)

Lemma dict_set_same (k : str) (v : json) (d : dict) :
  dict_get k d = Some v -> dict_set k v d = d.
Proof.
  induction d as [|[k' v'] d IH]; [discriminate|].
  cbn [dict_get dict_set]. destruct (str_eqb k' k); [by intros [= ->]|].
  intros Hget. by rewrite IH.
Qed.

Section CoercionProperties.
Context `{UnicodeDB}.

(** A number field that is absent or a float is left as it is. *)
Lemma coerce_in_dict_float (fields : dict) (k : str) :
  (forall v, dict_get k fields = Some v -> exists x, v = JFloat x) ->
  coerce_in_dict fields k = fields.
Proof.
  intros Hfloat. unfold coerce_in_dict, dict_mem.
  destruct (dict_get k fields) as [v|] eqn:Hget; [|reflexivity].
  destruct (Hfloat v eq_refl) as [x ->]. cbn [from_option id _to_float].
  by apply dict_set_same.
Qed.

Lemma coerce_fold_floats (ks : list str) (fields : dict) :
  (forall k v, In k ks -> dict_get k fields = Some v -> exists x, v = JFloat x) ->
  foldl coerce_in_dict fields ks = fields.
Proof.
  induction ks as [|k ks IH]; intros Hfloat; [reflexivity|].
  cbn [foldl]. rewrite coerce_in_dict_float.
  - apply IH. intros k' v Hin. apply Hfloat. by right.
  - intros v. apply Hfloat. by left.
Qed.
End CoercionProperties.

(** [_coerce_numbers] is idempotent: what it returns is an object that it
    leaves as it is, so a report that went through it, as every report of
    [parse_validation_response] has, is not changed by a second pass. *)
Theorem coerce_numbers_twice `{UnicodeDB} (d d' : json) :
  _coerce_numbers d = Ok d' -> _coerce_numbers d' = Ok d'.
Proof.
  intros Hfirst.
  assert ((exists fields, d = JObj fields) \/ forall fields, d <> JObj fields) as [[fields ->]|Hother].
  { destruct d; try (right; discriminate). left. by eexists. }
  - rewrite coerce_numbers_dict in Hfirst.
    remember (foldl coerce_in_dict fields _NUMBER_FIELDS) as coerced eqn:Ecoerced.
    injection Hfirst as <-. rewrite coerce_numbers_dict. do 2 f_equal.
    apply coerce_fold_floats. intros k v Hin. subst coerced.
    rewrite coerce_fold_get by apply number_fields_nodup.
    rewrite bool_decide_eq_true_2 by (by apply list_elem_of_In).
    destruct (dict_get k fields); [|discriminate].
    intros [= <-]. by eexists.
  - unfold _coerce_numbers in *.
    destruct (coerce_numbers_other d _NUMBER_FIELDS Hother) as [Hsame|[e He]].
    + rewrite Hsame in Hfirst. injection Hfirst as <-. exact Hsame.
    + rewrite He in Hfirst. discriminate.
Qed.

Lemma coerce_numbers_twice_witness :
  @_coerce_numbers ascii_db
    (JObj [(lit "score", JFloat (Fin (19 # 2))); (lit "content", JFloat f0);
           (lit "issues", JNull)])
  = Ok (JObj [(lit "score", JFloat (Fin (19 # 2))); (lit "content", JFloat f0);
              (lit "issues", JNull)]).
Proof.
  apply (@coerce_numbers_twice ascii_db
           (JObj [(lit "score", JStr (lit " 9.5 ")); (lit "content", JArr []);
                  (lit "issues", JNull)])).
  vm_compute. reflexivity.
Defined.

(** ** Similarity and the mode selector together *)

(** A candidate with the same words as the text it replaces forces the
    hard mode: the similarity of the two is 1.0, above the bound of 0.95,
    whatever the iteration and the scores. *)
Theorem same_words_force_the_hard_mode `{UnicodeDB} (text1 text2 : str)
    (iteration : Z) (current_score prev_score : pyfloat) :
  word_set text1 = word_set text2 ->
  determine_editing_mode iteration current_score prev_score
    (calculate_text_similarity text1 text2) = hard.
Proof.
  intros Hsame. rewrite (similarity_same_words _ _ Hsame).
  unfold determine_editing_mode.
  destruct (_ && _); [reflexivity|].
  change (fgt f1 f0_95) with true. reflexivity.
Qed.

Lemma same_words_force_the_hard_mode_witness :
  determine_editing_mode 1 (Fin 9) (Fin 5)
    (@calculate_text_similarity ascii_db (lit "Hello world") (lit "world  HELLO")) = hard.
Proof.
  apply (@same_words_force_the_hard_mode ascii_db).
  vm_compute. reflexivity.
Defined.

(** ** The critic's verdict *)

Section CriticProperties.
Context `{UnicodeDB} {World : Type}.
Variable api_key : option str.
Variable session_post : payload -> World -> http_outcome * World.

(** What a scoring call returns is one of three results. *)
Lemma validate_and_score_cases (text original_prompt analysis_type : str) (w : World) :
  let v := fst (validate_and_score api_key session_post text original_prompt
                  analysis_type w) in
  v = no_key_result text
  \/ v = api_error_result
  \/ exists s, v = {| score := s; is_valid := fge s f7; issues := []; suggestions := [];
                      confidence := Some (Fin (9 # 10)); fixed_text := None |}.
Proof.
  cbv zeta. unfold validate_and_score.
  destruct (negb (has_api_key api_key)); [by left|].
  destruct (session_post _ w) as [outcome w'].
  repeat match goal with
         | |- context [match ?x with _ => _ end] => destruct x
         end;
    cbn [fst]; first [by right; left | right; right; by eexists].
Qed.

Lemma validate_and_score_no_key (text original_prompt analysis_type : str) (w : World) :
  has_api_key api_key = false ->
  validate_and_score api_key session_post text original_prompt analysis_type w
  = (no_key_result text, w).
Proof. intros Hkey. unfold validate_and_score. by rewrite Hkey. Qed.

Lemma fix_text_no_key (text : str) (target_score : pyfloat) (w : World) :
  has_api_key api_key = false ->
  fix_text_with_claude api_key session_post text target_score w = (text, w).
Proof. intros Hkey. unfold fix_text_with_claude. by rewrite Hkey. Qed.
End CriticProperties.

(** Whatever the service answers, the verdict of [validate_and_score]
    agrees with its score: [is_valid] holds exactly when the score is at
    least 7.0.  The result is either the critic's number with no issue, or,
    when the key is missing, the request fails or the reply is no number,
    the score 5.0 with one issue and the verdict false. *)
Theorem validate_and_score_verdict `{UnicodeDB} {World : Type}
    (api_key : option str) (session_post : payload -> World -> http_outcome * World)
    (text original_prompt analysis_type : str) (w : World) :
  let v := fst (validate_and_score api_key session_post text original_prompt
                  analysis_type w) in
  is_valid v = fge (score v) f7
  /\ ((issues v = [] /\ confidence v = Some (Fin (9 # 10)))
      \/ (score v = f5 /\ is_valid v = false /\ exists issue, issues v = [issue])).
Proof.
  cbv zeta.
  destruct (validate_and_score_cases api_key session_post text original_prompt
              analysis_type w) as [-> | [-> | [s ->]]].
  - split; [reflexivity|]. right. repeat split. by eexists.
  - split; [reflexivity|]. right. repeat split. by eexists.
  - split; [reflexivity|]. by left.
Qed.

(** ** The refinement loop without a key, and the texts it accepts *)

(** No text is shorter than 70% of itself. *)
Lemma not_shorter_than_itself (text : str) :
  int_lt_float (py_len_str text) (int_mul_float (py_len_str text) f0_7) = false.
Proof.
  unfold int_lt_float, int_mul_float, f0_7, flt, py_len_str.
  apply Qlt_bool_false_of_le. rewrite Qred_correct.
  unfold Qle, Qmult, inject_Z. cbn [Qnum Qden]. lia.
Qed.

Section LoopProperties.
Context `{UnicodeDB} {World : Type}.
Variable api_key : option str.
Variable session_post : payload -> World -> http_outcome * World.
Variables (original_prompt analysis_type : str) (target_score : pyfloat).

Lemma refinement_turn_no_key (text : str) (w : World) :
  has_api_key api_key = false ->
  exists turn,
    refinement_turn api_key session_post original_prompt analysis_type target_score text w
    = (turn, (text, f5), w)
    /\ (turn = Converged f5 \/ turn = NextTurn text \/ turn = Break).
Proof.
  intros Hkey. unfold refinement_turn.
  rewrite validate_and_score_no_key by exact Hkey. cbn [score no_key_result].
  destruct (fge f5 target_score); [eexists; split; [reflexivity|by left]|].
  rewrite fix_text_no_key by exact Hkey. rewrite not_shorter_than_itself.
  destruct (_ && _); eexists; (split; [reflexivity|]); auto.
Qed.

Lemma refinement_loop_no_key (remaining : nat) (text : str)
    (scored : list (str * pyfloat)) (w : World) :
  has_api_key api_key = false ->
  let run := refinement_loop api_key session_post original_prompt analysis_type
               target_score remaining text scored w in
  run_result run = (text, f5) /\ run_world run = w.
Proof.
  intros Hkey. cbv zeta. revert scored.
  induction remaining as [|remaining IH]; intros scored.
  - cbn [refinement_loop]. unfold final_check.
    rewrite validate_and_score_no_key by exact Hkey. by split.
  - cbn [refinement_loop].
    destruct (refinement_turn_no_key text w Hkey) as (turn & -> & [-> | [-> | ->]]).
    + by split.
    + apply IH.
    + unfold final_check. rewrite validate_and_score_no_key by exact Hkey. by split.
Qed.

(** A candidate that the loop takes as its next text follows the current
    one. *)
Lemma refinement_turn_next (current_text improved_text : str) (w : World) :
  fst (fst (refinement_turn api_key session_post original_prompt analysis_type
              target_score current_text w)) = NextTurn improved_text ->
  follows current_text improved_text.
Proof.
  unfold refinement_turn.
  destruct (validate_and_score _ _ _ _ _ _) as [v w1].
  destruct (fge _ _); [discriminate|].
  destruct (fix_text_with_claude _ _ _ _ _) as [improved w2].
  destruct (truthy (JStr improved)); cbn [andb]; [|discriminate].
  destruct (100 <? py_len_str (str_strip improved)) eqn:Hlong; [|discriminate].
  destruct (int_lt_float _ _) eqn:Hshort; [discriminate|].
  cbn [fst]. intros [= <-]. right. split; [lia|exact Hshort].
Qed.

Lemma refinement_loop_chain (remaining : nat) (current_text : str)
    (scored : list (str * pyfloat)) (w : World) :
  exists s rest,
    run_scored (refinement_loop api_key session_post original_prompt analysis_type
                  target_score remaining current_text scored w)
    = scored ++ (current_text, s) :: rest
    /\ each_follows current_text rest.
Proof.
  revert current_text scored w.
  induction remaining as [|remaining IH]; intros current_text scored w.
  - cbn [refinement_loop].
    destruct (final_check_scored api_key session_post original_prompt analysis_type
                current_text scored w) as [s [_ ->]].
    by exists s, [].
  - cbn [refinement_loop].
    pose proof (refinement_turn_pass api_key session_post original_prompt analysis_type
                  target_score current_text w) as [s Hpass].
    pose proof (refinement_turn_next current_text) as Hnext.
    specialize (Hnext) with (w := w).
    destruct (refinement_turn api_key session_post original_prompt analysis_type
                target_score current_text w) as [[[s0|improved|] pass] w'];
      cbn [fst snd] in Hpass, Hnext; subst pass.
    + cbn [run_scored]. by exists s, [].
    + destruct (IH improved (scored ++ [(current_text, s)]) w') as (s' & rest & -> & Hrest).
      exists s, ((improved, s') :: rest). split.
      * by rewrite <- app_assoc.
      * cbn [each_follows]. split; [by apply Hnext|exact Hrest].
    + destruct (final_check_scored api_key session_post original_prompt analysis_type
                  current_text (scored ++ [(current_text, s)]) w') as [s' [_ ->]].
      exists s, [(current_text, s')]. split.
      * by rewrite <- app_assoc.
      * cbn [each_follows]. split; [by left|exact I].
Qed.
End LoopProperties.

(** Every text of a chain is the first one or has more than 100
    characters besides surrounding whitespace. *)
Lemma each_follows_full (text previous : str) (passes : list (str * pyfloat)) :
  previous = text \/ 100 < py_len_str (str_strip previous) ->
  each_follows previous passes ->
  Forall (fun pass => fst pass = text \/ 100 < py_len_str (str_strip (fst pass))) passes.
Proof.
  revert previous. induction passes as [|[t s] passes IH]; intros previous Hprev Hchain.
  - constructor.
  - destruct Hchain as [Hfollows Hchain].
    assert (t = text \/ 100 < py_len_str (str_strip t)) as Ht.
    { destruct Hfollows as [->|[Hlong _]]; [exact Hprev|by right]. }
    constructor; [exact Ht|]. by apply (IH t).
Qed.

(** Without an API key the refinement loop is the identity: for every
    target and every number of iterations it returns the text it was given
    with the score 5.0 and leaves the outside world as it was, and so does
    [validate_and_fix]. *)
Theorem refinement_without_api_key `{UnicodeDB} {World : Type}
    (api_key : option str) (session_post : payload -> World -> http_outcome * World)
    (original_prompt analysis_type : str) (target_score : pyfloat)
    (text : str) (max_iterations : Z) (w : World) :
  has_api_key api_key = false ->
  let run := iterative_refinement api_key session_post original_prompt analysis_type
               target_score text max_iterations w in
  run_result run = (text, f5)
  /\ run_world run = w
  /\ validate_and_fix api_key session_post text analysis_type original_prompt w
     = (text, w).
Proof.
  intros Hkey. cbv zeta. unfold validate_and_fix, iterative_refinement.
  pose proof (fun target remaining =>
                refinement_loop_no_key api_key session_post original_prompt analysis_type
                  target remaining text [] w Hkey) as Hloop.
  cbv zeta in Hloop.
  destruct (Hloop target_score (Z.to_nat max_iterations)) as [Hres Hw].
  destruct (Hloop (Fin 10) (Z.to_nat 7)) as [Hres' Hw'].
  split; [exact Hres|]. split; [exact Hw|]. by rewrite Hres', Hw'.
Qed.

Lemma refinement_without_api_key_witness :
  let run := @iterative_refinement ascii_db _ None scripted_post
               (lit "prompt") (lit "zodiac") (Fin 10) (filled "a" 120) 7
               [reply (lit "9")] in
  run_result run = (filled "a" 120, f5)
  /\ run_world run = [reply (lit "9")]
  /\ @validate_and_fix ascii_db _ None scripted_post (filled "a" 120) (lit "zodiac")
       (lit "prompt") [reply (lit "9")]
     = (filled "a" 120, [reply (lit "9")]).
Proof.
  apply (@refinement_without_api_key ascii_db _ None scripted_post).
  reflexivity.
Defined.

(** The texts that [iterative_refinement] scores form a chain that starts
    with the text given: each one is the one before it, or a candidate of the
    fixer with more than 100 characters besides surrounding whitespace that
    is not shorter than 70% of the one before it.  So the text returned is
    the text given or has more than 100 such characters. *)
Theorem refinement_scores_a_chain `{UnicodeDB} {World : Type}
    (api_key : option str) (session_post : payload -> World -> http_outcome * World)
    (original_prompt analysis_type : str) (target_score : pyfloat)
    (text : str) (max_iterations : Z) (w : World) :
  let run := iterative_refinement api_key session_post original_prompt analysis_type
               target_score text max_iterations w in
  each_follows text (run_scored run)
  /\ (fst (run_result run) = text
      \/ 100 < py_len_str (str_strip (fst (run_result run)))).
Proof.
  cbv zeta. unfold iterative_refinement.
  destruct (refinement_loop_chain api_key session_post original_prompt analysis_type
              target_score (Z.to_nat max_iterations) text [] w) as (s & rest & Hscored & Hchain).
  cbn [app] in Hscored.
  assert (each_follows text
            (run_scored (refinement_loop api_key session_post original_prompt analysis_type
                           target_score (Z.to_nat max_iterations) text [] w))) as Hall.
  { rewrite Hscored. cbn [each_follows]. split; [by left|exact Hchain]. }
  split; [exact Hall|].
  pose proof (refinement_loop_returns_last api_key session_post original_prompt
                analysis_type target_score (Z.to_nat max_iterations) text [] w) as Hlast.
  pose proof (each_follows_full text text _ (or_introl eq_refl) Hall) as Hfull.
  rewrite Forall_forall in Hfull. apply (Hfull (run_result _)).
  apply list_elem_of_In. rewrite Hscored in Hlast |- *.
  clear -Hlast. revert Hlast. generalize ((text, s) :: rest) as l.
  intros l. induction l as [|a l IH]; [discriminate|].
  destruct l as [|b l]; [intros [= <-]; by left|].
  intros Hl. right. by apply IH.
Qed.

(** ** The loop with regeneration *)

(** The local scorer stays below every target. *)
Lemma fallback_scoring_bounds (text analysis_type : str) :
  let v := _fallback_scoring text in
  fle (score v) f5 = true /\ fge (score v) (target_for analysis_type) = false.
Proof.
  cbv zeta. unfold _fallback_scoring, target_for. cbn [score].
  destruct (py_len_str text <? 500);
    destruct (length (filter (fun c => (127 < c)%N) text) <? 10)%nat;
    destruct (negb (str_contains [glowing_star] text));
    (split; [vm_compute; reflexivity|]);
    destruct (str_eqb analysis_type (lit "zodiac"));
    destruct (str_eqb analysis_type (lit "forecast"));
    destruct (str_eqb analysis_type (lit "compatibility"));
    vm_compute; reflexivity.
Qed.

Lemma fle_of_not_fgt (a b c : pyfloat) :
  fle a c = true -> fle b c = true -> fle (if fgt a b then a else b) c = true.
Proof. intros Ha Hb. by destruct (fgt a b). Qed.

Section RegenerationProperties.
Context `{UnicodeDB} {World Params : Type}.
Variable api_key : option str.
Variable session_post : payload -> World -> http_outcome * World.
Variable max_iterations : Z.
Variable has_prompt : Params -> bool.
Variable generation_function :
  Params -> option feedback_prompt -> World -> option str * World.
Variables (analysis_type original_prompt : str) (generation_params : Params).

(** The only exception of the loop is the [TypeError] of the call of
    [fix_text_with_claude], which needs the Claude agent. *)
Lemma improvement_loop_raises (use_claude : bool) (remaining : nat) (iteration : Z)
    (current_text best_text : str) (best_score : pyfloat)
    (history : list iteration_data) (scored : list (str * pyfloat)) (w : World)
    (e : exn) :
  imp_result (improvement_loop api_key session_post use_claude max_iterations has_prompt
                generation_function analysis_type original_prompt generation_params
                remaining iteration current_text best_text best_score history scored w)
  = Raise e ->
  e = TypeError /\ use_claude = true.
Proof.
  revert iteration current_text best_text best_score history scored w.
  induction remaining as [|remaining IH];
    intros iteration current_text best_text best_score history scored w.
  - discriminate.
  - cbn [improvement_loop].
    destruct (rlhf_score _ _ _ _ _ _ _) as [v w1].
    destruct (fgt (score v) best_score);
      (destruct (fge (score v) _); [discriminate|]);
      (destruct (iteration <? max_iterations); [|apply IH]);
      unfold rlhf_improve;
      destruct (_regenerate_with_feedback _ _ _ _ _) as [[improved|] w2];
      try apply IH;
      (destruct use_claude; [cbn [imp_result]; by intros [= <-]|apply IH]).
Qed.

(** With the local scorer the loop runs all its turns: no score reaches
    the target. *)
Lemma improvement_loop_fallback (remaining : nat) (iteration : Z)
    (current_text best_text : str) (best_score : pyfloat)
    (history : list iteration_data) (scored : list (str * pyfloat)) (w : World) :
  fle best_score f5 = true ->
  let run := improvement_loop api_key session_post false max_iterations has_prompt
               generation_function analysis_type original_prompt generation_params
               remaining iteration current_text best_text best_score history scored w in
  exists text final_score final_history,
    imp_result run = Ok (text, final_score, final_history)
    /\ length final_history = (length history + remaining)%nat
    /\ length (imp_scored run) = (length scored + remaining)%nat
    /\ fle final_score f5 = true.
Proof.
  cbv zeta. revert iteration current_text best_text best_score history scored w.
  induction remaining as [|remaining IH];
    intros iteration current_text best_text best_score history scored w Hbest.
  - cbn [improvement_loop imp_result imp_scored]. eexists _, _, _.
    split; [reflexivity|]. repeat split; [lia|lia|exact Hbest].
  - cbn [improvement_loop]. unfold rlhf_score.
    destruct (fallback_scoring_bounds current_text analysis_type) as [Hle Hlow].
    cbv zeta in Hle, Hlow. rewrite Hlow.
    set (v := _fallback_scoring current_text) in *.
    assert (exists best_text' best_score',
               (if fgt (score v) best_score then (current_text, score v)
                else (best_text, best_score)) = (best_text', best_score')
               /\ fle best_score' f5 = true) as (best_text' & best_score' & -> & Hbest').
    { destruct (fgt (score v) best_score); by eexists _, _. }
    assert (forall r : improvement_run World,
              (exists text final_score final_history,
                 imp_result r = Ok (text, final_score, final_history)
                 /\ length final_history
                    = (length (history ++ [{| it_iteration := iteration;
                                              it_score := score v;
                                              it_issues := issues v;
                                              it_suggestions := suggestions v;
                                              it_text_length := py_len_str current_text |}])
                       + remaining)%nat
                 /\ length (imp_scored r)
                    = (length (scored ++ [(current_text, score v)]) + remaining)%nat
                 /\ fle final_score f5 = true) ->
              exists text final_score final_history,
                imp_result r = Ok (text, final_score, final_history)
                /\ length final_history = (length history + S remaining)%nat
                /\ length (imp_scored r) = (length scored + S remaining)%nat
                /\ fle final_score f5 = true) as Hstep.
    { intros r (text & final_score & final_history & Hres & Hh & Hs & Hf).
      exists text, final_score, final_history.
      rewrite length_app in Hh, Hs. simpl in Hh, Hs.
      split; [exact Hres|]. repeat split; [lia|lia|exact Hf]. }
    destruct (iteration <? max_iterations).
    + unfold rlhf_improve.
      destruct (_regenerate_with_feedback _ _ _ _ _) as [[improved|] w2];
        apply Hstep, IH, Hbest'.
    + apply Hstep, IH, Hbest'.
Qed.
End RegenerationProperties.

Lemma iterative_improvement_fallback `{UnicodeDB} {World Params : Type}
    (api_key : option str) (session_post : payload -> World -> http_outcome * World)
    (max_iterations : Z) (has_prompt : Params -> bool)
    (generation_function :
       Params -> option feedback_prompt -> World -> option str * World)
    (analysis_type original_prompt : str) (generation_params : Params)
    (initial_text : str) (w : World) :
  let run := iterative_improvement api_key session_post false max_iterations
               has_prompt generation_function analysis_type original_prompt
               generation_params initial_text w in
  exists best_text best_score history,
    imp_result run = Ok (best_text, best_score, history)
    /\ length history = Z.to_nat max_iterations
    /\ length (imp_scored run) = Z.to_nat max_iterations
    /\ fle best_score f5 = true.
Proof.
  cbv zeta. unfold iterative_improvement.
  by apply (improvement_loop_fallback api_key session_post max_iterations has_prompt
              generation_function analysis_type original_prompt generation_params
              (Z.to_nat max_iterations) 1 initial_text initial_text f0 [] [] w).
Qed.

(** [iterative_improvement] raises nothing but the [TypeError] of its call
    of [fix_text_with_claude] with three arguments, and only when the Claude
    agent is in use; with the local scorer and fixer it always returns. *)
Theorem improvement_raises_only_with_claude `{UnicodeDB} {World Params : Type}
    (api_key : option str) (session_post : payload -> World -> http_outcome * World)
    (use_claude : bool) (max_iterations : Z) (has_prompt : Params -> bool)
    (generation_function :
       Params -> option feedback_prompt -> World -> option str * World)
    (analysis_type original_prompt : str) (generation_params : Params)
    (initial_text : str) (w : World) (e : exn) :
  imp_result (iterative_improvement api_key session_post use_claude max_iterations
                has_prompt generation_function analysis_type original_prompt
                generation_params initial_text w) = Raise e ->
  e = TypeError /\ use_claude = true.
Proof. apply improvement_loop_raises. Qed.

Lemma improvement_raises_only_with_claude_witness :
  TypeError = TypeError /\ true = true.
Proof.
  apply (@improvement_raises_only_with_claude ascii_db (list (option str)) unit
           None no_post true 2 (fun _ => true) scripted_generation
           (lit "zodiac") (lit "prompt") tt (lit "draft") [None] TypeError).
  vm_compute. reflexivity.
Defined.

(** With the local scorer the loop never reaches its target, whatever the
    regeneration returns: it makes all its [max_iterations] scoring passes,
    records each in the history, and returns a best score of at most 5.0,
    below each of the targets 8.0, 8.5 and 9.0. *)
Theorem fallback_improvement_never_converges `{UnicodeDB} {World Params : Type}
    (api_key : option str) (session_post : payload -> World -> http_outcome * World)
    (max_iterations : Z) (has_prompt : Params -> bool)
    (generation_function :
       Params -> option feedback_prompt -> World -> option str * World)
    (analysis_type original_prompt : str) (generation_params : Params)
    (initial_text : str) (w : World) :
  let run := iterative_improvement api_key session_post false max_iterations
               has_prompt generation_function analysis_type original_prompt
               generation_params initial_text w in
  exists best_text best_score history,
    imp_result run = Ok (best_text, best_score, history)
    /\ length history = Z.to_nat max_iterations
    /\ length (imp_scored run) = Z.to_nat max_iterations
    /\ fle best_score f5 = true
    /\ fge best_score (target_for analysis_type) = false.
Proof.
  cbv zeta.
  destruct (iterative_improvement_fallback api_key session_post max_iterations has_prompt
              generation_function analysis_type original_prompt generation_params
              initial_text w)
    as (text & final_score & final_history & Hres & Hh & Hs & Hf).
  exists text, final_score, final_history.
  split; [exact Hres|]. split; [exact Hh|]. split; [exact Hs|]. split; [exact Hf|].
  unfold target_for, fge, fle in *.
  destruct (str_eqb analysis_type (lit "zodiac"));
    destruct (str_eqb analysis_type (lit "forecast"));
    destruct (str_eqb analysis_type (lit "compatibility"));
    destruct final_score as [q| | |]; try reflexivity; try discriminate;
    apply Qle_bool_iff in Hf;
    (destruct (Qle_bool _ q) eqn:E; [|reflexivity]);
    apply Qle_bool_iff in E; exfalso;
    (assert (Hc := Qle_trans _ _ _ E Hf)); vm_compute in Hc; by apply Hc.
Qed.

(** The local fixer never shortens a text, and it lengthens one whose
    issues say that it is too short by the whole extra paragraph. *)
Lemma replace_first_length (old new s : str) :
  (length old <= length new)%nat ->
  (length s <= length (replace_first old new s))%nat.
Proof.
  intros Hlen. induction s as [|c s IH].
  - cbn [replace_first]. destruct (starts_with old []); simpl; lia.
  - cbn [replace_first]. destruct (starts_with old (c :: s)) eqn:Hstart.
    + rewrite length_app, length_drop. lia.
    + simpl. lia.
Qed.

Theorem fallback_fix_never_shortens (text : str) (issues : list str) :
  (length text <= length (_fallback_fix text issues))%nat
  /\ (issues_mention (lit "короткий") issues = true ->
      (length text + length extra_analysis <= length (_fallback_fix text issues))%nat).
Proof.
  unfold _fallback_fix.
  assert (forall s, length s <= length (lit "🌟 " ++ replace_first [newline]
                                          (newline :: lit "💎 ") s))%nat as Hstar.
  { intros s. rewrite length_app.
    pose proof (replace_first_length [newline] (newline :: lit "💎 ") s) as Hr.
    assert (length [newline] <= length (newline :: lit "💎 "))%nat as Hl
      by (vm_compute; lia).
    specialize (Hr Hl). lia. }
  destruct (issues_mention (lit "короткий") issues);
    destruct (issues_mention (lit "эмодзи") issues).
  - pose proof (Hstar (text ++ extra_analysis)) as Hs. rewrite length_app in Hs.
    split; [lia|intros _; lia].
  - rewrite length_app. split; [lia|intros _; lia].
  - split; [apply Hstar|discriminate].
  - split; [lia|discriminate].
Qed.

Lemma fallback_fix_never_shortens_witness :
  (length (lit "draft") <= length (_fallback_fix (lit "draft")
                                     (issues (_fallback_scoring (lit "draft")))))%nat
  /\ (length (lit "draft") + length extra_analysis
      <= length (_fallback_fix (lit "draft")
                   (issues (_fallback_scoring (lit "draft")))))%nat.
Proof.
  destruct (fallback_fix_never_shortens (lit "draft")
              (issues (_fallback_scoring (lit "draft")))) as [Hlen Hshort].
  split; [exact Hlen|]. apply Hshort. vm_compute. reflexivity.
Defined.

(** ** The agent around the loop with regeneration *)

(** With a generation function and parameters, and without the Claude
    agent, [validate_and_improve_with_rlhf] always ends in the mode
    [RLHF_full] with all five iterations used and a final score of at most
    5.0: the local scorer cannot reach a target. *)
Theorem rlhf_without_claude_uses_all_iterations `{UnicodeDB} {World Params : Type}
    (api_key : option str) (session_post : payload -> World -> http_outcome * World)
    (base_validate_and_fix : str -> str -> str -> World -> res str * World)
    (_basic_cleanup : option (str -> str))
    (has_prompt is_empty : Params -> bool)
    (generation_function :
       Params -> option feedback_prompt -> World -> option str * World)
    (generation_params : Params)
    (text analysis_type original_prompt : str) (w : World) :
  is_empty generation_params = false ->
  let result := fst (validate_and_improve_with_rlhf api_key session_post false
                       base_validate_and_fix _basic_cleanup has_prompt is_empty
                       text analysis_type original_prompt
                       (Some generation_function) (Some generation_params) w) in
  method (snd result) = RLHF_full
  /\ iterations_used (snd result) = Some 5
  /\ fle (final_score (snd result)) f5 = true
  /\ error (snd result) = None.
Proof.
  intros Hgiven. cbv zeta. unfold validate_and_improve_with_rlhf. rewrite Hgiven.
  destruct (iterative_improvement_fallback api_key session_post
              rlhf_max_iterations has_prompt generation_function analysis_type
              original_prompt generation_params text w)
    as (best_text & best_score & history & Hres & Hh & _ & Hf).
  rewrite Hres. cbn [fst snd method iterations_used final_score error].
  rewrite Hh. by repeat split.
Qed.

Lemma rlhf_without_claude_uses_all_iterations_witness :
  let result := fst (validate_and_improve_with_rlhf (H := ascii_db)
                       (World := list (option str)) (Params := unit)
                       None no_post false (fun text _ _ w => (Ok text, w)) None
                       (fun _ => true) (fun _ => false)
                       (lit "draft") (lit "zodiac") (lit "prompt")
                       (Some scripted_generation) (Some tt) [Some (lit "x")]) in
  method (snd result) = RLHF_full
  /\ iterations_used (snd result) = Some 5
  /\ fle (final_score (snd result)) f5 = true
  /\ error (snd result) = None.
Proof.
  apply (@rlhf_without_claude_uses_all_iterations ascii_db (list (option str)) unit
           None no_post (fun text _ _ w => (Ok text, w)) None
           (fun _ => true) (fun _ => false) scripted_generation tt).
  reflexivity.
Defined.

(** With the Claude agent in use, a generation function that fails never
    leads to the local fixer: unless the first score already reaches the
    target, the agent falls back, returning the cleaned text it was given, or
    that text itself, with the final score 5.0 and the [TypeError] of the
    call of [fix_text_with_claude]. *)
Theorem failed_regeneration_with_claude `{UnicodeDB} {World Params : Type}
    (api_key : option str) (session_post : payload -> World -> http_outcome * World)
    (base_validate_and_fix : str -> str -> str -> World -> res str * World)
    (_basic_cleanup : option (str -> str))
    (has_prompt is_empty : Params -> bool)
    (generation_function :
       Params -> option feedback_prompt -> World -> option str * World)
    (generation_params : Params)
    (text analysis_type original_prompt : str) (w : World) :
  is_empty generation_params = false ->
  (forall p fp w', fst (generation_function p fp w') = None) ->
  let v := fst (validate_and_score api_key session_post text original_prompt
                  analysis_type w) in
  let result := fst (validate_and_improve_with_rlhf api_key session_post true
                       base_validate_and_fix _basic_cleanup has_prompt is_empty
                       text analysis_type original_prompt
                       (Some generation_function) (Some generation_params) w) in
  if fge (score v) (target_for analysis_type)
  then fst result = text
       /\ method (snd result) = RLHF_full
       /\ final_score (snd result) = score v
       /\ iterations_used (snd result) = Some 1
  else result = fallback_result _basic_cleanup text TypeError.
Proof.
  intros Hgiven Hfails. cbv zeta.
  unfold validate_and_improve_with_rlhf. rewrite Hgiven.
  unfold iterative_improvement, rlhf_max_iterations.
  change (Z.to_nat 5) with 5%nat. cbn [improvement_loop]. unfold rlhf_score.
  destruct (validate_and_score api_key session_post text original_prompt analysis_type w)
    as [v w1]. cbn [fst].
  destruct (fge (score v) (target_for analysis_type)).
  - destruct (fgt (score v) f0); cbn [imp_result fst snd]; by repeat split.
  - change (1 <? 5) with true. cbv iota.
    unfold rlhf_improve, _regenerate_with_feedback.
    match goal with |- context [generation_function ?p ?fp ?w'] =>
      pose proof (Hfails p fp w') as Hnone;
      destruct (generation_function p fp w') as [[improved|] w2] end;
      [discriminate Hnone|].
    by destruct (fgt (score v) f0).
Qed.

Lemma failed_regeneration_with_claude_witness :
  fst (validate_and_improve_with_rlhf (H := ascii_db)
         (World := list http_outcome) (Params := unit)
         (Some (lit "key")) scripted_post true (fun text _ _ w => (Ok text, w))
         (Some str_strip) (fun _ => true) (fun _ => false)
         (lit " draft ") (lit "zodiac") (lit "prompt")
         (Some (fun _ _ w => (None, w))) (Some tt) [reply (lit "6")])
  = fallback_result (Some str_strip) (lit " draft ") TypeError.
Proof.
  apply (@failed_regeneration_with_claude ascii_db (list http_outcome) unit
           (Some (lit "key")) scripted_post (fun text _ _ w => (Ok text, w))
           (Some str_strip) (fun _ => true) (fun _ => false)
           (fun _ _ w => (None, w)) tt (lit " draft ") (lit "zodiac") (lit "prompt")
           [reply (lit "6")]).
  - reflexivity.
  - reflexivity.
Defined.

(** ** The matcher *)

(** A match ends at a suffix of the text it starts at. *)
Lemma rmatch_suffix (r : regex) :
  forall (X : Type) (prev : option char) (s : str)
         (k : option char -> str -> option X) (x : X),
    rmatch X r prev s k = Some x ->
    exists prev' s', k prev' s' = Some x /\ s' `suffix_of` s.
Proof.
  induction r as [|c|p|r1 IH1 r2 IH2|r1 IH1 r2 IH2|greedy p| | | |r1 IH1];
    intros X prev s k x Hm; cbn [rmatch] in Hm.
  - by exists prev, s.
  - destruct s as [|c0 s]; [discriminate|]. destruct (c0 =? c)%N; [|discriminate].
    exists (Some c0), s. split; [exact Hm|]. by apply suffix_cons_r.
  - destruct s as [|c0 s]; [discriminate|]. destruct (p c0); [|discriminate].
    exists (Some c0), s. split; [exact Hm|]. by apply suffix_cons_r.
  - apply IH1 in Hm. destruct Hm as (p1 & s1 & Hm & Hs1).
    apply IH2 in Hm. destruct Hm as (p2 & s2 & Hm & Hs2).
    exists p2, s2. split; [exact Hm|]. by etrans.
  - destruct (rmatch X r1 prev s k) as [x1|] eqn:E1.
    + injection Hm as ->. by apply IH1 in E1.
    + by apply IH2 in Hm.
  - destruct greedy.
    + revert prev Hm. induction s as [|c s IHs]; intros prev Hm.
      * by exists prev, [].
      * destruct (p c).
        -- match type of Hm with match ?inner with _ => _ end = _ =>
             destruct inner as [x1|] eqn:Einner end.
           ++ injection Hm as ->. apply IHs in Einner.
              destruct Einner as (p1 & s1 & Hk & Hs1).
              exists p1, s1. split; [exact Hk|]. by apply suffix_cons_r.
           ++ by exists prev, (c :: s).
        -- by exists prev, (c :: s).
    + revert prev Hm. induction s as [|c s IHs]; intros prev Hm.
      * destruct (k prev []) as [x1|] eqn:Ek; [|discriminate].
        injection Hm as ->. by exists prev, [].
      * destruct (k prev (c :: s)) as [x1|] eqn:Ek.
        -- injection Hm as ->. by exists prev, (c :: s).
        -- destruct (p c); [|discriminate]. apply IHs in Hm.
           destruct Hm as (p1 & s1 & Hk & Hs1).
           exists p1, s1. split; [exact Hk|]. by apply suffix_cons_r.
  - destruct prev as [c|].
    + destruct (c =? newline)%N; [|discriminate]. by exists (Some c), s.
    + by exists None, s.
  - destruct s as [|c s]; [by exists prev, []|].
    destruct (c =? newline)%N; [|discriminate]. by exists prev, (c :: s).
  - destruct s as [|c s]; [by exists prev, []|discriminate].
  - destruct (rmatch unit r1 prev s _); [|discriminate]. by exists prev, s.
Qed.

(** A pattern that matches with a continuation matches with any
    continuation that accepts at least as much. *)
Lemma rmatch_mono (r : regex) :
  forall (X Y : Type) (prev : option char) (s : str)
         (k : option char -> str -> option X) (k' : option char -> str -> option Y),
    (forall p t, is_Some (k p t) -> is_Some (k' p t)) ->
    is_Some (rmatch X r prev s k) -> is_Some (rmatch Y r prev s k').
Proof.
  induction r as [|c|p|r1 IH1 r2 IH2|r1 IH1 r2 IH2|greedy p| | | |r1 IH1];
    intros X Y prev s k k' Hk Hm; cbn [rmatch] in Hm |- *.
  - by apply Hk.
  - destruct s as [|c0 s]; [done|]. destruct (c0 =? c)%N; [by apply Hk|done].
  - destruct s as [|c0 s]; [done|]. destruct (p c0); [by apply Hk|done].
  - revert Hm. apply IH1. intros p t. by apply IH2.
  - destruct (rmatch X r1 prev s k) as [x1|] eqn:E1.
    + assert (is_Some (rmatch Y r1 prev s k')) as [y Hy].
      { apply (IH1 X Y prev s k k' Hk). by rewrite E1. }
      by rewrite Hy.
    + destruct (rmatch Y r1 prev s k'); [done|]. by apply (IH2 X Y prev s k k' Hk).
  - destruct greedy.
    + revert prev Hm. induction s as [|c s IHs]; intros prev Hm.
      * by apply Hk.
      * destruct (p c); [|by apply Hk].
        match type of Hm with is_Some (match ?inner with _ => _ end) =>
          destruct inner as [x1|] eqn:Einner end.
        -- assert (is_Some (Some x1)) as Hs by done. rewrite <- Einner in Hs.
           apply IHs in Hs. destruct Hs as [y Hy].
           match goal with |- is_Some (match ?inner' with _ => _ end) =>
             change inner' with
               ((fix star (prev : option char) (s : str) : option Y :=
                   match s with
                   | x :: s' =>
                     if p x
                     then match star (Some x) s' with
                          | Some r => Some r
                          | None => k' prev s
                          end
                     else k' prev s
                   | [] => k' prev s
                   end) (Some c) s) end.
           by rewrite Hy.
        -- match goal with |- is_Some (match ?inner' with _ => _ end) =>
             destruct inner' end; [done|by apply Hk].
    + revert prev Hm. induction s as [|c s IHs]; intros prev Hm.
      * destruct (k prev []) as [x1|] eqn:Ek; [|by destruct Hm].
        assert (is_Some (k' prev [])) as [y ->]; [apply Hk; by rewrite Ek|done].
      * destruct (k prev (c :: s)) as [x1|] eqn:Ek.
        -- assert (is_Some (k' prev (c :: s))) as [y ->]; [apply Hk; by rewrite Ek|done].
        -- destruct (k' prev (c :: s)); [done|].
           destruct (p c); [|by destruct Hm]. by apply IHs.
  - destruct prev as [c|]; [destruct (c =? newline)%N; [by apply Hk|done]|by apply Hk].
  - destruct s as [|c s]; [by apply Hk|].
    destruct (c =? newline)%N; [by apply Hk|done].
  - destruct s as [|c s]; [by apply Hk|done].
  - destruct (rmatch unit r1 prev s _); [by apply Hk|done].
Qed.

Lemma rmatch_seq_mono (r1 r2 r2' : regex) (X Y : Type) (prev : option char) (s : str)
    (k : option char -> str -> option X) (k' : option char -> str -> option Y) :
  (forall p t, is_Some (rmatch X r2 p t k) -> is_Some (rmatch Y r2' p t k')) ->
  is_Some (rmatch X (RSeq r1 r2) prev s k) -> is_Some (rmatch Y (RSeq r1 r2') prev s k').
Proof. intros Hk. cbn [rmatch]. by apply rmatch_mono. Qed.

(** The rest of the section pattern after the title line, [.*?(?=^\S|\Z)],
    matches wherever it is tried: at the latest, the lazy star reaches the
    end of the text. *)
Lemma section_body_matches (X : Type) (prev : option char) (s : str)
    (k : option char -> str -> option X) :
  (forall p t, is_Some (k p t)) ->
  is_Some (rmatch X (RSeqs [RStar false any_char;
                            RLook (RAlt (RSeq RBol (RClass non_space)) REos)]) prev s k).
Proof.
  intros Hk. cbn [RSeqs rmatch]. revert prev.
  induction s as [|c s IHs]; intros prev.
  - assert (rmatch unit (RAlt (RSeq RBol (RClass non_space)) REos) prev []
              (fun _ _ => Some tt) = Some tt) as Hlook.
    { cbn [rmatch]. by destruct prev as [c|]; [destruct (c =? newline)%N|]. }
    cbn [rmatch] in Hlook. rewrite Hlook.
    destruct (Hk prev []) as [x ->]. done.
  - match goal with |- is_Some (match ?first with _ => _ end) => destruct first end;
      [done|]. cbn [any_char]. apply IHs.
Qed.

(** The section pattern matches at a position exactly when the title
    pattern does. *)
Lemma section_matches_iff_title (title : str) (prev : option char) (s : str) :
  is_Some (re_match_at (section_pattern title) false prev s)
  <-> is_Some (re_match_at (title_pattern title) false prev s).
Proof.
  unfold re_match_at, section_pattern, title_pattern. cbn [RSeqs andb]. split.
  - do 5 (apply rmatch_seq_mono; intros ? ?). intros _. done.
  - do 5 (apply rmatch_seq_mono; intros ? ?). intros _.
    apply (section_body_matches _ _ _ (fun prev' s' => Some (prev', s'))). done.
Qed.

(** What a search finds splits the text. *)
Lemma re_match_at_suffix (r : regex) (must_advance : bool) (prev prev' : option char)
    (s rest : str) :
  re_match_at r must_advance prev s = Some (prev', rest) -> rest `suffix_of` s.
Proof.
  unfold re_match_at. intros Hm. apply rmatch_suffix in Hm.
  destruct Hm as (p1 & s1 & Hk & Hs). destruct (_ && _); [discriminate|].
  by injection Hk as _ <-.
Qed.

Lemma re_search_from_split (r : regex) (s : str) :
  forall (must_advance : bool) (skipped : str) (prev : option char) (m : re_match),
    re_search_from r must_advance skipped prev s = Some m ->
    rev skipped ++ s = m_before m ++ m_text m ++ m_after m.
Proof.
  induction s as [|c s IH]; intros must_advance skipped prev m Hm;
    cbn [re_search_from] in Hm.
  - destruct (re_match_at r must_advance prev []) as [[prev' rest]|] eqn:Eat;
      [|discriminate].
    injection Hm as <-. cbn [m_before m_text m_after].
    apply re_match_at_suffix in Eat. destruct Eat as [p Hp].
    destruct p; [|discriminate]. by rewrite <- Hp.
  - destruct (re_match_at r must_advance prev (c :: s)) as [[prev' rest]|] eqn:Eat.
    + injection Hm as <-. cbn [m_before m_text m_after]. f_equal.
      apply re_match_at_suffix in Eat. destruct Eat as [p Hp].
      assert (S (length s) - length rest = length p)%nat as ->.
      { apply (f_equal (@length N)) in Hp. rewrite length_app in Hp. simpl in Hp. lia. }
      rewrite Hp. by rewrite take_app_length.
    + apply IH in Hm. rewrite <- Hm. cbn [rev]. by rewrite <- app_assoc.
Qed.

(** The first section of a title starts where the first title line
    starts. *)
Lemma section_search_of_title_search (title : str) (s : str) :
  forall (skipped : str) (prev : option char),
    match re_search_from (title_pattern title) false skipped prev s with
    | Some m1 =>
      exists m2, re_search_from (section_pattern title) false skipped prev s = Some m2
                 /\ m_before m2 = m_before m1
    | None => re_search_from (section_pattern title) false skipped prev s = None
    end.
Proof.
  induction s as [|c s IH]; intros skipped prev; cbn [re_search_from].
  - pose proof (section_matches_iff_title title prev []) as Hiff.
    destruct (re_match_at (title_pattern title) false prev []) as [[p1 r1]|].
    + destruct (proj2 Hiff) as [[p2 r2] ->]; [done|]. by eexists.
    + destruct (re_match_at (section_pattern title) false prev []); [|done].
      by destruct (proj1 Hiff) as [? ?].
  - pose proof (section_matches_iff_title title prev (c :: s)) as Hiff.
    destruct (re_match_at (title_pattern title) false prev (c :: s)) as [[p1 r1]|].
    + destruct (proj2 Hiff) as [[p2 r2] ->]; [done|]. by eexists.
    + destruct (re_match_at (section_pattern title) false prev (c :: s)).
      * by destruct (proj1 Hiff) as [? ?].
      * apply IH.
Qed.

Lemma section_found (text title : str) :
  find_section text title <> -1 ->
  exists m, re_search (section_pattern title) text = Some m
            /\ Z.of_nat (length (m_before m)) = find_section text title
            /\ text = m_before m ++ m_text m ++ m_after m.
Proof.
  unfold find_section, search_start, re_search. intros Hfound.
  pose proof (section_search_of_title_search title text [] None) as Hsec.
  destruct (re_search_from (title_pattern title) false [] None text) as [m1|]; [|done].
  destruct Hsec as (m2 & Hm2 & Hbefore). exists m2.
  split; [exact Hm2|]. split; [by rewrite Hbefore|].
  by apply re_search_from_split in Hm2.
Qed.

(** ** Stripping twice *)

Lemma lstrip_by_fixed (p : char -> bool) (s : str) :
  match s with [] => True | c :: _ => p c = false end -> lstrip_by p s = s.
Proof. destruct s as [|c s]; [done|]. cbn [lstrip_by]. by intros ->. Qed.

Lemma strip_by_idemp (p : char -> bool) (s : str) :
  strip_by p (strip_by p s) = strip_by p s.
Proof.
  unfold strip_by, rstrip_by.
  set (v := lstrip_by p s). set (u := lstrip_by p (rev v)).
  assert (lstrip_by p (rev u) = rev u) as ->.
  { apply lstrip_by_fixed.
    destruct (lstrip_by_split p (rev v)) as [w [Hv _]]. fold u in Hv.
    assert (v = rev u ++ rev w) as Hv'.
    { rewrite <- rev_app_distr, <- Hv. by rewrite rev_involutive. }
    pose proof (lstrip_by_head p s) as Hhead. fold v in Hhead.
    destruct (rev u) as [|c t]; [done|]. rewrite Hv' in Hhead. exact Hhead. }
  rewrite rev_involutive. f_equal. apply lstrip_by_fixed. apply lstrip_by_head.
Qed.

(** ** Where a section patch puts its content *)

(** An append patch, and any patch whose action is neither [insert] nor
    [replace], deletes nothing but whitespace: its result is the text with
    an empty line, the content and a newline put after a part of it, whose
    trailing whitespace is dropped.  That part is the whole text when no line
    is the title; otherwise it starts where the first title line starts. *)
Theorem append_patch_keeps_the_text `{UnicodeDB} (text title action content : str) :
  let action' := str_lower (str_strip (if nonempty action then action else lit "append")) in
  action' <> lit "insert" ->
  action' <> lit "replace" ->
  str_strip title <> [] ->
  str_strip content <> [] ->
  exists before section after,
    text = before ++ section ++ after
    /\ apply_validator_patches text (report_with [] [section_patch title action content])
       = Ok (before ++ str_rstrip section ++ [newline; newline] ++ str_strip content
             ++ [newline] ++ after)
    /\ (if find_section text (str_strip title) =? -1
        then before = [] /\ after = []
        else Z.of_nat (length before) = find_section text (str_strip title)).
Proof.
  intros action' Hinsert Hreplace Htitle Hcontent.
  rewrite apply_one_section_patch, apply_section_patch_strings. cbv zeta.
  fold action'.
  assert (nonempty (str_strip title) = true) as -> by (by destruct (str_strip title)).
  assert (nonempty (str_strip content) = true) as -> by (by destruct (str_strip content)).
  rewrite (str_eqb_neq _ _ Hinsert), (str_eqb_neq _ _ Hreplace). cbn [negb orb].
  destruct (find_section text (str_strip title) =? -1) eqn:Efound.
  - exists [], text, []. rewrite app_nil_r. split; [reflexivity|]. split; [|done].
    unfold append_section. reflexivity.
  - apply Z.eqb_neq in Efound.
    destruct (section_found text (str_strip title) Efound) as (m & Hm & Hidx & Hsplit).
    exists (m_before m), (m_text m), (m_after m).
    split; [exact Hsplit|]. split; [|exact Hidx].
    unfold extend_section. rewrite Hm. cbv zeta.
    assert (str_strip (str_strip content) = str_strip content) as ->
      by apply strip_by_idemp.
    by rewrite <- !app_assoc.
Qed.

Lemma append_patch_keeps_the_text_witness :
  exists before section after,
    lines ["Intro"%string; "SUMMARY"%string; "  First point."%string; "NEXT"%string]
    = before ++ section ++ after
    /\ @apply_validator_patches ascii_db
         (lines ["Intro"%string; "SUMMARY"%string; "  First point."%string; "NEXT"%string])
         (report_with [] [section_patch (lit "SUMMARY") (lit "append") (lit "Extra line.")])
       = Ok (before ++ str_rstrip section ++ [newline; newline]
             ++ str_strip (lit "Extra line.") ++ [newline] ++ after)
    /\ (if @find_section
             (lines ["Intro"%string; "SUMMARY"%string; "  First point."%string;
                     "NEXT"%string])
             (str_strip (lit "SUMMARY")) =? -1
        then before = [] /\ after = []
        else Z.of_nat (length before)
             = find_section
                 (lines ["Intro"%string; "SUMMARY"%string; "  First point."%string;
                         "NEXT"%string])
                 (str_strip (lit "SUMMARY"))).
Proof.
  apply (@append_patch_keeps_the_text ascii_db
           (lines ["Intro"%string; "SUMMARY"%string; "  First point."%string; "NEXT"%string])
           (lit "SUMMARY") (lit "append") (lit "Extra line."));
    vm_compute; discriminate.
Defined.

(** ** The loop with regeneration without a key *)

Section KeylessRegeneration.
Context `{UnicodeDB} {World Params : Type}.
Variable api_key : option str.
Variable session_post : payload -> World -> http_outcome * World.
Variable max_iterations : Z.
Variable has_prompt : Params -> bool.
Variable generation_function :
  Params -> option feedback_prompt -> World -> option str * World.
Variables (analysis_type original_prompt : str) (generation_params : Params).

(** Once a pass has scored 5.0, the best pair does not change any more:
    every later pass scores 5.0 too. *)
Lemma improvement_loop_no_key (remaining : nat) (iteration : Z)
    (current_text best_text : str) (history : list iteration_data)
    (scored : list (str * pyfloat)) (w : World) :
  has_api_key api_key = false ->
  let run := improvement_loop api_key session_post true max_iterations has_prompt
               generation_function analysis_type original_prompt generation_params
               remaining iteration current_text best_text f5 history scored w in
  imp_result run = Raise TypeError
  \/ exists final_history, imp_result run = Ok (best_text, f5, final_history).
Proof.
  intros Hkey. cbv zeta.
  revert iteration current_text history scored w.
  induction remaining as [|remaining IH]; intros iteration current_text history scored w.
  - right. by eexists.
  - cbn [improvement_loop]. unfold rlhf_score.
    rewrite validate_and_score_no_key by exact Hkey. cbn [score no_key_result].
    change (fgt f5 f5) with false. cbv iota.
    assert (fge f5 (target_for analysis_type) = false) as ->.
    { unfold target_for.
      destruct (str_eqb analysis_type (lit "zodiac"));
        destruct (str_eqb analysis_type (lit "forecast"));
        destruct (str_eqb analysis_type (lit "compatibility")); reflexivity. }
    destruct (iteration <? max_iterations); [|apply IH].
    unfold rlhf_improve.
    destruct (_regenerate_with_feedback _ _ _ _ _) as [[improved|] w2];
      [apply IH|by left].
Qed.
End KeylessRegeneration.

(** Without an API key the loop with the Claude agent cannot improve a
    text: every pass scores 5.0, so whatever the regeneration returns, the
    loop either returns the text it was given with the score 5.0, or raises
    the [TypeError] when a regeneration fails. *)
Theorem improvement_without_api_key `{UnicodeDB} {World Params : Type}
    (api_key : option str) (session_post : payload -> World -> http_outcome * World)
    (max_iterations : Z) (has_prompt : Params -> bool)
    (generation_function :
       Params -> option feedback_prompt -> World -> option str * World)
    (analysis_type original_prompt : str) (generation_params : Params)
    (initial_text : str) (w : World) :
  has_api_key api_key = false ->
  0 < max_iterations ->
  let run := iterative_improvement api_key session_post true max_iterations
               has_prompt generation_function analysis_type original_prompt
               generation_params initial_text w in
  imp_result run = Raise TypeError
  \/ exists history, imp_result run = Ok (initial_text, f5, history).
Proof.
  intros Hkey Hpos. cbv zeta. unfold iterative_improvement.
  destruct (Z.to_nat max_iterations) as [|remaining] eqn:Hn; [lia|].
  cbn [improvement_loop]. unfold rlhf_score.
  rewrite validate_and_score_no_key by exact Hkey. cbn [score no_key_result].
  change (fgt f5 f0) with true. cbv iota.
  assert (fge f5 (target_for analysis_type) = false) as ->.
  { unfold target_for.
    destruct (str_eqb analysis_type (lit "zodiac"));
      destruct (str_eqb analysis_type (lit "forecast"));
      destruct (str_eqb analysis_type (lit "compatibility")); reflexivity. }
  destruct (1 <? max_iterations); [|by apply improvement_loop_no_key].
  unfold rlhf_improve.
  destruct (_regenerate_with_feedback _ _ _ _ _) as [[improved|] w2];
    [by apply improvement_loop_no_key|by left].
Qed.

Lemma improvement_without_api_key_witness :
  let run := iterative_improvement (H := ascii_db) (World := list (option str))
               (Params := unit) None no_post true 3 (fun _ => true) scripted_generation
               (lit "zodiac") (lit "prompt") tt (lit "draft")
               [Some (lit "second"); Some (lit "third")] in
  imp_result run = Raise TypeError
  \/ exists history, imp_result run = Ok (lit "draft", f5, history).
Proof.
  apply (@improvement_without_api_key ascii_db (list (option str)) unit None no_post 3
           (fun _ => true) scripted_generation (lit "zodiac") (lit "prompt") tt
           (lit "draft") [Some (lit "second"); Some (lit "third")]).
  - reflexivity.
  - lia.
Defined.

(** ** A reply without an object *)

(** Replacing brings in no character but those of the replacement. *)
Lemma in_replace_from (x : char) (old new : str) (s : str) :
  forall skip, In x (replace_from old new skip s) -> In x s \/ In x new.
Proof.
  induction s as [|c s IH]; intros skip Hin; [done|].
  cbn [replace_from] in Hin. destruct skip as [|skip].
  - destruct (starts_with old (c :: s)).
    + apply in_app_or in Hin. destruct Hin as [Hin|Hin]; [by right|].
      destruct (IH _ Hin); [left; by right|by right].
    + destruct Hin as [->|Hin]; [left; by left|].
      destruct (IH _ Hin); [left; by right|by right].
  - destruct (IH _ Hin); [left; by right|by right].
Qed.

Lemma in_str_replace (x : char) (old new s : str) :
  In x (str_replace old new s) -> In x s \/ In x new.
Proof.
  unfold str_replace. destruct old as [|o old]; [|apply in_replace_from].
  intros [Hin|Hin]%in_app_or; [by right|].
  apply in_flat_map in Hin. destruct Hin as (c & Hc & [->|Hin]); [by left|by right].
Qed.

(** A substitution brings in no character but those of the replacements. *)
Lemma in_sub_from (x : char) (r : regex) (repl : str -> str) :
  (forall m, In x (repl m) -> In x m) ->
  forall (fuel : nat) (must_advance : bool) (prev : option char) (s : str),
    In x (sub_from fuel r repl must_advance prev s) -> In x s.
Proof.
  intros Hrepl. induction fuel as [|fuel IH]; intros must_advance prev s Hin; [done|].
  cbn [sub_from] in Hin.
  destruct (re_search_from r must_advance [] prev s) as [m|] eqn:Hm; [|done].
  apply re_search_from_split in Hm. cbn [rev app] in Hm. rewrite Hm.
  apply in_app_or in Hin. destruct Hin as [Hin|Hin]; [apply in_or_app; by left|].
  apply in_app_or in Hin. apply in_or_app. right. apply in_or_app.
  destruct Hin as [Hin|Hin]; [left; by apply Hrepl|right; by eapply IH].
Qed.

Lemma in_take_while (x : char) (p : char -> bool) (s : str) :
  In x (take_while p s) -> In x s.
Proof.
  induction s as [|c s IH]; [done|]. cbn [take_while].
  destruct (p c); [|done]. intros [->|Hin]; [by left|right; by apply IH].
Qed.

Lemma in_tail (x : char) (s : str) : In x (tail s) -> In x s.
Proof. destruct s; [done|]. by right. Qed.

(** The repairs bring in no opening brace. *)
Lemma repair_no_brace `{UnicodeDB} (candidate : str) :
  In 123%N (repair candidate) -> In 123%N candidate.
Proof.
  assert (forall m, In 123%N (decimal_comma_repl m) -> In 123%N m) as Hcomma.
  { intros m. unfold decimal_comma_repl.
    destruct m as [|d1 [|c [|d2 [|? ?]]]]; try done.
    intros [Hc|[Hc|[Hc|[]]]]; [by left|discriminate Hc|right; right; by left]. }
  assert (forall m, In 123%N (score_string_repl m) -> In 123%N m) as Hscore.
  { intros m. unfold score_string_repl, score_string_group.
    intros [Hc|Hin]; [discriminate Hc|].
    apply in_app_or in Hin. destruct Hin as [Hin|Hin].
    { vm_compute in Hin. repeat (destruct Hin as [Hc|Hin]; [discriminate Hc|]). done. }
    apply in_app_or in Hin. destruct Hin as [Hin|Hin].
    { destruct Hin as [Hc|[]]. discriminate Hc. }
    apply in_app_or in Hin. destruct Hin as [Hin|Hin].
    { vm_compute in Hin. repeat (destruct Hin as [Hc|Hin]; [discriminate Hc|]). done. }
    apply in_app_or in Hin. destruct Hin as [Hin|Hin].
    { destruct Hin as [Hc|[]]. discriminate Hc. }
    apply in_app_or in Hin. destruct Hin as [Hin|Hin].
    - apply (in_strip_by is_space), in_take_while, in_rev, in_take_while, in_tail in Hin.
      by apply in_rev.
    - destruct Hin as [Hc|[]]. discriminate Hc. }
  unfold repair, re_sub_with. intros Hin.
  apply (in_sub_from _ _ _ Hscore) in Hin.
  apply in_str_replace in Hin. destruct Hin as [Hin|[Hc|[]]]; [|discriminate Hc].
  apply (in_sub_from _ _ _ Hcomma) in Hin.
  apply in_str_replace in Hin. destruct Hin as [Hin|[Hc|[]]]; [exact Hin|discriminate Hc].
Qed.

(** Without an opening brace there is no block and no object to find. *)
Lemma from_first_brace_none (s : str) : ~ In 123%N s -> from_first_brace s = None.
Proof.
  induction s as [|c s IH]; [done|]. intros Hno. cbn [from_first_brace].
  assert ((c =? 123)%N = false) as ->.
  { apply N.eqb_neq. intros ->. apply Hno. by left. }
  apply IH. intros Hin. apply Hno. by right.
Qed.

Lemma object_search_none (s : str) :
  ~ In 123%N s ->
  forall must_advance skipped prev,
    re_search_from object_pattern must_advance skipped prev s = None.
Proof.
  induction s as [|c s IH]; intros Hno must_advance skipped prev.
  - reflexivity.
  - cbn [re_search_from]. unfold re_match_at, object_pattern. cbn [RSeqs rmatch].
    assert ((c =? 123)%N = false) as ->.
    { apply N.eqb_neq. intros ->. apply Hno. by left. }
    apply IH. intros Hin. apply Hno. by right.
Qed.

Lemma extract_json_block_no_brace (text : str) :
  ~ In 123%N text -> _extract_json_block text = str_strip text.
Proof.
  intros Hno.
  assert (~ In 123%N (str_strip text)) as Hstrip.
  { intros Hin. apply Hno. by apply (in_strip_by is_space). }
  unfold _extract_json_block. rewrite (from_first_brace_none _ Hstrip).
  cbn [mbind option_bind]. unfold re_search.
  rewrite object_search_none; [reflexivity|].
  intros Hin. apply Hstrip.
  apply (in_strip_by is_space) in Hin. unfold re_sub_with in Hin.
  by apply in_sub_from in Hin.
Qed.

(** The decoder returns an object only for a text with an opening brace. *)
Lemma parse_elements_array (fuel : nat) :
  forall (depth : nat) (acc : list json) (s : str) (v : json) (rest : str),
    parse_elements fuel depth acc s = Some (v, rest) -> exists items, v = JArr items.
Proof.
  induction fuel as [|fuel IH]; intros depth acc s v rest Hp; [discriminate|].
  cbn [parse_elements] in Hp.
  destruct (scan_once fuel depth s) as [[v1 r1]|]; cbn [mbind option_bind] in Hp;
    [|discriminate].
  destruct (skip_ws r1) as [|c r2]; [discriminate|].
  repeat match type of Hp with
         | match ?x with _ => _ end = _ => destruct x; try discriminate
         end;
    first [by apply IH in Hp | injection Hp as <- _; by eexists].
Qed.

Lemma match_number_no_object (s : str) (v : json) (rest : str) :
  match_number s = Some (v, rest) -> forall fields, v <> JObj fields.
Proof.
  unfold match_number. intros Hm fields ->.
  destruct (match s with 45%N :: r => (true, r) | _ => (false, s) end) as [neg s1].
  destruct (match s1 with
            | c :: r =>
              if ((49 <=? c) && (c <=? 57))%N then Some (span_digits s1)
              else if (c =? 48)%N then Some ([c], r)
              else None
            | [] => None
            end) as [[ip s2]|]; cbn [mbind option_bind] in Hm; [|discriminate].
  destruct (match s2 with
            | 46%N :: ((d :: _) as r) => if is_digit d then span_digits r else ([], s2)
            | _ => ([], s2)
            end) as [fp s3].
  destruct (match take_exponent s3 with
            | Some (e, s4) => (Some e, s4)
            | None => (None, s3)
            end) as [ex s4].
  destruct fp; [destruct ex; [|destruct (_ <? _)%nat]|]; discriminate.
Qed.

Lemma scan_once_object (fuel depth : nat) (s : str) (fields : dict) (rest : str) :
  scan_once fuel depth s = Some (JObj fields, rest) -> exists r, s = 123%N :: r.
Proof.
  destruct fuel as [|fuel]; [discriminate|]. cbn [scan_once].
  destruct s as [|c r]; [discriminate|].
  destruct (c =? quote)%N.
  { destruct (scanstring r) as [[t rest']|]; discriminate. }
  destruct (c =? 123)%N eqn:Ec.
  { apply N.eqb_eq in Ec. subst c. by eexists. }
  destruct (c =? 91)%N.
  { intros Hp.
    assert (exists items, JObj fields = JArr items) as [items Hitems]; [|discriminate].
    destruct depth as [|depth]; [discriminate|].
    destruct (skip_ws r) as [|c' r'].
    - by apply parse_elements_array in Hp.
    - repeat match type of Hp with
             | match ?x with _ => _ end = _ => destruct x
             end;
        first [by apply parse_elements_array in Hp | discriminate]. }
  repeat (match goal with |- (if ?b then _ else _) = _ -> _ => destruct b end;
          [discriminate|]).
  intros Hm. by destruct (match_number_no_object _ _ _ Hm fields).
Qed.

Lemma json_loads_object `{UnicodeDB} (s : str) (fields : dict) :
  json_loads s = Some (JObj fields) -> In 123%N s.
Proof.
  unfold json_loads. intros Hl.
  assert (exists rest,
            scan_once (2 * length s + 2) json_nesting (skip_ws s)
            = Some (JObj fields, rest))
    as [rest Hscan].
  { destruct s as [|c s'].
    - destruct (scan_once _ _ _) as [[v rest]|]; cbn [mbind option_bind] in Hl;
        [|discriminate].
      destruct (skip_ws rest); [|discriminate]. injection Hl as ->. by eexists.
    - repeat match type of Hl with
             | match ?x with _ => _ end = _ => destruct x; try discriminate
             end;
        (destruct (scan_once _ _ _) as [[v rest]|]; cbn [mbind option_bind] in Hl;
         [|discriminate]);
        (destruct (skip_ws rest); [|discriminate]); injection Hl as ->; by eexists. }
  apply scan_once_object in Hscan. destruct Hscan as [r Hr].
  unfold skip_ws in Hr. apply (in_lstrip_by is_json_ws). rewrite Hr. by left.
Qed.

(** A reply without an opening brace has no object for the parser: it
    gets the default report when [json_loads] accepts neither the reply
    itself, stripped, nor its repaired form (lists nested beyond
    [json_nesting] are not accepted), and the parser raises when
    [json_loads] accepts one of them, the value being a number, a string, a
    list, [true], [false] or [null]. *)
Theorem reply_without_an_object `{UnicodeDB} (content : str) :
  ~ In 123%N content ->
  let candidate :=
    str_strip (str_replace [9%N] [32%N] (str_replace [13%N] [32%N] content)) in
  (json_loads candidate = None /\ json_loads (repair candidate) = None
   /\ parse_validation_response content = Ok default_data)
  \/ ((is_Some (json_loads candidate) \/ is_Some (json_loads (repair candidate)))
      /\ exists e, parse_validation_response content = Raise e).
Proof.
  intros Hno candidate.
  assert (~ In 123%N (str_replace [9%N] [32%N] (str_replace [13%N] [32%N] content)))
    as Hclean.
  { intros Hin. apply in_str_replace in Hin. destruct Hin as [Hin|[Hc|[]]];
      [|discriminate Hc].
    apply in_str_replace in Hin. destruct Hin as [Hin|[Hc|[]]]; [by apply Hno|].
    discriminate Hc. }
  assert (~ In 123%N candidate) as Hcand.
  { intros Hin. apply Hclean. by apply (in_strip_by is_space). }
  assert (load_data content =
          match json_loads candidate with
          | Some data => data
          | None => match json_loads (repair candidate) with
                    | Some data => data
                    | None => default_data
                    end
          end) as Hload.
  { unfold load_data. by rewrite (extract_json_block_no_brace _ Hclean). }
  destruct (json_loads candidate) as [data|] eqn:H1.
  - right. split; [by left|]. apply parse_raises_on_other.
    rewrite Hload. intros fields ->. apply Hcand. by apply (json_loads_object _ fields).
  - destruct (json_loads (repair candidate)) as [data|] eqn:H2.
    + right. split; [by right|]. apply parse_raises_on_other.
      rewrite Hload. intros fields ->. apply Hcand, repair_no_brace.
      by apply (json_loads_object _ fields).
    + left. split; [reflexivity|]. split; [reflexivity|].
      rewrite (parse_on_dict content _ Hload). reflexivity.
Qed.

Lemma reply_without_an_object_witness :
  let candidate := str_strip (str_replace [9%N] [32%N] (str_replace [13%N] [32%N]
                                                          (lit " 7,5 "))) in
  (@json_loads ascii_db candidate = None
   /\ @json_loads ascii_db (@repair ascii_db candidate) = None
   /\ @parse_validation_response ascii_db (lit " 7,5 ") = Ok default_data)
  \/ ((is_Some (@json_loads ascii_db candidate)
       \/ is_Some (@json_loads ascii_db (@repair ascii_db candidate)))
      /\ exists e, @parse_validation_response ascii_db (lit " 7,5 ") = Raise e).
Proof.
  apply (@reply_without_an_object ascii_db (lit " 7,5 ")).
  vm_compute. intros Hin. repeat (destruct Hin as [Hc|Hin]; [discriminate Hc|]). exact Hin.
Defined.

(** ** The prose around the object *)

Lemma replace_single_absent (c : char) (new s : str) :
  ~ In c s -> str_replace [c] new s = s.
Proof.
  unfold str_replace. induction s as [|x s IH]; [done|]. intros Hno.
  cbn [replace_from starts_with].
  assert ((c =? x)%N = false) as ->.
  { apply N.eqb_neq. intros ->. apply Hno. by left. }
  cbn [andb]. f_equal. apply IH. intros Hin. apply Hno. by right.
Qed.

Lemma replace_single_removes (c : char) (new s : str) :
  ~ In c new -> ~ In c (str_replace [c] new s).
Proof.
  intros Hnew. unfold str_replace. induction s as [|x s IH]; [by intros []|].
  cbn [replace_from starts_with]. destruct (c =? x)%N eqn:Ec; cbn [andb length Nat.pred].
  - intros [Hin|Hin]%in_app_or; [by apply Hnew|by apply IH].
  - intros [->|Hin]; [by rewrite N.eqb_refl in Ec|by apply IH].
Qed.

(** A balanced block ends with a closing brace. *)
Lemma balanced_last (block : str) : balanced block -> exists init, block = init ++ [125%N].
Proof.
  intros ([rest Hblock] & Hend & Hopen).
  destruct (exists_last (l := block)) as (init & l & Hl); [by rewrite Hblock|].
  exists init. rewrite Hl. do 2 f_equal.
  rewrite Hl, brace_depth_app in Hend. cbn [brace_depth fold_right] in Hend.
  destruct init as [|c init].
  - cbn [app] in Hl. rewrite Hblock in Hl. injection Hl as <- _.
    cbn [brace_depth fold_right] in Hend. vm_compute in Hend. discriminate.
  - specialize (Hopen (c :: init) [l] Hl). unfold brace_depth in Hopen at 1.
    assert (0 < brace_depth (c :: init)) as Hpos by (by apply Hopen).
    unfold brace_delta in Hend.
    destruct (l =? 123)%N; [lia|]. destruct (l =? 125)%N eqn:El; [|lia].
    by apply N.eqb_eq in El.
Qed.

Lemma strip_by_fixed (p : char -> bool) (c l : char) (middle : str) :
  p c = false -> p l = false ->
  strip_by p (c :: middle ++ [l]) = c :: middle ++ [l].
Proof.
  intros Hc Hl. unfold strip_by, rstrip_by. cbn [lstrip_by]. rewrite Hc.
  change (c :: middle ++ [l]) with ((c :: middle) ++ [l]).
  rewrite rev_app_distr. cbn [rev app lstrip_by]. rewrite Hl.
  change (l :: rev middle ++ [c]) with ([l] ++ rev (c :: middle)).
  rewrite rev_app_distr, rev_involutive. reflexivity.
Qed.

Lemma balanced_stripped (block : str) : balanced block -> str_strip block = block.
Proof.
  intros Hb. destruct (balanced_last block Hb) as [init Hinit].
  destruct Hb as ([rest Hblock] & Hend & _).
  destruct init as [|c init].
  - rewrite Hinit in Hblock. discriminate.
  - rewrite Hinit in Hblock. injection Hblock as -> _. rewrite Hinit.
    by apply strip_by_fixed.
Qed.

(** The reply is parsed as its first balanced block alone: if the reply,
    with carriage returns and tabs turned into spaces and stripped, has no
    opening brace before a block that starts with an opening brace and ends
    with the closing brace that balances it, the result, report or
    exception, is that for the block, whatever text precedes and follows
    it. *)
Theorem reply_is_parsed_as_its_first_block `{UnicodeDB}
    (content before block after : str) :
  str_strip (str_replace [9%N] [32%N] (str_replace [13%N] [32%N] content))
  = before ++ block ++ after ->
  ~ In 123%N before ->
  balanced block ->
  parse_validation_response content = parse_validation_response block.
Proof.
  intros Hsplit Hbefore Hbalanced.
  assert (forall c, c = 9%N \/ c = 13%N -> ~ In c block) as Hclean.
  { intros c Hc Hin.
    assert (In c (str_replace [9%N] [32%N] (str_replace [13%N] [32%N] content))) as Hin'.
    { apply (in_strip_by is_space). fold str_strip. rewrite Hsplit.
      apply in_or_app. right. apply in_or_app. by left. }
    destruct Hc as [-> | ->].
    - revert Hin'. apply replace_single_removes. intros [Hc|[]]. discriminate Hc.
    - apply in_str_replace in Hin'. destruct Hin' as [Hin'|[Hc|[]]]; [|discriminate Hc].
      revert Hin'. apply replace_single_removes. intros [Hc|[]]. discriminate Hc. }
  assert (load_data content = load_data block) as Hload.
  { unfold load_data.
    rewrite (extract_first_balanced _ before block after Hsplit Hbefore Hbalanced).
    rewrite (replace_single_absent 13%N [32%N] block) by (apply Hclean; by right).
    rewrite (replace_single_absent 9%N [32%N] block) by (apply Hclean; by left).
    rewrite (extract_first_balanced block [] block []);
      [reflexivity| |by intros []|exact Hbalanced].
    cbn [app]. rewrite app_nil_r. by apply balanced_stripped. }
  unfold parse_validation_response. by rewrite Hload.
Qed.

Lemma reply_is_parsed_as_its_first_block_witness :
  @parse_validation_response ascii_db (lit "Sure! {a{b}c} Hope it helps: {d}")
  = @parse_validation_response ascii_db (lit "{a{b}c}").
Proof.
  apply (@reply_is_parsed_as_its_first_block ascii_db
           (lit "Sure! {a{b}c} Hope it helps: {d}") (lit "Sure! ") (lit "{a{b}c}")
           (lit " Hope it helps: {d}")).
  - vm_compute. reflexivity.
  - vm_compute. intros Hin. repeat (destruct Hin as [Hc|Hin]; [discriminate Hc|]).
    exact Hin.
  - split; [by eexists|]. split; [vm_compute; reflexivity|].
    intros b a Hblock Hb Ha.
    assert (exists n, (0 < n < 7)%nat /\ b = take n (lit "{a{b}c}")) as (n & Hn & ->).
    { exists (length b). split.
      - apply (f_equal (@length N)) in Hblock. rewrite length_app in Hblock.
        destruct b; [done|]. destruct a; [done|].
        change (length (lit "{a{b}c}")) with 7%nat in Hblock. simpl in Hblock |- *. lia.
      - rewrite Hblock. by rewrite take_app_length. }
    destruct n as [|[|[|[|[|[|[|n]]]]]]]; try lia; vm_compute; reflexivity.
Defined.

(** ** Finding the title *)

(** The pattern of a text matches the text itself. *)
Lemma rmatch_lit (X : Type) (t : str) :
  forall (prev : option char) (rest : str) (k : option char -> str -> option X),
    exists prev', rmatch X (RLit t) prev (t ++ rest) k = k prev' rest.
Proof.
  induction t as [|c t IH]; intros prev rest k.
  - by exists prev.
  - cbn [RLit rmatch app]. rewrite N.eqb_refl. apply IH.
Qed.

(** A greedy star matches whenever what follows it matches on the spot. *)
Lemma rmatch_star_skip (X : Type) (p : char -> bool) (prev : option char) (s : str)
    (k : option char -> str -> option X) :
  is_Some (k prev s) -> is_Some (rmatch X (RStar true p) prev s k).
Proof.
  intros Hk. cbn [rmatch]. destruct s as [|c s]; [exact Hk|].
  destruct (p c); [|exact Hk].
  match goal with |- is_Some (match ?inner with _ => _ end) => destruct inner end;
    [done|exact Hk].
Qed.

(** The title pattern matches at the start of a line that is the title. *)
Lemma title_pattern_matches (title after : str) (prev : option char) :
  title <> [] -> str_strip title = title ->
  prev = None \/ prev = Some newline ->
  after = [] \/ head after = Some newline ->
  is_Some (re_match_at (title_pattern title) false prev (title ++ after)).
Proof.
  intros Hne Hstripped Hprev Hafter.
  unfold re_match_at, title_pattern. cbn [RSeqs rmatch andb].
  assert (forall X (k : option char -> str -> option X),
            match prev with
            | Some c => if (c =? newline)%N then k prev (title ++ after) else None
            | None => k prev (title ++ after)
            end = k prev (title ++ after)) as Hbol.
  { intros X k. by destruct Hprev as [-> | ->]. }
  rewrite Hbol.
  destruct title as [|c title]; [done|].
  assert (is_space c = false) as Hc.
  { unfold str_strip, strip_by, rstrip_by in Hstripped.
    pose proof (lstrip_by_head is_space (c :: title)) as Hhead.
    destruct (lstrip_by_split is_space (rev (lstrip_by is_space (c :: title))))
      as [w [Hw _]].
    assert (lstrip_by is_space (c :: title) = (c :: title) ++ rev w) as Hl.
    { rewrite <- Hstripped at 2. rewrite <- rev_app_distr, <- Hw.
      by rewrite rev_involutive. }
    rewrite Hl in Hhead. exact Hhead. }
  cbn [app]. rewrite Hc.
  change (c :: title ++ after) with ((c :: title) ++ after).
  match goal with |- is_Some (rmatch ?X (RLit ?t) prev (?t ++ after) ?k) =>
    destruct (rmatch_lit X t prev after k) as [prev' ->] end.
  apply rmatch_star_skip. cbn [rmatch].
  destruct Hafter as [-> | Hhead]; [done|].
  destruct after as [|a after]; [done|]. injection Hhead as ->. done.
Qed.

(** A search finds a match at or before a position where the pattern
    matches. *)
Lemma re_search_from_finds (r : regex) (s : str) (before : str) :
  forall (skipped : str) (prev : option char),
    is_Some (re_match_at r false (from_option Some prev (last before)) s) ->
    exists m, re_search_from r false skipped prev (before ++ s) = Some m
              /\ (length (m_before m) <= length skipped + length before)%nat.
Proof.
  induction before as [|b before IH]; intros skipped prev Hm.
  - cbn [last from_option app] in Hm |- *.
    destruct (re_match_at r false prev s) as [[prev' rest]|] eqn:Eat;
      [|by destruct Hm].
    destruct s as [|c s]; cbn [re_search_from]; rewrite Eat; eexists;
      (split; [reflexivity|]); cbn [m_before]; rewrite length_rev; lia.
  - cbn [app re_search_from].
    destruct (re_match_at r false prev (b :: before ++ s)) as [[prev' rest]|].
    + eexists. split; [reflexivity|]. cbn [m_before]. rewrite length_rev. lia.
    + destruct (IH (b :: skipped) (Some b)) as (m & Hsearch & Hlen).
      * assert (from_option Some (Some b) (last before)
                = from_option Some prev (last (b :: before))) as ->; [|exact Hm].
        destruct before as [|b' before]; [reflexivity|].
        rewrite last_cons_cons.
        destruct (last (b' :: before)) eqn:El; [reflexivity|].
        by apply last_None in El.
      * exists m. split; [exact Hsearch|]. cbn [length] in Hlen |- *. lia.
Qed.

(** A line that is the title is found: in a text with a line that
    consists of the stripped title, at its start or after a newline and up to
    its end or a newline, [find_section] finds the title, at that line or
    before it. *)
Theorem title_line_is_found (before title after : str) :
  str_strip title <> [] ->
  before = [] \/ last before = Some newline ->
  after = [] \/ head after = Some newline ->
  let text := before ++ str_strip title ++ after in
  0 <= find_section text (str_strip title) <= Z.of_nat (length before).
Proof.
  intros Hne Hbefore Hafter. cbv zeta.
  unfold find_section, search_start, re_search.
  destruct (re_search_from_finds (title_pattern (str_strip title))
              (str_strip title ++ after) before [] None) as (m & -> & Hlen).
  - apply title_pattern_matches; [exact Hne|apply strip_by_idemp| |exact Hafter].
    destruct Hbefore as [-> | ->]; [by left|by right].
  - cbn [length] in Hlen. lia.
Qed.

Lemma title_line_is_found_witness :
  let text := lines ["Intro"%string] ++ str_strip (lit " SUMMARY ")
              ++ (newline :: lit " old") in
  0 <= find_section text (str_strip (lit " SUMMARY "))
    <= Z.of_nat (length (lines ["Intro"%string])).
Proof.
  apply (title_line_is_found (lines ["Intro"%string]) (lit " SUMMARY ")
           (newline :: lit " old")).
  - vm_compute. discriminate.
  - right. vm_compute. reflexivity.
  - right. reflexivity.
Defined.

(** ** What a match consumes *)

Lemma prev_after_app (prev : option char) (s t : str) :
  prev_after (prev_after prev s) t = prev_after prev (s ++ t).
Proof.
  unfold prev_after. rewrite last_app. by destruct (last t).
Qed.

Lemma prev_after_cons (prev : option char) (c : char) (s : str) :
  prev_after prev (c :: s) = prev_after (Some c) s.
Proof. symmetry. apply (prev_after_app prev [c] s). Qed.

(** A greedy star consumes characters of its class. *)
Lemma rmatch_star_inv (X : Type) (greedy : bool) (p : char -> bool) (s : str) :
  forall (prev : option char) (k : option char -> str -> option X) (x : X),
    rmatch X (RStar greedy p) prev s k = Some x ->
    exists consumed rest,
      s = consumed ++ rest /\ forallb p consumed = true
      /\ k (prev_after prev consumed) rest = Some x.
Proof.
  destruct greedy; cbn [rmatch].
  - induction s as [|c s IH]; intros prev k x Hm.
    + by exists [], [].
    + destruct (p c) eqn:Ep; [|by exists [], (c :: s)].
      match type of Hm with match ?inner with _ => _ end = _ =>
        destruct inner as [x1|] eqn:Einner end.
      * injection Hm as ->. apply IH in Einner.
        destruct Einner as (consumed & rest & -> & Hall & Hk).
        exists (c :: consumed), rest. split; [reflexivity|].
        split; [cbn [forallb]; by rewrite Ep|]. by rewrite prev_after_cons.
      * by exists [], (c :: s).
  - induction s as [|c s IH]; intros prev k x Hm.
    + destruct (k prev []) as [x1|] eqn:Ek; [|discriminate].
      injection Hm as ->. by exists [], [].
    + destruct (k prev (c :: s)) as [x1|] eqn:Ek.
      * injection Hm as ->. by exists [], (c :: s).
      * destruct (p c) eqn:Ep; [|discriminate]. apply IH in Hm.
        destruct Hm as (consumed & rest & -> & Hall & Hk).
        exists (c :: consumed), rest. split; [reflexivity|].
        split; [cbn [forallb]; by rewrite Ep|]. by rewrite prev_after_cons.
Qed.

(** A lazy star stops at the first position where what follows it
    matches. *)
Lemma rmatch_lazy_first (X : Type) (p : char -> bool) (s : str) :
  forall (prev : option char) (k : option char -> str -> option X) (x : X),
    rmatch X (RStar false p) prev s k = Some x ->
    exists consumed rest,
      s = consumed ++ rest
      /\ k (prev_after prev consumed) rest = Some x
      /\ forall c1 c2, consumed = c1 ++ c2 -> c2 <> [] ->
           k (prev_after prev c1) (c2 ++ rest) = None.
Proof.
  cbn [rmatch]. induction s as [|c s IH]; intros prev k x Hm.
  - destruct (k prev []) as [x1|] eqn:Ek; [|discriminate].
    injection Hm as ->. exists [], []. split; [reflexivity|]. split; [exact Ek|].
    intros c1 c2 Hc Hne. apply (f_equal (@length N)) in Hc.
    rewrite length_app in Hc. destruct c2; [done|]. simpl in Hc. lia.
  - destruct (k prev (c :: s)) as [x1|] eqn:Ek.
    + injection Hm as ->. exists [], (c :: s). split; [reflexivity|]. split; [exact Ek|].
      intros c1 c2 Hc Hne. apply (f_equal (@length N)) in Hc.
      rewrite length_app in Hc. destruct c2; [done|]. simpl in Hc. lia.
    + destruct (p c) eqn:Ep; [|discriminate]. apply IH in Hm.
      destruct Hm as (consumed & rest & -> & Hk & Hfirst).
      exists (c :: consumed), rest. split; [reflexivity|].
      split; [by rewrite prev_after_cons|].
      intros c1 c2 Hc Hne. destruct c1 as [|c0 c1].
      * cbn [app] in Hc. subst c2. exact Ek.
      * injection Hc as <- Hc. rewrite prev_after_cons. by apply Hfirst.
Qed.

(** The pattern of a text consumes that text. *)
Lemma rmatch_lit_inv (X : Type) (t : str) :
  forall (prev : option char) (s : str) (k : option char -> str -> option X) (x : X),
    rmatch X (RLit t) prev s k = Some x ->
    exists rest, s = t ++ rest /\ k (prev_after prev t) rest = Some x.
Proof.
  induction t as [|c t IH]; intros prev s k x Hm.
  - by exists s.
  - cbn [RLit rmatch] in Hm. destruct s as [|c0 s]; [discriminate|].
    destruct (c0 =? c)%N eqn:Ec; [|discriminate]. apply N.eqb_eq in Ec. subst c0.
    apply IH in Hm. destruct Hm as (rest & -> & Hk). exists rest.
    split; [reflexivity|]. by rewrite prev_after_cons.
Qed.

(** A greedy star matches after any run of characters of its class, if
    what follows it matches there. *)
Lemma rmatch_star_run (X : Type) (p : char -> bool) (run : str) :
  forall (prev : option char) (s : str) (k : option char -> str -> option X),
    forallb p run = true ->
    is_Some (k (prev_after prev run) s) ->
    is_Some (rmatch X (RStar true p) prev (run ++ s) k).
Proof.
  induction run as [|c run IH]; intros prev s k Hall Hk.
  - by apply rmatch_star_skip.
  - cbn [forallb] in Hall. apply andb_true_iff in Hall. destruct Hall as [Hc Hall].
    rewrite prev_after_cons in Hk.
    destruct (IH (Some c) s k Hall Hk) as [x Hx].
    cbn [rmatch app] in Hx |- *. rewrite Hc, Hx. done.
Qed.

(** The start of the title and section patterns: the start of a line,
    whitespace, the title and whitespace up to the end of a line. *)
Lemma title_start_inv (X : Type) (title : str) (r : regex) (prev : option char)
    (s : str) (k : option char -> str -> option X) (x : X) :
  rmatch X (RSeq RBol (RSeq (RStar true is_space) (RSeq (RLit title)
              (RSeq (RStar true is_space) (RSeq REol r))))) prev s k = Some x ->
  (prev = None \/ prev = Some newline)
  /\ exists indent trailing rest,
       s = indent ++ title ++ trailing ++ rest
       /\ forallb is_space indent = true
       /\ forallb is_space trailing = true
       /\ (rest = [] \/ head rest = Some newline)
       /\ rmatch X r (prev_after prev (indent ++ title ++ trailing)) rest k = Some x.
Proof.
  intros Hm. cbn [rmatch] in Hm.
  assert ((prev = None \/ prev = Some newline)
          /\ rmatch X (RStar true is_space) prev s
               (fun prev1 s1 => rmatch X (RLit title) prev1 s1
                  (fun prev2 s2 => rmatch X (RStar true is_space) prev2 s2
                     (fun prev3 s3 => rmatch X REol prev3 s3
                        (fun prev4 s4 => rmatch X r prev4 s4 k)))) = Some x)
    as [Hprev Hstar].
  { destruct prev as [c|]; [|by split; [left|]].
    destruct (c =? newline)%N eqn:Ec; [|discriminate].
    apply N.eqb_eq in Ec. subst c. by split; [right|]. }
  split; [exact Hprev|].
  apply rmatch_star_inv in Hstar. destruct Hstar as (indent & s1 & -> & Hindent & Hlit).
  apply rmatch_lit_inv in Hlit. destruct Hlit as (s2 & -> & Hstar2).
  apply rmatch_star_inv in Hstar2. destruct Hstar2 as (trailing & rest & -> & Htrail & Heol).
  exists indent, trailing, rest. split; [reflexivity|].
  split; [exact Hindent|]. split; [exact Htrail|].
  rewrite !prev_after_app in Heol. cbn [rmatch] in Heol.
  destruct rest as [|c rest]; [by split; [left|]|].
  destruct (c =? newline)%N eqn:Ec; [|discriminate].
  apply N.eqb_eq in Ec. subst c. by split; [right|].
Qed.

(** Where a search finds its match. *)
Lemma re_search_from_inv (r : regex) (s : str) :
  forall (must_advance : bool) (skipped : str) (prev : option char) (m : re_match),
    re_search_from r must_advance skipped prev s = Some m ->
    exists s1 s2 advance,
      s = s1 ++ s2
      /\ m_before m = rev skipped ++ s1
      /\ re_match_at r advance (prev_after prev s1) s2 = Some (m_prev m, m_after m).
Proof.
  induction s as [|c s IH]; intros must_advance skipped prev m Hm;
    cbn [re_search_from] in Hm.
  - destruct (re_match_at r must_advance prev []) as [[prev' rest]|] eqn:Eat;
      [|discriminate].
    injection Hm as <-. exists [], [], must_advance. cbn [m_before m_prev m_after].
    split; [reflexivity|]. split; [by rewrite app_nil_r|exact Eat].
  - destruct (re_match_at r must_advance prev (c :: s)) as [[prev' rest]|] eqn:Eat.
    + injection Hm as <-. exists [], (c :: s), must_advance.
      cbn [m_before m_prev m_after].
      split; [reflexivity|]. split; [by rewrite app_nil_r|exact Eat].
    + apply IH in Hm. destruct Hm as (s1 & s2 & advance & -> & Hbefore & Hat).
      exists (c :: s1), s2, advance. split; [reflexivity|].
      split; [rewrite Hbefore; cbn [rev]; by rewrite <- app_assoc|].
      by rewrite prev_after_cons.
Qed.

(** The title pattern matches at the start of a line that holds the
    title. *)
Lemma title_line_matches (title indent trailing after : str) (prev : option char) :
  prev = None \/ prev = Some newline ->
  forallb is_space indent = true ->
  forallb is_space trailing = true ->
  after = [] \/ head after = Some newline ->
  is_Some (re_match_at (title_pattern title) false prev
             (indent ++ title ++ trailing ++ after)).
Proof.
  intros Hprev Hindent Htrail Hafter.
  unfold re_match_at, title_pattern. cbn [RSeqs andb].
  assert (forall X r s (k : option char -> str -> option X),
            rmatch X (RSeq RBol r) prev s k = rmatch X r prev s k) as ->.
  { intros X r s k. cbn [rmatch]. by destruct Hprev as [-> | ->]. }
  assert (forall X r1 r2 p s (k : option char -> str -> option X),
            rmatch X (RSeq r1 r2) p s k
            = rmatch X r1 p s (fun prev' s' => rmatch X r2 prev' s' k)) as Hseq
    by reflexivity.
  rewrite Hseq. apply rmatch_star_run; [exact Hindent|].
  rewrite Hseq.
  match goal with |- is_Some (rmatch ?X (RLit ?t) ?p (?t ++ ?rest) ?k) =>
    destruct (rmatch_lit X t p rest k) as [prev' ->] end.
  rewrite Hseq. apply rmatch_star_run; [exact Htrail|].
  cbn [rmatch].
  destruct Hafter as [-> | Hhead]; [done|].
  destruct after as [|a after]; [done|]. injection Hhead as ->. done.
Qed.

(** [find_section] finds a title exactly when the title stands on a line
    of its own. *)
Lemma find_section_title_line (text title : str) :
  find_section text title <> -1 <-> title_line text title.
Proof.
  unfold find_section, search_start, re_search. split.
  - destruct (re_search_from (title_pattern title) false [] None text) as [m|] eqn:Hm;
      [intros _|done].
    apply re_search_from_inv in Hm.
    destruct Hm as (before & s2 & advance & -> & _ & Hat).
    unfold re_match_at, title_pattern in Hat. cbn [RSeqs] in Hat.
    apply title_start_inv in Hat.
    destruct Hat as (Hprev & indent & trailing & after & -> & Hindent & Htrail & Hafter & _).
    exists before, indent, trailing, after. split; [reflexivity|].
    split; [|done]. unfold prev_after in Hprev. cbn [from_option] in Hprev.
    destruct Hprev as [Hnone|Hnl]; [left|right].
    + destruct (last before) eqn:El; [discriminate|]. by apply last_None in El.
    + destruct (last before) eqn:El; [exact Hnl|discriminate].
  - intros (before & indent & trailing & after & -> & Hbefore & Hindent & Htrail & Hafter).
    destruct (re_search_from_finds (title_pattern title)
                (indent ++ title ++ trailing ++ after) before [] None)
      as (m & -> & _); [|lia].
    apply title_line_matches; try done.
    destruct Hbefore as [-> | ->]; [by left|by right].
Qed.

(** ** A replace patch on a text without the section *)

(** C6 (amended): for a replace patch with a non-empty title and a
    non-empty content, on a text in which the title does not stand on a line
    of its own, with at most whitespace around it, the result is the text
    without its trailing whitespace, an empty line, the content and a
    newline; the title is not written, and the result differs from the text.
    So whenever the title does not stand on a line of its own in the text
    patched once either, patching it a second time appends the content once
    more and gives another text: the patch is not idempotent. *)
Theorem replace_patch_on_missing_section `{UnicodeDB} (text title action content : str) :
  let report := report_with [] [section_patch title action content] in
  action <> [] ->
  str_lower (str_strip action) = lit "replace" ->
  str_strip title <> [] ->
  str_strip content <> [] ->
  (forall t, ~ title_line t (str_strip title) ->
     apply_validator_patches t report = Ok (append_section t (str_strip content))
     /\ append_section t (str_strip content) <> t)
  /\ (forall once, apply_validator_patches text report = Ok once ->
        ~ title_line once (str_strip title) ->
        apply_validator_patches once report <> Ok once).
Proof.
  intros report Hgiven Haction Htitle Hcontent. subst report.
  assert (forall t, ~ title_line t (str_strip title) ->
            apply_validator_patches t (report_with [] [section_patch title action content])
            = Ok (append_section t (str_strip content))
            /\ append_section t (str_strip content) <> t) as Happly.
  { intros t Ht. split; [|by apply append_section_changes].
    assert (find_section t (str_strip title) = -1) as Habsent.
    { destruct (decide (find_section t (str_strip title) = -1)) as [Heq|Hne]; [exact Heq|].
      destruct Ht. by apply find_section_title_line. }
    rewrite apply_one_section_patch, apply_section_patch_strings. cbv zeta.
    assert (nonempty (str_strip title) = true) as -> by (by destruct (str_strip title)).
    assert (nonempty (str_strip content) = true) as -> by (by destruct (str_strip content)).
    assert (nonempty action = true) as -> by (by destruct action).
    rewrite Haction, Habsent. cbn [negb orb].
    by destruct (str_eqb (lit "replace") (lit "insert")). }
  split; [exact Happly|].
  intros once _ Habsent. destruct (Happly once Habsent) as [-> Hne].
  intros [= Heq]. by apply Hne.
Qed.

Lemma replace_patch_on_missing_section_witness :
  let report := report_with [] [section_patch (lit "SUMMARY") (lit "replace") (lit "Hello")] in
  let once := append_section (lit "Intro") (str_strip (lit "Hello")) in
  (@apply_validator_patches ascii_db (lit "Intro") report = Ok once
   /\ once <> lit "Intro")
  /\ @apply_validator_patches ascii_db once report <> Ok once.
Proof.
  destruct (@replace_patch_on_missing_section ascii_db
              (lit "Intro") (lit "SUMMARY") (lit "replace") (lit "Hello"))
    as [Hmissing Htwice].
  - vm_compute. discriminate.
  - vm_compute. reflexivity.
  - vm_compute. discriminate.
  - vm_compute. discriminate.
  - assert (~ title_line (lit "Intro") (str_strip (lit "SUMMARY"))) as Habsent.
    { intros Hline. apply find_section_title_line in Hline. by apply Hline. }
    split; [exact (Hmissing _ Habsent)|].
    apply Htwice; [exact (proj1 (Hmissing _ Habsent))|].
    intros Hline. apply find_section_title_line in Hline. by apply Hline.
Defined.

(** ** Where a section ends *)

Lemma starts_with_app (t s : str) : starts_with t (t ++ s) = true.
Proof. induction t as [|c t IH]; [done|]. cbn [starts_with app]. by rewrite N.eqb_refl. Qed.

Lemma str_contains_app (t before after : str) :
  str_contains t (before ++ t ++ after) = true.
Proof.
  induction before as [|c before IH].
  - cbn [app]. destruct (t ++ after) eqn:E; cbn [str_contains];
      rewrite <- E, starts_with_app; reflexivity.
  - cbn [app str_contains]. rewrite IH. apply orb_true_r.
Qed.

(** What a match of the section pattern consumes: the line of the title,
    and then the lines that are empty or start with whitespace, up to the end
    of the text or to a line that starts with another character. *)
Lemma section_match_inv (title : str) (advance : bool) (prev prev' : option char)
    (s rest : str) :
  title <> [] ->
  re_match_at (section_pattern title) advance prev s = Some (prev', rest) ->
  (prev = None \/ prev = Some newline)
  /\ exists indent tail,
       s = indent ++ title ++ tail ++ rest
       /\ forallb is_space indent = true
       /\ prev' = prev_after prev (indent ++ title ++ tail)
       /\ (forall t1 c t2, tail = t1 ++ c :: t2 ->
             prev_after prev (indent ++ title ++ t1) = Some newline ->
             is_space c = true)
       /\ (rest = []
           \/ ((prev' = None \/ prev' = Some newline)
               /\ exists c, head rest = Some c /\ is_space c = false)).
Proof.
  unfold re_match_at, section_pattern. cbn [RSeqs]. intros Htitle Hm.
  apply title_start_inv in Hm.
  destruct Hm as (Hprev & indent & trailing & s1 & -> & Hindent & Htrail & Heol & Hbody).
  split; [exact Hprev|].
  change (rmatch ?X (RSeq ?r1 ?r2) ?p ?t ?k)
    with (rmatch X r1 p t (fun q u => rmatch X r2 q u k)) in Hbody.
  apply rmatch_lazy_first in Hbody.
  destruct Hbody as (body & rest' & -> & Hlook & Hfirst).
  rewrite prev_after_app in Hlook.
  set (end_prev := prev_after prev ((indent ++ title ++ trailing) ++ body)) in *.
  cbn [rmatch] in Hlook.
  assert (rest' = rest /\ end_prev = prev'
          /\ (rest' = []
              \/ ((end_prev = None \/ end_prev = Some newline)
                  /\ exists c, head rest' = Some c /\ is_space c = false)))
    as (-> & <- & Hend).
  { destruct end_prev as [e|]; destruct rest' as [|c rest'']; cbn [rmatch] in Hlook.
    - destruct (e =? newline)%N; destruct (_ && _); try discriminate;
        injection Hlook as <- <-; by repeat split; try left.
    - destruct (e =? newline)%N eqn:Ee; [|discriminate].
      apply N.eqb_eq in Ee. subst e.
      destruct (non_space c) eqn:Ec; [|discriminate].
      destruct (_ && _); [discriminate|]. injection Hlook as <- <-.
      repeat split. right. split; [by right|]. exists c. split; [reflexivity|].
      unfold non_space in Ec. by destruct (is_space c).
    - destruct (_ && _); [discriminate|]. injection Hlook as <- <-.
      by repeat split; try left.
    - destruct (non_space c) eqn:Ec; [|discriminate].
      destruct (_ && _); [discriminate|]. injection Hlook as <- <-.
      repeat split. right. split; [by left|]. exists c. split; [reflexivity|].
      unfold non_space in Ec. by destruct (is_space c). }
  exists indent, (trailing ++ body).
  split; [by rewrite <- !app_assoc|].
  split; [exact Hindent|].
  split; [subst end_prev; by rewrite <- !app_assoc|].
  split; [|exact Hend].
  intros t1 c t2 Htail Hnl.
  assert (In c trailing
          \/ exists b1, t1 = trailing ++ b1 /\ body = b1 ++ c :: t2) as [Hc|Hb].
  { apply app_eq_app in Htail. destruct Htail as [l [[Ht Hl]|[Ht Hl]]].
    - destruct l as [|c' l].
      + right. exists []. rewrite app_nil_r in Ht. cbn [app] in Hl. subst.
        split; [by rewrite app_nil_r|reflexivity].
      + left. injection Hl as <- _. rewrite Ht. apply in_or_app. right. by left.
    - right. by exists l. }
  - (* the character is one of the whitespace after the title *)
    rewrite forallb_forall in Htrail. by apply Htrail.
  - (* the character is in the body: the lazy star went past it *)
    destruct Hb as (b1 & -> & Hb).
    specialize (Hfirst b1 (c :: t2) Hb ltac:(discriminate)).
    rewrite prev_after_app in Hfirst.
    replace ((indent ++ title ++ trailing) ++ b1)
      with (indent ++ title ++ trailing ++ b1) in Hfirst by (by rewrite <- !app_assoc).
    rewrite Hnl in Hfirst. cbn [rmatch app] in Hfirst.
    rewrite N.eqb_refl in Hfirst.
    destruct (is_space c) eqn:Ec; [reflexivity|].
    unfold non_space in Hfirst. rewrite Ec in Hfirst. cbn [negb] in Hfirst.
    destruct (_ && _) eqn:Eadv; [|discriminate].
    (* an empty match is refused only when nothing was consumed *)
    apply andb_true_iff in Eadv. destruct Eadv as [_ Hlen].
    apply Nat.eqb_eq in Hlen. destruct title as [|t0 title]; [done|].
    rewrite Hb in Hlen.
    repeat (rewrite ?length_app in Hlen; cbn [length app] in Hlen). lia.
Qed.

(** Without the title there is no section. *)
Lemma section_search_none (title : str) (s : str) :
  title <> [] ->
  str_contains title s = false ->
  forall must_advance skipped prev,
    re_search_from (section_pattern title) must_advance skipped prev s = None.
Proof.
  intros Htitle Hno must_advance skipped prev.
  destruct (re_search_from (section_pattern title) must_advance skipped prev s)
    as [m|] eqn:Hm; [|reflexivity].
  apply re_search_from_inv in Hm.
  destruct Hm as (s1 & s2 & advance & -> & _ & Hat).
  apply section_match_inv in Hat; [|exact Htitle].
  destruct Hat as (_ & indent & tail & -> & _).
  replace (s1 ++ indent ++ title ++ tail ++ m_after m)
    with ((s1 ++ indent) ++ title ++ tail ++ m_after m) in Hno
    by (by rewrite <- app_assoc).
  by rewrite str_contains_app in Hno.
Qed.

(** ** How a substitution goes on after a match *)

(** A match depends on what follows the pattern only through what it
    answers. *)
Lemma rmatch_ext (r : regex) :
  forall (X : Type) (prev : option char) (s : str)
         (k k' : option char -> str -> option X),
    (forall p t, k p t = k' p t) ->
    rmatch X r prev s k = rmatch X r prev s k'.
Proof.
  induction r as [|c|p|r1 IH1 r2 IH2|r1 IH1 r2 IH2|greedy p| | | |r1 IH1];
    intros X prev s k k' Hk; cbn [rmatch].
  - apply Hk.
  - destruct s as [|x s]; [reflexivity|]. destruct (x =? c)%N; [apply Hk|reflexivity].
  - destruct s as [|x s]; [reflexivity|]. destruct (p x); [apply Hk|reflexivity].
  - apply IH1. intros p t. by apply IH2.
  - by rewrite (IH1 X prev s k k' Hk), (IH2 X prev s k k' Hk).
  - destruct greedy.
    + revert prev. induction s as [|x s IHs]; intros prev; [apply Hk|].
      destruct (p x); [|apply Hk]. by rewrite IHs, Hk.
    + revert prev. induction s as [|x s IHs]; intros prev; rewrite Hk; [reflexivity|].
      destruct (k' prev (x :: s)); [reflexivity|]. destruct (p x); [apply IHs|reflexivity].
  - destruct prev as [c|]; [destruct (c =? newline)%N|]; by rewrite ?Hk.
  - destruct s as [|x s]; [apply Hk|]. destruct (x =? newline)%N; [apply Hk|reflexivity].
  - destruct s; [apply Hk|reflexivity].
  - destruct (rmatch unit r1 prev s _); [apply Hk|reflexivity].
Qed.

(** What follows a pattern sees the same results, whatever is made of
    them. *)
Lemma rmatch_fmap (r : regex) :
  forall (X Y : Type) (f : X -> Y) (prev : option char) (s : str)
         (k : option char -> str -> option X),
    rmatch Y r prev s (fun p t => f <$> k p t) = f <$> rmatch X r prev s k.
Proof.
  induction r as [|c|p|r1 IH1 r2 IH2|r1 IH1 r2 IH2|greedy p| | | |r1 IH1];
    intros X Y f prev s k; cbn [rmatch].
  - reflexivity.
  - destruct s as [|x s]; [reflexivity|]. by destruct (x =? c)%N.
  - destruct s as [|x s]; [reflexivity|]. by destruct (p x).
  - rewrite <- IH1. apply rmatch_ext. intros p0 t. apply IH2.
  - rewrite IH1, IH2. by destruct (rmatch X r1 prev s k).
  - destruct greedy.
    + revert prev. induction s as [|x s IHs]; intros prev; [reflexivity|].
      destruct (p x); [|reflexivity]. rewrite IHs.
      match goal with |- context [f <$> match ?inner with _ => _ end] =>
        destruct inner end; reflexivity.
    + revert prev. induction s as [|x s IHs]; intros prev.
      * by destruct (k prev []).
      * destruct (k prev (x :: s)); [reflexivity|]. cbn [fmap option_fmap option_map].
        destruct (p x); [apply IHs|reflexivity].
  - destruct prev as [c|]; [destruct (c =? newline)%N|]; reflexivity.
  - destruct s as [|x s]; [reflexivity|]. by destruct (x =? newline)%N.
  - by destruct s.
  - by destruct (rmatch unit r1 prev s _).
Qed.

(** After a newline a pattern matches as it does at the start of the
    text, if what follows it does. *)
Lemma rmatch_after_newline (r : regex) :
  forall (X : Type) (s : str) (k : option char -> str -> option X),
    (forall t, k (Some newline) t = k None t) ->
    rmatch X r (Some newline) s k = rmatch X r None s k.
Proof.
  induction r as [|c|p|r1 IH1 r2 IH2|r1 IH1 r2 IH2|greedy p| | | |r1 IH1];
    intros X s k Hk; cbn [rmatch].
  - apply Hk.
  - reflexivity.
  - reflexivity.
  - apply IH1. intros t. by apply IH2.
  - by rewrite IH1, IH2.
  - destruct greedy.
    + destruct s as [|x s]; [apply Hk|]. destruct (p x); [|apply Hk].
      match goal with |- match ?inner with _ => _ end = _ => destruct inner end;
        [reflexivity|apply Hk].
    + destruct s as [|x s]; rewrite Hk; reflexivity.
  - rewrite N.eqb_refl. apply Hk.
  - destruct s as [|x s]; [apply Hk|]. destruct (x =? newline)%N; [apply Hk|reflexivity].
  - destruct s; [apply Hk|reflexivity].
  - rewrite IH1 by reflexivity. destruct (rmatch unit r1 None s _); [apply Hk|reflexivity].
Qed.

(** A match of the section pattern is not empty, and ends after its last
    character. *)
Lemma section_match_end (title : str) (advance : bool) (prev prev' : option char)
    (s rest : str) :
  title <> [] ->
  re_match_at (section_pattern title) advance prev s = Some (prev', rest) ->
  exists consumed, s = consumed ++ rest /\ consumed <> [] /\ prev' = last consumed.
Proof.
  intros Htitle Hm. apply section_match_inv in Hm; [|exact Htitle].
  destruct Hm as (_ & indent & tail & -> & _ & -> & _).
  exists (indent ++ title ++ tail). split; [by rewrite <- !app_assoc|].
  assert (indent ++ title ++ tail <> []) as Hne.
  { intros Hnil. apply (f_equal (@length N)) in Hnil. rewrite !length_app in Hnil.
    destruct title; [done|]. simpl in Hnil. lia. }
  split; [exact Hne|]. unfold prev_after.
  destruct (last (indent ++ title ++ tail)) eqn:El; [reflexivity|].
  by apply last_None in El.
Qed.

Lemma section_match_after_newline (title : str) (advance : bool) (s : str) :
  title <> [] ->
  re_match_at (section_pattern title) advance (Some newline) s
  = re_match_at (section_pattern title) advance None s.
Proof.
  intros Htitle.
  assert (forall prev,
            rmatch _ (section_pattern title) prev s
              (fun p t => snd <$> (if advance && (length t =? length s)%nat
                                   then None else Some (p, t)))
            = snd <$> re_match_at (section_pattern title) advance prev s) as Hsnd.
  { intros prev. unfold re_match_at. apply rmatch_fmap. }
  assert (snd <$> re_match_at (section_pattern title) advance (Some newline) s
          = snd <$> re_match_at (section_pattern title) advance None s) as Hrest.
  { rewrite <- !Hsnd. apply rmatch_after_newline. intros t.
    by destruct (advance && _). }
  destruct (re_match_at (section_pattern title) advance (Some newline) s)
    as [[p1 r1]|] eqn:E1;
    destruct (re_match_at (section_pattern title) advance None s)
      as [[p2 r2]|] eqn:E2; try discriminate; [|reflexivity].
  injection Hrest as ->.
  apply section_match_end in E1; [|exact Htitle].
  apply section_match_end in E2; [|exact Htitle].
  destruct E1 as (c1 & Hs1 & _ & ->). destruct E2 as (c2 & Hs2 & _ & ->).
  rewrite Hs1 in Hs2. apply app_inv_tail in Hs2. by subst.
Qed.

(** The substitution of the sections of a title does not depend on the
    turns it is given, once they are more than the characters of the text. *)
Lemma sub_section_fuel (title : str) (repl : str -> str) :
  title <> [] ->
  forall (fuel1 fuel2 : nat) (must_advance : bool) (prev : option char) (s : str),
    (length s < fuel1)%nat -> (length s < fuel2)%nat ->
    sub_from fuel1 (section_pattern title) repl must_advance prev s
    = sub_from fuel2 (section_pattern title) repl must_advance prev s.
Proof.
  intros Htitle fuel1. induction fuel1 as [|fuel1 IH];
    intros fuel2 must_advance prev s H1 H2; [lia|].
  destruct fuel2 as [|fuel2]; [lia|]. cbn [sub_from].
  destruct (re_search_from (section_pattern title) must_advance [] prev s)
    as [m|] eqn:Hm; [|reflexivity].
  pose proof Hm as Hsplit. apply re_search_from_split in Hsplit. cbn [rev app] in Hsplit.
  apply re_search_from_inv in Hm.
  destruct Hm as (s1 & s2 & advance & Hs & _ & Hat).
  apply section_match_end in Hat; [|exact Htitle].
  destruct Hat as (consumed & Hs2 & Hne & _).
  assert (length (m_after m) < length s)%nat as Hshorter.
  { rewrite Hs, Hs2, !length_app. destruct consumed; [done|]. simpl. lia. }
  do 2 f_equal. apply IH; lia.
Qed.

(** After a section that ends a line, the substitution goes on as on a
    text of its own. *)
Lemma sub_section_after (title : str) (repl : str -> str) (fuel : nat)
    (prev : option char) (s : str) :
  title <> [] ->
  (length s < fuel)%nat ->
  s = [] \/ prev = Some newline ->
  sub_from fuel (section_pattern title) repl false prev s
  = re_sub_with (section_pattern title) repl s.
Proof.
  intros Htitle Hfuel Hprev. unfold re_sub_with.
  rewrite (sub_section_fuel title repl Htitle fuel (2 * length s + 2)) by lia.
  destruct Hprev as [-> | ->].
  - cbn [length Nat.mul Nat.add sub_from re_search_from].
    destruct (re_match_at (section_pattern title) false prev []) as [[p r]|] eqn:E1.
    { apply section_match_end in E1; [|exact Htitle].
      destruct E1 as (c & Hc & Hne & _). by destruct c. }
    destruct (re_match_at (section_pattern title) false None []) as [[p r]|] eqn:E2.
    { apply section_match_end in E2; [|exact Htitle].
      destruct E2 as (c & Hc & Hne & _). by destruct c. }
    reflexivity.
  - replace (2 * length s + 2)%nat with (S (2 * length s + 1)) by lia.
    cbn [sub_from].
    assert (re_search_from (section_pattern title) false [] (Some newline) s
            = re_search_from (section_pattern title) false [] None s) as ->; [|reflexivity].
    destruct s as [|c s]; cbn [re_search_from];
      by rewrite section_match_after_newline.
Qed.

(** A replace or insert patch on a text that has the section, with no
    backslash in its content.  The text splits into what precedes the first
    line of the title, the section and what follows it.  The section starts
    with whitespace, if any, and the title, and runs over the lines after it
    as long as they are empty or start with whitespace; what follows it is
    nothing, or starts a line with another character.  The result has the
    content and a newline in the place of the section, its title line
    included, between what preceded it, unchanged, and what followed it with
    its own sections of that title replaced in the same way: when the title
    does not occur there, what followed is unchanged too. *)
Theorem replace_patch_on_existing_section `{UnicodeDB} (text title action content : str) :
  let action' := str_lower (str_strip (if nonempty action then action else lit "append")) in
  action' = lit "insert" \/ action' = lit "replace" ->
  str_strip title <> [] ->
  str_strip content <> [] ->
  ~ In backslash content ->
  find_section text (str_strip title) <> -1 ->
  exists before indent tail after rest,
    text = before ++ (indent ++ str_strip title ++ tail) ++ after
    /\ Z.of_nat (length before) = find_section text (str_strip title)
    /\ forallb is_space indent = true
    /\ (forall t1 c t2, tail = t1 ++ c :: t2 ->
          last (indent ++ str_strip title ++ t1) = Some newline -> is_space c = true)
    /\ (after = []
        \/ (last (indent ++ str_strip title ++ tail) = Some newline
            /\ exists c, head after = Some c /\ is_space c = false))
    /\ apply_validator_patches text (report_with [] [section_patch title action content])
       = Ok (before ++ str_strip content ++ [newline] ++ rest)
    /\ replace_section after (str_strip title) (str_strip content) = Ok rest
    /\ (str_contains (str_strip title) after = false -> rest = after).
Proof.
  intros action' Haction Htitle Hcontent Hplain Hfound.
  rewrite apply_one_section_patch, apply_section_patch_strings. cbv zeta.
  fold action'.
  assert (nonempty (str_strip title) = true) as -> by (by destruct (str_strip title)).
  assert (nonempty (str_strip content) = true) as -> by (by destruct (str_strip content)).
  assert (str_eqb action' (lit "insert") || str_eqb action' (lit "replace") = true) as ->.
  { destruct Haction as [-> | ->]; [reflexivity|]. by rewrite str_eqb_refl, orb_true_r. }
  cbn [negb orb].
  assert ((find_section text (str_strip title) =? -1) = false) as -> by lia.
  destruct (section_found text (str_strip title) Hfound) as (m & Hm & Hidx & Hsplit).
  unfold re_search in Hm. pose proof Hm as Hinv. apply re_search_from_inv in Hinv.
  destruct Hinv as (s1 & s2 & advance & Htext & Hbefore & Hat).
  cbn [rev app] in Hbefore. subst s1.
  pose proof Hat as Hsec. apply section_match_inv in Hsec; [|exact Htitle].
  destruct Hsec as (_ & indent & tail & Hs2 & Hindent & Hprev & Hbody & Hend).
  assert (forall t, prev_after (prev_after None (m_before m)) (indent ++ str_strip title ++ t)
                    = last (indent ++ str_strip title ++ t)) as Hlast.
  { intros t. unfold prev_after at 1.
    destruct (last (indent ++ str_strip title ++ t)) eqn:El; [reflexivity|].
    apply last_None in El. apply (f_equal (@length N)) in El.
    rewrite !length_app in El. destruct (str_strip title); [done|]. simpl in El. lia. }
  assert (m_text m = indent ++ str_strip title ++ tail) as Htext_m.
  { rewrite Htext, Hs2 in Hsplit. apply app_inv_head in Hsplit.
    replace (indent ++ str_strip title ++ tail ++ m_after m)
      with ((indent ++ str_strip title ++ tail) ++ m_after m) in Hsplit
      by (by rewrite <- !app_assoc).
    by apply app_inv_tail in Hsplit. }
  assert (m_after m = []
          \/ (last (indent ++ str_strip title ++ tail) = Some newline
              /\ exists c, head (m_after m) = Some c /\ is_space c = false)) as Hafter.
  { destruct Hend as [Hnil|[Hline Hc]]; [by left|right]. split; [|exact Hc].
    rewrite Hprev, Hlast in Hline. destruct Hline as [Hnone|Hnl]; [|exact Hnl].
    apply last_None in Hnone. apply (f_equal (@length N)) in Hnone.
    rewrite !length_app in Hnone. destruct (str_strip title); [done|].
    simpl in Hnone. lia. }
  assert (~ In backslash (str_strip content ++ [newline])) as Hrepl.
  { intros [Hin|[Hin|[]]]%in_app_or; [|discriminate Hin].
    apply Hplain. by apply (in_strip_by is_space). }
  unfold replace_section. rewrite !re_sub_plain by exact Hrepl.
  unfold re_sub_with at 1.
  replace (2 * length text + 2)%nat with (S (2 * length text + 1)) by lia.
  cbn [sub_from]. rewrite Hm.
  assert (match m_text m with [] => true | _ :: _ => false end = false) as ->.
  { rewrite Htext_m. destruct indent; [destruct (str_strip title)|]; done. }
  rewrite (sub_section_after (str_strip title) _ (2 * length text + 1) (m_prev m)
             (m_after m) Htitle).
  - exists (m_before m), indent, tail, (m_after m),
      (re_sub_with (section_pattern (str_strip title))
         (fun _ => str_strip content ++ [newline]) (m_after m)).
    split; [by rewrite Htext, Hs2, <- !app_assoc|]. split; [exact Hidx|].
    split; [exact Hindent|].
    split; [intros t1 c t2 Ht Hnl; apply (Hbody t1 c t2 Ht); by rewrite Hlast|].
    split; [exact Hafter|].
    split; [by rewrite <- app_assoc|]. split; [by rewrite re_sub_plain|].
    intros Hno. unfold re_sub_with.
    replace (2 * length (m_after m) + 2)%nat with (S (2 * length (m_after m) + 1)) by lia.
    cbn [sub_from]. by rewrite section_search_none.
  - rewrite Hsplit, !length_app. lia.
  - destruct Hafter as [Hnil|[Hnl _]]; [by left|right]. by rewrite Hprev, Hlast.
Qed.

Lemma replace_patch_on_existing_section_witness :
  exists before indent tail after rest,
    lines ["Intro"%string; "SUMMARY"%string; " old"%string; "NEXT"%string]
    = before ++ (indent ++ str_strip (lit "SUMMARY") ++ tail) ++ after
    /\ Z.of_nat (length before)
       = find_section
           (lines ["Intro"%string; "SUMMARY"%string; " old"%string; "NEXT"%string])
           (str_strip (lit "SUMMARY"))
    /\ forallb is_space indent = true
    /\ (forall t1 c t2, tail = t1 ++ c :: t2 ->
          last (indent ++ str_strip (lit "SUMMARY") ++ t1) = Some newline ->
          is_space c = true)
    /\ (after = []
        \/ (last (indent ++ str_strip (lit "SUMMARY") ++ tail) = Some newline
            /\ exists c, head after = Some c /\ is_space c = false))
    /\ @apply_validator_patches ascii_db
         (lines ["Intro"%string; "SUMMARY"%string; " old"%string; "NEXT"%string])
         (report_with [] [section_patch (lit "SUMMARY") (lit "replace") (lit "new")])
       = Ok (before ++ str_strip (lit "new") ++ [newline] ++ rest)
    /\ @replace_section ascii_db after (str_strip (lit "SUMMARY")) (str_strip (lit "new"))
       = Ok rest
    /\ (str_contains (str_strip (lit "SUMMARY")) after = false -> rest = after).
Proof.
  apply (@replace_patch_on_existing_section ascii_db
           (lines ["Intro"%string; "SUMMARY"%string; " old"%string; "NEXT"%string])
           (lit "SUMMARY") (lit "replace") (lit "new")).
  - right. vm_compute. reflexivity.
  - vm_compute. discriminate.
  - vm_compute. discriminate.
  - vm_compute. intros [Hc|[Hc|[Hc|[]]]]; discriminate Hc.
  - vm_compute. discriminate.
Defined.
